(** * sveltekit-server-functions: the preprocessor of [src/lib/index.ts]

    A shallow embedding of the preprocessor that turns [async function
    server_*] declarations of a Svelte component into API endpoints and
    rewrites their call sites into [fetch] requests.

    Conventions of the embedding:
    - a JavaScript string is a [string]; every code unit is taken to be
      below 256, so that offsets of the syntax tree are offsets into the
      [string];
    - offsets are [Z], as JavaScript numbers that may go negative
      ([node.end - 1]) before they reach [slice];
    - a syntax-tree node is an object with a [type], a span, and child
      nodes stored under keys, in the key order [estree-walker] follows;
    - [parse] (svelte/compiler), the SHA-256 digest (crypto) and the
      [path] helpers are collaborators from outside the repository; the
      code is embedded over them as section variables, and a concrete
      SHA-256 is supplied for the closed examples;
    - exceptions, the console and the file system are threaded through a
      small state-and-exception monad. *)

From Stdlib Require Import ZArith String Ascii List Lia Bool DecimalString Sorted.
From stdpp Require Import base option list gmap strings.

Local Open Scope string_scope.
Local Open Scope Z_scope.
Local Open Scope list_scope.

(** ** JavaScript string primitives *)

Module Js.

(** [String.prototype.slice(a, b)]: negative indices count from the end,
    both are clamped to the length, an empty range gives [""]. *)
Definition slice (s : string) (a b : Z) : string :=
  let len := Z.of_nat (String.length s) in
  let from := if a <? 0 then Z.max (len + a) 0 else Z.min a len in
  let to := if b <? 0 then Z.max (len + b) 0 else Z.min b len in
  String.substring (Z.to_nat from) (Z.to_nat (to - from)) s.

(** [s.slice(a)] *)
Definition slice_from (s : string) (a : Z) : string :=
  slice s a (Z.of_nat (String.length s)).

(** White space and line terminators among the code units below 256. *)
Definition is_space (c : ascii) : bool :=
  let n := nat_of_ascii c in
  (Nat.eqb n 9 || Nat.eqb n 10 || Nat.eqb n 11 || Nat.eqb n 12
   || Nat.eqb n 13 || Nat.eqb n 32 || Nat.eqb n 160)%bool.

Fixpoint trimStart (s : string) : string :=
  match s with
  | EmptyString => EmptyString
  | String c r => if is_space c then trimStart r else s
  end.

Fixpoint trimEnd (s : string) : string :=
  match s with
  | EmptyString => EmptyString
  | String c r =>
      match trimEnd r with
      | EmptyString => if is_space c then EmptyString else String c EmptyString
      | r' => String c r'
      end
  end.

Definition trim (s : string) : string := trimEnd (trimStart s).

Definition startsWith (s p : string) : bool := String.prefix p s.

Definition endsWith (s suffix : string) : bool :=
  let n := String.length s in
  let m := String.length suffix in
  (Nat.leb m n && String.eqb (String.substring (n - m) m s) suffix)%bool.

Fixpoint includes (s sub : string) : bool :=
  (String.prefix sub s ||
   match s with
   | EmptyString => false
   | String _ r => includes r sub
   end)%bool.

(** [s.split(c)] for a one-character separator: never empty. *)
Fixpoint split (c : ascii) (s : string) : list string :=
  match s with
  | EmptyString => [EmptyString]
  | String x r =>
      if Ascii.eqb x c then EmptyString :: split c r
      else match split c r with
           | h :: t => String x h :: t
           | [] => [String x EmptyString]
           end
  end.

Definition join (sep : string) (l : list string) : string :=
  String.concat sep l.

(** [s.replace(/\\/g, '/')] *)
Fixpoint replace_backslashes (s : string) : string :=
  match s with
  | EmptyString => EmptyString
  | String c r =>
      String (if Ascii.eqb c "\" then "/"%char else c) (replace_backslashes r)
  end.

(** A non-negative integer in a template literal. *)
Definition of_nat (n : nat) : string :=
  NilZero.string_of_uint (Nat.to_uint n).

(** [Array.prototype.sort(cmp)]: stable; [x] goes before the first
    element it does not compare greater than. *)
Section Sort.
Context {A : Type} (cmp : A -> A -> Z).

Fixpoint insert_sorted (x : A) (l : list A) : list A :=
  match l with
  | [] => [x]
  | y :: l' => if cmp x y <=? 0 then x :: l else y :: insert_sorted x l'
  end.

Definition sort (l : list A) : list A := foldr insert_sorted [] l.
End Sort.

(** [x || d] on numbers: [0] and [undefined] are falsy. *)
Definition or_num (x : option Z) (d : Z) : Z :=
  match x with
  | Some v => if v =? 0 then d else v
  | None => d
  end.

End Js.

(** ** Syntax trees and the [estree-walker] traversal *)

(** A node of the tree [parse] returns: [type], [start], [end], the
    [async] flag of a function, the [name] of an identifier, and the
    child nodes with the key each is stored under; an array-valued key
    occurs once per element, in order. *)
#[warnings="-register-all"]
Inductive Node : Type := mkNode {
  node_type : string;
  node_start : Z;
  node_end : Z;
  node_async : bool;
  node_name : option string;
  node_kids : list (string * Node)
}.

(** [node[key]] as the list of nodes stored under [key]. *)
Definition node_field (key : string) (n : Node) : list Node :=
  map snd (filter (fun kv => String.eqb (fst kv) key) (node_kids n)).

(** [node.key] for a key that holds one node. *)
Definition node_field1 (key : string) (n : Node) : option Node :=
  head (node_field key n).

Record Script := mkScript { content : Node }.

(** [AST.Root]: the markup [fragment] and the instance [<script>]. *)
Record Root := mkRoot {
  fragment : option Node;
  instance : option Script
}.

Section Walk.
Context {S : Type}.

(** [enter(node, parent)] updates the visitor's state; the flag tells
    whether it called [this.skip()]. *)
Variable enter : Node -> option Node -> S -> S * bool.

Fixpoint visit (node : Node) (parent : option Node) (s : S) : S :=
  let '(s1, skipped) := enter node parent s in
  if skipped then s1
  else
    (fix visit_kids (ks : list (string * Node)) (s : S) : S :=
       match ks with
       | [] => s
       | (_, k) :: ks' => visit_kids ks' (visit k (Some node) s)
       end) (node_kids node) s1.

Definition walk (ast : Node) (s : S) : S := visit ast None s.
End Walk.

(** ** AstUtils *)

Record ServerFunction := mkServerFunction {
  sf_name : string;
  sf_node : Node;
  sf_start : Z;
  sf_end : Z
}.

Record Span := mkSpan { span_start : Z; span_end : Z }.

Record FunctionCall := mkFunctionCall {
  call_start : Z;
  call_end : Z;
  call_arguments : Span
}.

Record ImportNode := mkImportNode { imp_start : Z; imp_end : Z }.

Record FunctionDetails := mkFunctionDetails {
  imports : list string;
  functionDefinition : string
}.

Module AstUtils.

(** [node.id?.name?.startsWith('server_')] *)
Definition id_starts_with_server (node : Node) : bool :=
  match node_field1 "id" node with
  | Some i =>
      match node_name i with
      | Some nm => Js.startsWith nm "server_"
      | None => false
      end
  | None => false
  end.

Definition id_name (node : Node) : string :=
  match node_field1 "id" node with
  | Some i => default "" (node_name i)
  | None => ""
  end.

Definition is_server_function (node : Node) : bool :=
  (String.eqb (node_type node) "FunctionDeclaration"
   && node_async node && id_starts_with_server node)%bool.

(** Finds all async functions that start with 'server_' *)
Definition findServerFunctions (ast : Root) : list ServerFunction :=
  match instance ast with
  | None => []
  | Some inst =>
      walk (fun node _ functions =>
              if is_server_function node
              then (functions ++
                      [mkServerFunction (id_name node) node
                         (node_start node) (node_end node)], false)
              else (functions, false))
           (content inst) []
  end.

(** [node.callee?.name === functionName] *)
Definition callee_is (functionName : string) (node : Node) : bool :=
  match node_field1 "callee" node with
  | Some c =>
      match node_name c with
      | Some nm => String.eqb nm functionName
      | None => false
      end
  | None => false
  end.

Definition is_call_to (functionName : string) (node : Node) : bool :=
  (String.eqb (node_type node) "CallExpression"
   && callee_is functionName node)%bool.

(** The record pushed for a matching call: the span of the argument
    list runs from the first argument's start to the last one's end,
    each falling back to [node.end - 1]. *)
Definition call_of (node : Node) : FunctionCall :=
  let args := node_field "arguments" node in
  mkFunctionCall (node_start node) (node_end node)
    (mkSpan
       (Js.or_num (node_start <$> head args) (node_end node - 1))
       (Js.or_num (node_end <$> last args) (node_end node - 1))).

Definition push_call (functionName : string)
    (node : Node) (_ : option Node) (calls : list FunctionCall)
  : list FunctionCall * bool :=
  if is_call_to functionName node
  then (calls ++ [call_of node], false)
  else (calls, false).

(** Finds all calls to a specific function: the markup first, then the
    instance script. *)
Definition findFunctionCalls (ast : Root) (functionName : string)
  : list FunctionCall :=
  let calls := [] in
  let calls :=
    match fragment ast with
    | Some f => walk (push_call functionName) f calls
    | None => calls
    end in
  match instance ast with
  | Some inst => walk (push_call functionName) (content inst) calls
  | None => calls
  end.

(** [specifier.local.name] *)
Definition local_name (specifier : Node) : string :=
  match node_field1 "local" specifier with
  | Some l => default "" (node_name l)
  | None => ""
  end.

(** Collects all identifiers used in the instance script; the set is
    kept as the list of names in insertion order. *)
Definition add_name (nm : string) (set : list string) : list string :=
  if bool_decide (nm ∈ set) then set else set ++ [nm].

Definition is_import (node : Node) : bool :=
  String.eqb (node_type node) "ImportDeclaration".

Definition collect_enter (node : Node) (parent : option Node)
    (identifiers : list string) : list string * bool :=
  if (is_import node
      || match parent with Some p => is_import p | None => false end)%bool
  then (identifiers, true)
  else if String.eqb (node_type node) "Identifier"
       then (add_name (default "" (node_name node)) identifiers, false)
       else (identifiers, false).

Definition collectUsedIdentifiers (ast : Root) : list string :=
  match instance ast with
  | None => []
  | Some inst => walk collect_enter (content inst) []
  end.

Definition all_specifiers_unused (usedIdentifiers : list string)
    (node : Node) : bool :=
  forallb (fun specifier =>
             negb (bool_decide (local_name specifier ∈ usedIdentifiers)))
          (node_field "specifiers" node).

(** Finds imports that are no longer used *)
Definition findUnusedImports (ast : Root) (usedIdentifiers : list string)
  : list ImportNode :=
  match instance ast with
  | None => []
  | Some inst =>
      walk (fun node _ unusedImports =>
              if (is_import node
                  && all_specifiers_unused usedIdentifiers node)%bool
              then (unusedImports ++
                      [mkImportNode (node_start node) (node_end node)],
                    false)
              else (unusedImports, false))
           (content inst) []
  end.

Section ExtractFunctionDetails.
Variable parse : string -> Root + string.

Definition function_identifiers (serverFunc : ServerFunction)
  : list string :=
  walk (fun node _ used =>
          if String.eqb (node_type node) "Identifier"
          then (add_name (default "" (node_name node)) used, false)
          else (used, false))
       (sf_node serverFunc) [].

(** Extracts the function definition and its required imports; the
    error of [parse] is passed on. *)
Definition extractFunctionDetails (content_ : string)
    (serverFunc : ServerFunction) : FunctionDetails + string :=
  match parse content_ with
  | inr e => inr e
  | inl ast =>
      let usedIdentifiers := function_identifiers serverFunc in
      let relevantImports :=
        match instance ast with
        | None => []
        | Some inst =>
            walk (fun node _ relevant =>
                    if (is_import node
                        && existsb
                             (fun nm => bool_decide (nm ∈ usedIdentifiers))
                             (map local_name
                                (node_field "specifiers" node)))%bool
                    then (add_name
                            (Js.slice content_ (node_start node)
                               (node_end node)) relevant, false)
                    else (relevant, false))
                 (content inst) []
        end in
      inl (mkFunctionDetails relevantImports
             (Js.slice content_ (sf_start serverFunc)
                (sf_end serverFunc)))
  end.
End ExtractFunctionDetails.

End AstUtils.

(** ** Effects: exceptions, the console and the file system *)

(** A file-system path, as its segments below the root. *)
Abbreviation fspath := (list string).

Inductive entry := File (data : string) | Dir.

(** The operations that change the file system, as they are performed. *)
Inductive FsOp :=
| OpWrite (p : fspath) (data : string)
| OpMkdir (p : fspath)
| OpRm (p : fspath).

(** What a call of [console.warn] or [console.error] is handed: the text
    its string arguments make, or a text followed by the error object
    that was caught.  How the console shows such an object is not
    modelled; the entry keeps the message of the error. *)
Inductive LogEntry :=
| Line (text : string)
| LineWithError (text : string) (message : string).

Record World := mkWorld {
  fs : gmap fspath entry;
  console : list LogEntry;
  trace : list FsOp
}.

Inductive outcome (A : Type) : Type :=
| Ret (a : A)
| Thrown (message : string).
Arguments Ret {A} a.
Arguments Thrown {A} message.

Definition M (A : Type) : Type := World -> outcome A * World.

Definition ret {A} (a : A) : M A := fun w => (Ret a, w).

Definition throw {A} (message : string) : M A := fun w => (Thrown message, w).

Definition bind {A B} (m : M A) (k : A -> M B) : M B :=
  fun w =>
    match m w with
    | (Ret a, w') => k a w'
    | (Thrown e, w') => (Thrown e, w')
    end.

(** [try { m } catch (error) { handler(error.message) }] *)
Definition try_catch {A} (m : M A) (handler : string -> M A) : M A :=
  fun w =>
    match m w with
    | (Ret a, w') => (Ret a, w')
    | (Thrown e, w') => handler e w'
    end.

Notation "x <- m ;; k" := (bind m (fun x => k))
  (at level 20, m at level 99, k at level 200, only parsing).

(** [l.forEach(f)] *)
Fixpoint for_each {A} (f : A -> M unit) (l : list A) : M unit :=
  match l with
  | [] => ret tt
  | x :: l' => u <- f x ;; for_each f l'
  end.

(** A left fold threading the object under mutation through [forEach]. *)
Fixpoint fold_each {A T} (f : T -> A -> M T) (l : list A) (t : T) : M T :=
  match l with
  | [] => ret t
  | x :: l' => t' <- f t x ;; fold_each f l' t'
  end.

(** Lifting a collaborator that returns or throws. *)
Definition lift {A} (r : A + string) : M A :=
  match r with
  | inl a => ret a
  | inr e => throw e
  end.

Module Console.
(** [console.warn(a, b)] with strings: the text [a + ' ' + b] as [line]. *)
Definition warn (line : string) : M unit :=
  fun w => (Ret tt, mkWorld (fs w) (console w ++ [Line line]) (trace w)).
(** [console.error(text, error)] with the error object caught. *)
Definition error (text message : string) : M unit :=
  fun w =>
    (Ret tt,
     mkWorld (fs w) (console w ++ [LineWithError text message]) (trace w)).
End Console.

Module Fs.

Definition lookup_entry (m : gmap fspath entry) (p : fspath) : option entry :=
  match p with
  | [] => Some Dir
  | _ => m !! p
  end.

(** [q] relative to [p], when [q] lies strictly below [p]. *)
Fixpoint below (p q : fspath) : option fspath :=
  match p, q with
  | [], [] => None
  | [], _ => Some q
  | x :: p', y :: q' => if String.eqb x y then below p' q' else None
  | _ :: _, [] => None
  end.

Definition existsSync (p : fspath) : M bool :=
  fun w => (Ret (bool_decide (is_Some (lookup_entry (fs w) p))), w).

(** [fs.readdirSync(p)]: the names directly inside [p]. *)
Definition readdirSync (p : fspath) : M (list string) :=
  fun w =>
    match lookup_entry (fs w) p with
    | Some Dir =>
        (Ret (omap (fun kv => match below p (fst kv) with
                              | Some [name] => Some name
                              | _ => None
                              end) (map_to_list (fs w))), w)
    | Some (File _) => (Thrown "ENOTDIR: not a directory, scandir", w)
    | None => (Thrown "ENOENT: no such file or directory, scandir", w)
    end.

(** [fs.readdirSync(p, { recursive: true })]: everything below [p],
    each as its path relative to [p]. *)
Definition readdirSync_recursive (p : fspath) : M (list fspath) :=
  fun w =>
    match lookup_entry (fs w) p with
    | Some Dir =>
        (Ret (omap (fun kv => below p (fst kv)) (map_to_list (fs w))), w)
    | Some (File _) => (Thrown "ENOTDIR: not a directory, scandir", w)
    | None => (Thrown "ENOENT: no such file or directory, scandir", w)
    end.

(** [fs.statSync(p).isDirectory()] *)
Definition statSync_isDirectory (p : fspath) : M bool :=
  fun w =>
    match lookup_entry (fs w) p with
    | Some Dir => (Ret true, w)
    | Some (File _) => (Ret false, w)
    | None => (Thrown "ENOENT: no such file or directory, stat", w)
    end.

(** [fs.rmSync(p, { recursive: true, force: true })] *)
Definition rmSync (p : fspath) : M unit :=
  fun w =>
    (Ret tt,
     mkWorld (filter (fun kv => p ≠ fst kv ∧ below p (fst kv) = None) (fs w))
             (console w) (trace w ++ [OpRm p])).

Definition readFileSync (p : fspath) : M string :=
  fun w =>
    match lookup_entry (fs w) p with
    | Some (File data) => (Ret data, w)
    | Some Dir => (Thrown "EISDIR: illegal operation on a directory, read", w)
    | None => (Thrown "ENOENT: no such file or directory, open", w)
    end.

(** The directories [pre/x1], [pre/x1/x2], ... are created in turn; a
    file in the way makes the call fail. *)
Fixpoint mkdir_p (pre rest : fspath) (m : gmap fspath entry)
  : option (gmap fspath entry) :=
  match rest with
  | [] => Some m
  | x :: rest' =>
      let q := pre ++ [x] in
      match m !! q with
      | Some (File _) => None
      | _ => mkdir_p q rest' (<[q := Dir]> m)
      end
  end.

(** [fs.mkdirSync(p, { recursive: true })] *)
Definition mkdirSync (p : fspath) : M unit :=
  fun w =>
    match mkdir_p [] p (fs w) with
    | Some m => (Ret tt, mkWorld m (console w) (trace w ++ [OpMkdir p]))
    | None => (Thrown "EEXIST: file already exists, mkdir", w)
    end.

(** [path.dirname(p)] *)
Definition dirname (p : fspath) : fspath := removelast p.

Definition writeFileSync (p : fspath) (data : string) : M unit :=
  fun w =>
    match p with
    | [] => (Thrown "EISDIR: illegal operation on a directory, open", w)
    | _ =>
        match lookup_entry (fs w) (dirname p), fs w !! p with
        | Some Dir, Some Dir =>
            (Thrown "EISDIR: illegal operation on a directory, open", w)
        | Some Dir, _ =>
            (Ret tt,
             mkWorld (<[p := File data]> (fs w)) (console w)
                     (trace w ++ [OpWrite p data]))
        | _, _ => (Thrown "ENOENT: no such file or directory, open", w)
        end
    end.

(** A path as the string the code handles. *)
Definition render (p : fspath) : string := "/" +:+ Js.join "/" p.

End Fs.

(** ** SHA-256 and base64url, for the closed examples

    [crypto.createHash('sha256').update(str).digest('base64url')] is a
    collaborator of the code. The development is generic in it; this
    module gives the function itself (FIPS 180-4, RFC 4648 section 5) so
    that route paths of concrete documents can be computed. *)

Module Sha256.

Definition mask32 : Z := 0xFFFFFFFF.
Definition add32 (a b : Z) : Z := Z.land (a + b) mask32.
Definition rotr (n x : Z) : Z :=
  Z.lor (Z.shiftr x n) (Z.land (Z.shiftl x (32 - n)) mask32).
Definition shr (n x : Z) : Z := Z.shiftr x n.
Definition xor3 (a b c : Z) : Z := Z.lxor a (Z.lxor b c).

Definition Ch (x y z : Z) : Z :=
  Z.lxor (Z.land x y) (Z.land (Z.lxor x mask32) z).
Definition Maj (x y z : Z) : Z :=
  xor3 (Z.land x y) (Z.land x z) (Z.land y z).
Definition Sigma0 (x : Z) : Z := xor3 (rotr 2 x) (rotr 13 x) (rotr 22 x).
Definition Sigma1 (x : Z) : Z := xor3 (rotr 6 x) (rotr 11 x) (rotr 25 x).
Definition sigma0 (x : Z) : Z := xor3 (rotr 7 x) (rotr 18 x) (shr 3 x).
Definition sigma1 (x : Z) : Z := xor3 (rotr 17 x) (rotr 19 x) (shr 10 x).

(** The round constants are the first 32 bits of the fractional parts
    of the cube roots of the first 64 primes, the initial hash value
    those of the square roots of the first 8. *)
Definition is_prime (n : Z) : bool :=
  forallb (fun d => negb (n mod Z.of_nat d =? 0)) (seq 2 (Z.to_nat n - 2)).

Definition primes : list Z :=
  Eval vm_compute in
    firstn 64 (List.filter is_prime (map Z.of_nat (seq 2 310))).

(** The integer cube root of [n], built from bit [k - 1] downwards. *)
Fixpoint cube_root (k : nat) (n r : Z) : Z :=
  match k with
  | O => r
  | S k' =>
      let c := r + 2 ^ Z.of_nat k' in
      cube_root k' n (if c * c * c <=? n then c else r)
  end.

Definition K : list Z :=
  Eval vm_compute in
    map (fun p => Z.land (cube_root 36 (p * 2 ^ 96) 0) mask32) primes.

Definition H0 : list Z :=
  Eval vm_compute in
    map (fun p => Z.land (Z.sqrt (p * 2 ^ 64)) mask32) (firstn 8 primes).

(** UTF-8 bytes of a string whose code units are below 256. *)
Fixpoint utf8 (s : string) : list Z :=
  match s with
  | EmptyString => []
  | String c r =>
      let n := Z.of_nat (nat_of_ascii c) in
      if n <? 128 then n :: utf8 r
      else Z.lor 0xC0 (Z.shiftr n 6) :: Z.lor 0x80 (Z.land n 0x3F) :: utf8 r
  end.

(** The message followed by [0x80], zeros, and its length in bits as
    eight big-endian bytes, up to a multiple of 64 bytes. *)
Definition pad (msg : list Z) : list Z :=
  let len := Z.of_nat (length msg) in
  let zeros := Z.to_nat ((55 - len) mod 64) in
  let bits := 8 * len in
  msg ++ [0x80] ++ repeat 0 zeros
      ++ map (fun i => Z.land (Z.shiftr bits (8 * (7 - Z.of_nat i))) 0xFF)
             (seq 0 8).

Fixpoint words (n : nat) (bytes : list Z) : list Z :=
  match n, bytes with
  | S n', a :: b :: c :: d :: rest =>
      (Z.shiftl a 24 + Z.shiftl b 16 + Z.shiftl c 8 + d) :: words n' rest
  | _, _ => []
  end.

(** The message schedule, most recent word first. *)
Fixpoint schedule (n : nat) (w : list Z) : list Z :=
  match n with
  | O => w
  | S n' =>
      let next :=
        add32 (add32 (sigma1 (nth 1 w 0)) (nth 6 w 0))
              (add32 (sigma0 (nth 14 w 0)) (nth 15 w 0)) in
      schedule n' (next :: w)
  end.

Definition round (st : list Z) (kw : Z * Z) : list Z :=
  match st with
  | [a; b; c; d; e; f; g; h] =>
      let t1 := add32 (add32 (add32 h (Sigma1 e)) (Ch e f g))
                      (add32 (fst kw) (snd kw)) in
      let t2 := add32 (Sigma0 a) (Maj a b c) in
      [add32 t1 t2; a; b; c; add32 d t1; e; f; g]
  | _ => st
  end.

Definition compress (h : list Z) (block : list Z) : list Z :=
  let w := rev (schedule 48 (rev (words 16 block))) in
  let st := fold_left round (combine K w) h in
  map (fun p => add32 (fst p) (snd p)) (combine h st).

Fixpoint blocks (n : nat) (bytes : list Z) (h : list Z) : list Z :=
  match n with
  | O => h
  | S n' => blocks n' (skipn 64 bytes) (compress h (firstn 64 bytes))
  end.

Definition digest_bytes (s : string) : list Z :=
  let bytes := pad (utf8 s) in
  let h := blocks (length bytes / 64) bytes H0 in
  flat_map (fun x => [Z.shiftr x 24; Z.land (Z.shiftr x 16) 0xFF;
                      Z.land (Z.shiftr x 8) 0xFF; Z.land x 0xFF]) h.

Definition alphabet : string :=
  "ABCDEFGHIJKLMNOPQRSTUVWXYZabcdefghijklmnopqrstuvwxyz0123456789-_".

Definition b64char (i : Z) : string :=
  match String.get (Z.to_nat i) alphabet with
  | Some c => String c EmptyString
  | None => EmptyString
  end.

Fixpoint base64url (n : nat) (bytes : list Z) : string :=
  match n, bytes with
  | S n', a :: b :: c :: rest =>
      b64char (Z.shiftr a 2)
      +:+ b64char (Z.lor (Z.shiftl (Z.land a 3) 4) (Z.shiftr b 4))
      +:+ b64char (Z.lor (Z.shiftl (Z.land b 15) 2) (Z.shiftr c 6))
      +:+ b64char (Z.land c 63)
      +:+ base64url n' rest
  | S _, [a; b] =>
      b64char (Z.shiftr a 2)
      +:+ b64char (Z.lor (Z.shiftl (Z.land a 3) 4) (Z.shiftr b 4))
      +:+ b64char (Z.shiftl (Z.land b 15) 2)
  | S _, [a] =>
      b64char (Z.shiftr a 2) +:+ b64char (Z.shiftl (Z.land a 3) 4)
  | _, _ => EmptyString
  end.

(** [crypto.createHash('sha256').update(s).digest('base64url')] *)
Definition sha256_base64url (s : string) : string :=
  let bytes := digest_bytes s in
  base64url (length bytes) bytes.

End Sha256.

(** ** The preprocessor *)

Definition nl : string := String (ascii_of_nat 10) EmptyString.
Definition dquote : string := String (ascii_of_nat 34) EmptyString.

Record PreprocessorResult := mkResult { code : string }.

Record PathResult := mkPathResult {
  apiPath : fspath;
  routePath : string
}.

(** [if (x)] on an optional string: [undefined] and [''] are falsy. *)
Definition truthy (filename : option string) : bool :=
  match filename with
  | Some f => negb (String.eqb f "")
  | None => false
  end.

(** An optional string inside a template literal. *)
Definition show (filename : option string) : string :=
  default "undefined" filename.

(** Checks if a file should be skipped from processing *)
Definition isSkippableFile (filename : option string) : bool :=
  match filename with
  | None => true
  | Some f =>
      if (negb (truthy filename) || negb (Js.endsWith f ".svelte"))%bool
      then true
      else existsb (fun skipPath => Js.includes f skipPath)
                   [".svelte-kit"; "node_modules"]
  end.

(** Utilities for path generation and management *)
Module PathUtils.
Section WithCollaborators.
(** [crypto.createHash('sha256').update(s).digest('base64url')] *)
Variable digest : string -> string.
(** [process.cwd()] *)
Variable cwd : fspath.
(** [f => path.relative(path.join(process.cwd(), 'src'),
    path.normalize(f))] *)
Variable relative_to_src : string -> string.

Definition relativePath (filename : option string) : string :=
  match filename with
  | Some f =>
      if truthy filename
      then Js.replace_backslashes (relative_to_src f)
      else "unknown"
  | None => "unknown"
  end.

(** [`${functionName}_${hash}`] with the hash of
    [`${relativePath}:${functionName}`] cut to eight characters. *)
Definition uniquePath (relativePath functionName : string) : string :=
  let str := relativePath +:+ ":" +:+ functionName in
  let hash := Js.slice (digest str) 0 8 in
  functionName +:+ "_" +:+ hash.

(** Generates unique API paths for server functions; [uniquePath]
    holds no separator and is one segment of [apiPath]. *)
Definition generatePaths (functionName : string)
    (filename : option string) : PathResult :=
  let uniquePath := uniquePath (relativePath filename) functionName in
  mkPathResult (cwd ++ ["src"; "routes"; "api"; uniquePath; "+server.ts"])
               uniquePath.
End WithCollaborators.
End PathUtils.

(** Manages API endpoints creation and cleanup *)
Module EndpointManager.
Section WithCollaborators.
(** [parse(content, { modern: true })] of svelte/compiler: a tree, or
    the message of the error it throws. *)
Variable parse : string -> Root + string.
Variable digest : string -> string.
Variable cwd : fspath.
Variable relative_to_src : string -> string.

Definition apiDir : fspath := cwd ++ ["src"; "routes"; "api"].
Definition srcDir : fspath := cwd ++ ["src"].

(** Removes previously generated API endpoints *)
Definition cleanupEndpoints : M unit :=
  present <- Fs.existsSync apiDir ;;
  if negb present then ret tt
  else
    try_catch
      (entries <- Fs.readdirSync apiDir ;;
       for_each
         (fun endpoint =>
            let endpointPath := apiDir ++ [endpoint] in
            isDirectory <- Fs.statSync_isDirectory endpointPath ;;
            if isDirectory then Fs.rmSync endpointPath else ret tt)
         (List.filter (fun endpoint => Js.startsWith endpoint "server_")
                      entries))
      (fun error =>
         Console.error "Error cleaning up endpoints:" error).

(** Generates the API endpoint file content with proper TypeScript
    types *)
Definition generateApiContent (functionDefinition functionName : string)
    (imports_ : list string) : string :=
  Js.join nl imports_ +:+ nl +:+
  nl +:+
  "import { json } from '@sveltejs/kit';" +:+ nl +:+
  "import type { RequestHandler } from './$types';" +:+ nl +:+
  nl +:+
  "export const POST: RequestHandler = async ({ request }) => {" +:+ nl +:+
  "    " +:+ functionDefinition +:+ nl +:+
  "    const payload: Record<string, unknown> = await request.json();"
    +:+ nl +:+
  "    const args = Object.values(payload) as Parameters<typeof "
    +:+ functionName +:+ ">;" +:+ nl +:+
  "    const result = await " +:+ functionName +:+ "(...args);" +:+ nl +:+
  "    return json(result);" +:+ nl +:+
  "};".

(** Creates or updates an API endpoint file for a server function *)
Definition createEndpoint (apiPath_ : fspath) (content_ : string)
    (serverFunc : ServerFunction) : M unit :=
  try_catch
    (details <- lift (AstUtils.extractFunctionDetails parse content_
                        serverFunc) ;;
     let apiContent :=
       generateApiContent (functionDefinition details)
                          (sf_name serverFunc) (imports details) in
     u <- Fs.mkdirSync (Fs.dirname apiPath_) ;;
     present <- Fs.existsSync apiPath_ ;;
     if negb present then Fs.writeFileSync apiPath_ apiContent
     else
       existing <- Fs.readFileSync apiPath_ ;;
       if negb (String.eqb existing apiContent)
       then Fs.writeFileSync apiPath_ apiContent
       else ret tt)
    (fun error =>
       Console.error ("Error creating endpoint for "
                      +:+ sf_name serverFunc +:+ ":") error).

(** Processes a single file to extract server functions *)
Definition processFile (filePath : fspath) : M unit :=
  try_catch
    (content_ <- Fs.readFileSync filePath ;;
     if negb (Js.includes content_ "async function server_") then ret tt
     else
       ast <- lift (parse content_) ;;
       let serverFunctions := AstUtils.findServerFunctions ast in
       for_each
         (fun func =>
            let paths :=
              PathUtils.generatePaths digest cwd relative_to_src
                (sf_name func) (Some (Fs.render filePath)) in
            createEndpoint (apiPath paths) content_ func)
         serverFunctions)
    (fun errorMessage =>
       Console.warn ("Warning: Could not process "
                     +:+ Fs.render filePath +:+ " " +:+ errorMessage)).

(** Recursively scans Svelte files and creates API endpoints for
    server functions *)
Definition scanAndCreateEndpoints : M unit :=
  try_catch
    (files <- Fs.readdirSync_recursive srcDir ;;
     for_each
       (fun file =>
          if Js.endsWith (Js.join "/" file) ".svelte"
          then processFile (srcDir ++ file)
          else ret tt)
       files)
    (fun error =>
       Console.error "Error scanning for server functions:" error).
End WithCollaborators.
End EndpointManager.

(** Handles the transformation of Svelte file content *)
Module ServerFunctionTransformer.

(** The object: [content] is reassigned by the methods, [filename] and
    [ast] are set once by the constructor. *)
Record t := mk {
  content_ : string;
  filename : option string;
  ast : Root
}.

Definition set_content (this : t) (c : string) : t :=
  mk c (filename this) (ast this).

(** Generates a fetch call that replaces the original function call *)
Definition generateFetchCall (routePath_ params : string) : string :=
  let payloadStr :=
    if negb (String.eqb (Js.trim params) "")
    then "{" +:+
         Js.join ","
           (imap (fun i p => dquote +:+ Js.of_nat i +:+ dquote +:+ ": "
                             +:+ Js.trim p)
                 (Js.split "," params))
         +:+ "}"
    else "{}" in
  "fetch('/api/" +:+ routePath_ +:+ "', {" +:+ nl +:+
  "        method: 'POST'," +:+ nl +:+
  "        headers: { 'Content-Type': 'application/json' }," +:+ nl +:+
  "        body: JSON.stringify(" +:+ payloadStr +:+ ")" +:+ nl +:+
  "    }).then(response => {" +:+ nl +:+
  "        if (!response.ok) throw new Error('API call failed: ' + response.statusText);"
    +:+ nl +:+
  "        return response.json();" +:+ nl +:+
  "    })".

(** [content.slice(0, start).trimEnd() + '\n' +
    content.slice(end).trimStart()] *)
Definition cut (c : string) (start end_ : Z) : string :=
  Js.trimEnd (Js.slice c 0 start) +:+ nl
  +:+ Js.trimStart (Js.slice_from c end_).

(** The replacement of one call by its fetch call. *)
Definition replace_call (routePath_ : string) (c : string)
    (call : FunctionCall) : string :=
  let argsText :=
    Js.slice c (span_start (call_arguments call))
               (span_end (call_arguments call)) in
  let fetchCall := generateFetchCall routePath_ argsText in
  Js.slice c 0 (call_start call) +:+ fetchCall
  +:+ Js.slice_from c (call_end call).

Section WithCollaborators.
Variable parse : string -> Root + string.
Variable digest : string -> string.
Variable cwd : fspath.
Variable relative_to_src : string -> string.

(** [new ServerFunctionTransformer(content, filename)] *)
Definition new (c : string) (filename_ : option string) : M t :=
  tree <- lift (parse c) ;;
  ret (mk c filename_ tree).

(** Clean up imports that are no longer used after removing server
    functions *)
Definition cleanupUnusedImports (this : t) : M t :=
  try_catch
    (updatedAst <- lift (parse (content_ this)) ;;
     let usedIdentifiers := AstUtils.collectUsedIdentifiers updatedAst in
     let unusedImports :=
       AstUtils.findUnusedImports updatedAst usedIdentifiers in
     ret (fold_left
            (fun this importNode =>
               set_content this
                 (cut (content_ this) (imp_start importNode)
                      (imp_end importNode)))
            (Js.sort (fun a b => imp_start b - imp_start a) unusedImports)
            this))
    (fun errorMessage =>
       u <- Console.warn ("Warning: Error cleaning up imports "
                          +:+ errorMessage) ;;
       ret this).

(** Transform a single server function and its calls *)
Definition transformServerFunction (this : t)
    (serverFunc : ServerFunction) (routePath_ : string) : M t :=
  let calls := AstUtils.findFunctionCalls (ast this) (sf_name serverFunc) in
  let this :=
    fold_left
      (fun this call =>
         set_content this (replace_call routePath_ (content_ this) call))
      (Js.sort (fun a b => call_start b - call_start a) calls)
      this in
  let this :=
    set_content this
      (cut (content_ this) (sf_start serverFunc) (sf_end serverFunc)) in
  cleanupUnusedImports this.

(** Process the file content to transform server functions *)
Definition process (this : t) : M string :=
  let serverFunctions := AstUtils.findServerFunctions (ast this) in
  if Nat.eqb (length serverFunctions) 0 then ret (content_ this)
  else
    this <- fold_each
              (fun this func =>
                 let paths :=
                   PathUtils.generatePaths digest cwd relative_to_src
                     (sf_name func) (filename this) in
                 transformServerFunction this func (routePath paths))
              (Js.sort (fun a b => sf_start b - sf_start a)
                       serverFunctions)
              this ;;
    ret (content_ this).
End WithCollaborators.
End ServerFunctionTransformer.

Section Preprocessor.
Variable parse : string -> Root + string.
Variable digest : string -> string.
Variable cwd : fspath.
Variable relative_to_src : string -> string.

(** Handles file transformation, determining if it needs processing *)
Definition transformFile (content_ : string) (filename : option string)
  : M PreprocessorResult :=
  try_catch
    (if (isSkippableFile filename
         || negb (Js.includes content_ "async function server_"))%bool
     then ret (mkResult content_)
     else
       transformer <- ServerFunctionTransformer.new parse content_ filename ;;
       result <- ServerFunctionTransformer.process parse digest cwd
                   relative_to_src transformer ;;
       ret (mkResult result))
    (fun errorMessage =>
       u <- Console.warn ("Warning: Error processing " +:+ show filename
                          +:+ " " +:+ errorMessage) ;;
       ret (mkResult content_)).

(** The hooks handed to the host. *)
Record Hooks := mkHooks {
  markup : string -> option string -> M PreprocessorResult;
  style : string -> M PreprocessorResult;
  script : string -> option string -> M PreprocessorResult
}.

(** SvelteKit preprocessor that transforms server-side functions into
    API endpoints: the endpoints are cleaned up and created anew at
    startup, then the hooks are returned. *)
Definition serverFunctions : M Hooks :=
  u <- EndpointManager.cleanupEndpoints cwd ;;
  v <- EndpointManager.scanAndCreateEndpoints parse digest cwd
         relative_to_src ;;
  ret (mkHooks (fun c filename => transformFile c filename)
               (fun c => ret (mkResult c))
               (fun c filename => transformFile c filename)).
End Preprocessor.

(** ** Notions the properties are stated with *)

(** [m] is [n] or lies below it. *)
Inductive descendant : Node -> Node -> Prop :=
| desc_self n : descendant n n
| desc_kid n key k m :
    (key, k) ∈ node_kids n -> descendant k m -> descendant n m.

(** [m] is reached from [n] without entering an import declaration. *)
Inductive outside_imports : Node -> Node -> Prop :=
| oi_self n : AstUtils.is_import n = false -> outside_imports n n
| oi_kid n key k m :
    AstUtils.is_import n = false -> (key, k) ∈ node_kids n ->
    outside_imports k m -> outside_imports n m.

(** The calls [enter(node, parent)] made, in order, by a walk whose
    visitor skips the children of the nodes [skips] holds for. *)
Fixpoint visited (skips : Node -> option Node -> bool)
    (node : Node) (parent : option Node) : list (Node * option Node) :=
  (node, parent) ::
  (if skips node parent then []
   else
     (fix visited_kids (ks : list (string * Node))
        : list (Node * option Node) :=
        match ks with
        | [] => []
        | (_, k) :: ks' => visited skips k (Some node) ++ visited_kids ks'
        end) (node_kids node)).

(** The nodes of a tree, in traversal order. *)
Definition all_nodes (root : Node) : list Node :=
  map fst (visited (fun _ _ => false) root None).

(** A visitor that pushes a record for the nodes passing a test and
    never skips. *)
Definition pushing {R : Type} (test : Node -> bool) (record : Node -> R)
    (node : Node) (_ : option Node) (acc : list R) : list R * bool :=
  if test node then (acc ++ [record node], false) else (acc, false).

(** The visitor of [collectUsedIdentifiers] skips at an import
    declaration and below one. *)
Definition collect_skips (node : Node) (parent : option Node) : bool :=
  (AstUtils.is_import node
   || match parent with Some p => AstUtils.is_import p | None => false end)%bool.

Definition not_import (parent : option Node) : Prop :=
  match parent with
  | Some p => AstUtils.is_import p = false
  | None => True
  end.

Definition server_function_of (node : Node) : ServerFunction :=
  mkServerFunction (AstUtils.id_name node) node (node_start node) (node_end node).

Definition import_node_of (node : Node) : ImportNode :=
  mkImportNode (node_start node) (node_end node).

(** Occurrences of [sub] in [s], overlapping ones included. *)
Fixpoint occurrences (s sub : string) : nat :=
  ((if String.prefix sub s then 1 else 0) +
   match s with
   | EmptyString => 0
   | String _ r => occurrences r sub
   end)%nat.

(** [node] is a statement of the instance script itself, not nested in
    another one. *)
Definition top_level (ast : Root) (node : Node) : Prop :=
  exists inst, instance ast = Some inst /\ ("body", node) ∈ node_kids (content inst).

(** [node] occurs in the markup or in the instance script. *)
Definition in_document (ast : Root) (node : Node) : Prop :=
  (exists f, fragment ast = Some f /\ descendant f node)
  \/ (exists inst, instance ast = Some inst /\ descendant (content inst) node).

(** A function declaration that is asynchronous and named [server_...]. *)
Definition tagged (node : Node) (name : string) : Prop :=
  node_type node = "FunctionDeclaration"
  /\ node_async node = true
  /\ exists i, node_field1 "id" node = Some i
               /\ node_name i = Some name
               /\ Js.startsWith name "server_" = true.

(** A computation that ends normally whatever the world. *)
Definition returns {A} (m : M A) : Prop :=
  forall w, exists a w', m w = (Ret a, w').

(** A computation that leaves the file system as it is and performs no
    file-system operation. *)
Definition keeps_files {A} (m : M A) : Prop :=
  forall w, fs (snd (m w)) = fs w /\ trace (snd (m w)) = trace w.

(** [name] is the name of an identifier of the instance script that is
    not part of an import declaration. *)
Definition used_in_script (ast : Root) (name : string) : Prop :=
  exists inst m,
    instance ast = Some inst
    /\ outside_imports (content inst) m
    /\ node_type m = "Identifier"
    /\ default "" (node_name m) = name.

(** [node] is an import declaration of the instance script binding none
    of the names in use there. *)
Definition prunable (ast : Root) (node : Node) : Prop :=
  (exists inst, instance ast = Some inst /\ descendant (content inst) node)
  /\ node_type node = "ImportDeclaration"
  /\ forall specifier,
       specifier ∈ node_field "specifiers" node ->
       ~ used_in_script ast (AstUtils.local_name specifier).

(** The paths written by a sequence of operations. *)
Definition write_paths (ops : list FsOp) : list fspath :=
  omap (fun op => match op with OpWrite p _ => Some p | _ => None end) ops.

(** The paths written between the worlds [w0] and [w]. *)
Definition writes_since (w0 w : World) : list fspath :=
  write_paths (drop (length (trace w0)) (trace w)).

(** What [createEndpoint] leaves on disk and performs, for the rendered
    content [apiContent]: nothing when the directory cannot be made; no
    write when the file is there with that content, or is a directory. *)
Definition emit (m : gmap fspath entry) (p : fspath) (apiContent : string)
  : gmap fspath entry * list FsOp :=
  match Fs.mkdir_p [] (Fs.dirname p) m with
  | None => (m, [])
  | Some m' =>
      match Fs.lookup_entry m' p with
      | Some Dir => (m', [OpMkdir (Fs.dirname p)])
      | Some (File existing) =>
          if String.eqb existing apiContent
          then (m', [OpMkdir (Fs.dirname p)])
          else (<[p := File apiContent]> m',
                [OpMkdir (Fs.dirname p); OpWrite p apiContent])
      | None =>
          (<[p := File apiContent]> m',
           [OpMkdir (Fs.dirname p); OpWrite p apiContent])
      end
  end.

(** The content [createEndpoint] renders for a function. *)
Definition rendered (details : FunctionDetails) (serverFunc : ServerFunction)
  : string :=
  EndpointManager.generateApiContent (functionDefinition details)
    (sf_name serverFunc) (imports details).

(** The two maps hold the same files with the same contents. *)
Definition same_files (m0 m : gmap fspath entry) : Prop :=
  forall q d, m !! q = Some (File d) <-> m0 !! q = Some (File d).

Section Jobs.
Variable parse : string -> Root + string.
Variable digest : string -> string.
Variable cwd : fspath.
Variable relative_to_src : string -> string.

(** The endpoint files [processFile] emits for the file at [q]: the
    path and the rendered content of each. *)
Definition jobs (m : gmap fspath entry) (q : fspath)
  : list (fspath * string) :=
  match Fs.lookup_entry m q with
  | Some (File c) =>
      if Js.includes c "async function server_"
      then match parse c with
           | inl tree =>
               omap (fun func =>
                       match AstUtils.extractFunctionDetails parse c func with
                       | inl details =>
                           Some (apiPath (PathUtils.generatePaths digest cwd
                                            relative_to_src (sf_name func)
                                            (Some (Fs.render q))),
                                 rendered details func)
                       | inr _ => None
                       end)
                    (AstUtils.findServerFunctions tree)
           | inr _ => []
           end
      else []
  | _ => []
  end.

(** The files [scanAndCreateEndpoints] hands to [processFile]. *)
Definition documents (w : World) : list fspath :=
  match Fs.readdirSync_recursive (EndpointManager.srcDir cwd) w with
  | (Ret files, _) =>
      map (fun file => EndpointManager.srcDir cwd ++ file)
          (List.filter (fun file => Js.endsWith (Js.join "/" file) ".svelte")
                       files)
  | _ => []
  end.

(** Every endpoint file of the project is on disk with the content that
    would be rendered for it. *)
Definition endpoints_in_place (w : World) : Prop :=
  forall q, q ∈ documents w ->
    Forall (fun job => fs w !! fst job = Some (File (snd job)))
           (jobs (fs w) q).
End Jobs.

(** The state update of the visitor of [collectUsedIdentifiers]. *)
Definition collect_step (node : Node) (parent : option Node)
    (identifiers : list string) : list string :=
  if collect_skips node parent then identifiers
  else if String.eqb (node_type node) "Identifier"
       then AstUtils.add_name (default "" (node_name node)) identifiers
       else identifiers.

(** [p] is none of the directories [mkdir_p pre rest] makes. *)
Definition apart (pre rest p : fspath) : Prop :=
  forall r, r <> [] -> r `prefix_of` rest -> p <> pre ++ r.

(** A computation that ends normally, writes no file and keeps the files
    of [m0], whenever it starts from a world holding the files of [m0]. *)
Definition silent (m0 : gmap fspath entry) (c : M unit) : Prop :=
  forall w, same_files m0 (fs w) ->
    exists w' ops,
      c w = (Ret tt, w') /\ same_files m0 (fs w')
      /\ trace w' = trace w ++ ops /\ write_paths ops = [].

(** [s.length] *)
Definition zlen (s : string) : Z := Z.of_nat (String.length s).

(** A visitor that adds a text to a set for the nodes passing a test and
    never skips. *)
Definition adding (test : Node -> bool) (text : Node -> string)
    (node : Node) (_ : option Node) (acc : list string)
  : list string * bool :=
  if test node then (AstUtils.add_name (text node) acc, false)
  else (acc, false).

(** The nodes of the markup, then those of the instance script. *)
Definition document_nodes (ast : Root) : list Node :=
  match fragment ast with Some f => all_nodes f | None => [] end
  ++ match instance ast with
     | Some inst => all_nodes (content inst)
     | None => []
     end.

(** The call lies in the text and its argument list inside the call. *)
Definition call_within (c : string) (call : FunctionCall) : Prop :=
  0 <= call_start call
  /\ call_start call <= span_start (call_arguments call)
  /\ span_start (call_arguments call) <= span_end (call_arguments call)
  /\ span_end (call_arguments call) <= call_end call
  /\ call_end call <= zlen c.

(** The span of a call replaced by the fetch call of an argument text. *)
Definition splice (routePath_ argsText acc : string) (call : FunctionCall)
  : string :=
  Js.slice acc 0 (call_start call)
  +:+ ServerFunctionTransformer.generateFetchCall routePath_ argsText
  +:+ Js.slice_from acc (call_end call).

(** Whatever its outcome, the computation extends the trace by operations
    that satisfy [P] and takes the entries of the world to ones related
    to them by [R]. *)
Definition bounded {A : Type} (P : FsOp -> Prop)
    (R : gmap fspath entry -> gmap fspath entry -> Prop) (m : M A) : Prop :=
  forall w, exists ops,
    trace (snd (m w)) = trace w ++ ops /\ Forall P ops
    /\ R (fs w) (fs (snd (m w))).

(** The files outside [inside] are the same, with the same contents. *)
Definition files_kept_outside (inside : fspath -> Prop)
    (m0 m : gmap fspath entry) : Prop :=
  forall q d, ~ inside q ->
    (m !! q = Some (File d) <-> m0 !! q = Some (File d)).

(** Making the directory of an endpoint or writing its file. *)
Definition endpoint_op (cwd : fspath) (op : FsOp) : Prop :=
  exists u,
    Js.startsWith u "server_" = true
    /\ (op = OpMkdir (EndpointManager.apiDir cwd ++ [u])
        \/ exists data,
             op = OpWrite (EndpointManager.apiDir cwd ++ [u; "+server.ts"])
                          data).

(** Removing the directory of an endpoint. *)
Definition removal_op (cwd : fspath) (op : FsOp) : Prop :=
  exists name,
    Js.startsWith name "server_" = true
    /\ op = OpRm (EndpointManager.apiDir cwd ++ [name]).

(** [m] holds nothing that [m0] does not hold, and holds what [m0] holds
    wherever the path is not that of an entry [server_...] of the API
    directory or below one. *)
Definition shrunk (cwd : fspath) (m0 m : gmap fspath entry) : Prop :=
  (forall q e, m !! q = Some e -> m0 !! q = Some e)
  /\ forall q,
       (forall name rest, Js.startsWith name "server_" = true ->
                          q <> EndpointManager.apiDir cwd ++ name :: rest) ->
       m !! q = m0 !! q.

(** The endpoint file at [p] has its directory, and the API directory,
    on disk. *)
Definition housed (cwd : fspath) (m : gmap fspath entry) (p : fspath) : Prop :=
  exists u,
    Js.startsWith u "server_" = true
    /\ p = EndpointManager.apiDir cwd ++ [u; "+server.ts"]
    /\ m !! EndpointManager.apiDir cwd = Some Dir
    /\ m !! (EndpointManager.apiDir cwd ++ [u]) = Some Dir.

(** Directories stay directories. *)
Definition dirs_kept (m0 m : gmap fspath entry) : Prop :=
  forall q, m0 !! q = Some Dir -> m !! q = Some Dir.

(** Whatever its outcome, the computation keeps the directories, and
    every file it writes is housed in the world it leaves. *)
Definition settled {A : Type} (cwd : fspath) (m : M A) : Prop :=
  forall w, exists ops,
    trace (snd (m w)) = trace w ++ ops
    /\ dirs_kept (fs w) (fs (snd (m w)))
    /\ Forall (housed cwd (fs (snd (m w)))) (write_paths ops).

(** The code units of a string. *)
Definition chars (s : string) : list ascii := list_ascii_of_string s.

(** A string of white space only. *)
Definition all_space (s : string) : bool := forallb Js.is_space (chars s).

(** The first and the last code unit are not white space. *)
Definition starts_with_space (s : string) : bool :=
  match s with
  | EmptyString => false
  | String c _ => Js.is_space c
  end.

Definition ends_with_space (s : string) : bool :=
  match last (chars s) with
  | Some c => Js.is_space c
  | None => false
  end.

(** How many times the code unit [c] occurs in [s]. *)
Fixpoint count_char (c : ascii) (s : string) : nat :=
  match s with
  | EmptyString => O
  | String x r => ((if Ascii.eqb x c then 1 else 0) + count_char c r)%nat
  end.

(** ** Documents and their trees, for the closed examples

    [parse] is outside the repository, so a closed example fixes a
    document and gives [parse] as a table holding the tree of each text
    that comes up and parses; any other text is a parse error. A node is
    placed by searching the document for its source text. *)

Module Fixture.

Definition tab : string := String (ascii_of_nat 9) EmptyString.

Definition len (s : string) : Z := Z.of_nat (String.length s).

(** Offset of the first occurrence of [text] in [doc] at or after
    [from]. *)
Definition find_in (doc : string) (from : Z) (text : string) : Z :=
  match String.index (Z.to_nat from) text doc with
  | Some n => Z.of_nat n
  | None => -1
  end.

(** The node of type [type] whose source is the first occurrence of
    [text] at or after [from]. *)
Definition nd (doc type : string) (from : Z) (text : string)
    (kids : list (string * Node)) : Node :=
  let s := find_in doc from text in
  mkNode type s (s + len text) false None kids.

Definition ident (doc : string) (from : Z) (name : string) : Node :=
  let s := find_in doc from name in
  mkNode "Identifier" s (s + len name) false (Some name) [].

Definition fn (doc : string) (is_async : bool) (from : Z) (text : string)
    (kids : list (string * Node)) : Node :=
  let s := find_in doc from text in
  mkNode "FunctionDeclaration" s (s + len text) is_async None kids.

(** [import { name } from source;] *)
Definition import_text (name source : string) : string :=
  "import { " +:+ name +:+ " } from " +:+ source +:+ ";".

Definition import_of (doc : string) (name source : string) : Node :=
  let s := find_in doc 0 (import_text name source) in
  nd doc "ImportDeclaration" 0 (import_text name source)
     [("specifiers",
       nd doc "ImportSpecifier" s name
          [("imported", ident doc s name); ("local", ident doc s name)]);
      ("source", nd doc "Literal" s source [])].

Definition empty_fragment : Node := mkNode "Fragment" 0 0 false None [].

Definition root_of (frag : Node) (doc inner : string)
    (body : list Node) : Root :=
  mkRoot (Some frag)
         (Some (mkScript (nd doc "Program" 0 inner
                             (map (fun n => ("body", n)) body)))).

Definition parse_table (table : list (string * Root)) (s : string)
  : Root + string :=
  match List.find (fun e => String.eqb (fst e) s) table with
  | Some e => inl (snd e)
  | None => inr "Unexpected token"
  end.

(** The project lives in [/app]; documents are named below [/app/src]. *)
Definition cwd : fspath := ["app"].
Definition relative_to_src (f : string) : string :=
  Js.slice_from f (len "/app/src/").
Definition page : option string := Some "/app/src/routes/+page.svelte".

Definition world0 : World := mkWorld ∅ [] [].

(** *** A call that precedes the declaration it calls *)

Definition loadFn : string :=
  "async function load() { return await server_get(); }".
Definition getFn : string := "async function server_get() { return 1 }".

Definition docStale : string :=
  "<script>" +:+ nl +:+
  tab +:+ loadFn +:+ nl +:+
  tab +:+ getFn +:+ nl +:+
  "</script>".

(** The call [server_get()] inside [load]. *)
Definition getCall : Node :=
  let d := docStale in
  let p1 := find_in d 0 loadFn in
  nd d "CallExpression" p1 "server_get()"
     [("callee", ident d p1 "server_get")].

Definition astStale : Root :=
  let d := docStale in
  let p1 := find_in d 0 loadFn in
  let p2 := find_in d 0 getFn in
  root_of empty_fragment d (nl +:+ tab +:+ loadFn +:+ nl +:+ tab +:+ getFn +:+ nl)
    [fn d true 0 loadFn
       [("id", ident d p1 "load");
        ("body",
         nd d "BlockStatement" p1 "{ return await server_get(); }"
            [("body",
              nd d "ReturnStatement" p1 "return await server_get();"
                 [("argument",
                   nd d "AwaitExpression" p1 "await server_get()"
                      [("argument", getCall)])])])];
     fn d true p2 getFn
       [("id", ident d p2 "server_get");
        ("body",
         nd d "BlockStatement" p2 "{ return 1 }"
            [("body",
              nd d "ReturnStatement" p2 "return 1"
                 [("argument", nd d "Literal" p2 "1" [])])])]].

Definition parseStale : string -> Root + string :=
  parse_table [(docStale, astStale)].

(** What the transform returns for [docStale]: the span of the
    declaration was cut out of the text of the fetch call. *)
Definition outStale : string :=
  "<script>" +:+ nl +:+
  tab +:+ "async function load() { return await fetch('/api/serve" +:+ nl +:+
  "'," +:+ nl +:+
  "        headers: { 'Content-Type': 'application/json' }," +:+ nl +:+
  "        body: JSON.stringify({})" +:+ nl +:+
  "    }).then(response => {" +:+ nl +:+
  "        if (!response.ok) throw new Error('API call failed: ' + response.statusText);" +:+ nl +:+
  "        return response.json();" +:+ nl +:+
  "    }); }" +:+ nl +:+
  tab +:+ getFn +:+ nl +:+
  "</script>".

(** *** A call nested in the arguments of another call *)

Definition incFn : string := "async function server_inc(n) { return n + 1 }".
Definition twiceFn : string :=
  "async function twice() { return await server_inc(await server_inc(1)); }".

Definition docNested : string :=
  "<script>" +:+ nl +:+
  tab +:+ incFn +:+ nl +:+
  tab +:+ twiceFn +:+ nl +:+
  "</script>".

Definition astNested : Root :=
  let d := docNested in
  let p1 := find_in d 0 incFn in
  let p2 := find_in d 0 twiceFn in
  let sum := find_in d p1 "n + 1" in
  let outer := find_in d p2 "server_inc(await server_inc(1))" in
  let inner := find_in d p2 "server_inc(1)" in
  root_of empty_fragment d (nl +:+ tab +:+ incFn +:+ nl +:+ tab +:+ twiceFn +:+ nl)
    [fn d true 0 incFn
       [("id", ident d p1 "server_inc");
        ("params", ident d p1 "n");
        ("body",
         nd d "BlockStatement" p1 "{ return n + 1 }"
            [("body",
              nd d "ReturnStatement" p1 "return n + 1"
                 [("argument",
                   nd d "BinaryExpression" sum "n + 1"
                      [("left", ident d sum "n");
                       ("right", nd d "Literal" sum "1" [])])])])];
     fn d true p2 twiceFn
       [("id", ident d p2 "twice");
        ("body",
         nd d "BlockStatement" p2
            "{ return await server_inc(await server_inc(1)); }"
            [("body",
              nd d "ReturnStatement" p2
                 "return await server_inc(await server_inc(1));"
                 [("argument",
                   nd d "AwaitExpression" p2
                      "await server_inc(await server_inc(1))"
                      [("argument",
                        nd d "CallExpression" outer
                           "server_inc(await server_inc(1))"
                           [("callee", ident d outer "server_inc");
                            ("arguments",
                             nd d "AwaitExpression" outer
                                "await server_inc(1)"
                                [("argument",
                                  nd d "CallExpression" inner
                                     "server_inc(1)"
                                     [("callee", ident d inner "server_inc");
                                      ("arguments",
                                       nd d "Literal" inner "1" [])])])])])])])]].

Definition parseNested : string -> Root + string :=
  parse_table [(docNested, astNested)].

(** *** Two server functions and an import only one of them uses *)

Definition aFn : string := "async function server_a() { return 1 }".
Definition bFn : string := "async function server_b() { return db.b() }".
Definition dbImport : string := import_text "db" "'./db'".

Definition docTwo : string :=
  "<script>" +:+ nl +:+
  tab +:+ dbImport +:+ nl +:+
  tab +:+ aFn +:+ nl +:+
  tab +:+ bFn +:+ nl +:+
  "</script>".

(** [docTwo] once [server_b] is removed. *)
Definition docTwoMid : string :=
  "<script>" +:+ nl +:+
  tab +:+ dbImport +:+ nl +:+
  tab +:+ aFn +:+ nl +:+
  "</script>".

Definition aNode (d : string) : Node :=
  let p := find_in d 0 aFn in
  fn d true 0 aFn
     [("id", ident d p "server_a");
      ("body",
       nd d "BlockStatement" p "{ return 1 }"
          [("body",
            nd d "ReturnStatement" p "return 1"
               [("argument", nd d "Literal" p "1" [])])])].

Definition bNode (d : string) : Node :=
  let p := find_in d 0 bFn in
  fn d true 0 bFn
     [("id", ident d p "server_b");
      ("body",
       nd d "BlockStatement" p "{ return db.b() }"
          [("body",
            nd d "ReturnStatement" p "return db.b()"
               [("argument",
                 nd d "CallExpression" p "db.b()"
                    [("callee",
                      nd d "MemberExpression" p "db.b"
                         [("object", ident d p "db");
                          ("property",
                           ident d (find_in d p "db.b" + 3) "b")])])])])].

Definition astTwo : Root :=
  let d := docTwo in
  root_of empty_fragment d
    (nl +:+ tab +:+ dbImport +:+ nl +:+ tab +:+ aFn +:+ nl +:+ tab +:+ bFn +:+ nl)
    [import_of d "db" "'./db'"; aNode d; bNode d].

Definition astTwoMid : Root :=
  let d := docTwoMid in
  root_of empty_fragment d
    (nl +:+ tab +:+ dbImport +:+ nl +:+ tab +:+ aFn +:+ nl)
    [import_of d "db" "'./db'"; aNode d].

Definition parseTwo : string -> Root + string :=
  parse_table [(docTwo, astTwo); (docTwoMid, astTwoMid)].

(** The buffer once [server_b] and the import of [db] are gone. *)
Definition docTwoPruned : string :=
  "<script>" +:+ nl +:+ aFn +:+ nl +:+ "</script>".

(** What the transform returns for [docTwo]. *)
Definition outTwo : string :=
  "<script>" +:+ nl +:+ "async function server_a() { r" +:+ nl.

Definition spans (fs_ : list ServerFunction) : list (string * Z * Z) :=
  map (fun f => (sf_name f, sf_start f, sf_end f)) fs_.

(** *** Two server functions, an import and a statement between them *)

Definition libImport : string := import_text "db" "'./lib/server/db'".
Definition letStmt : string := "let greeting = 'hello from the page!';".

Definition docLet : string :=
  "<script>" +:+ nl +:+
  tab +:+ libImport +:+ nl +:+
  tab +:+ aFn +:+ nl +:+
  tab +:+ letStmt +:+ nl +:+
  tab +:+ bFn +:+ nl +:+
  "</script>".

(** [docLet] once [server_b] is removed. *)
Definition docLetMid : string :=
  "<script>" +:+ nl +:+
  tab +:+ libImport +:+ nl +:+
  tab +:+ aFn +:+ nl +:+
  tab +:+ letStmt +:+ nl +:+
  "</script>".

(** The buffer once the import of [db] is gone as well. *)
Definition docLetPruned : string :=
  "<script>" +:+ nl +:+
  aFn +:+ nl +:+
  tab +:+ letStmt +:+ nl +:+
  "</script>".

(** What the transform returns for [docLet]. *)
Definition outLet : string :=
  "<script>" +:+ nl +:+ aFn +:+ nl +:+ "</script>".

(** What the transform returns for [outLet]. *)
Definition outLetAgain : string := "<script>" +:+ nl +:+ "</script>".

Definition letNode (d : string) : Node :=
  let p := find_in d 0 letStmt in
  nd d "VariableDeclaration" 0 letStmt
     [("declarations",
       nd d "VariableDeclarator" p "greeting = 'hello from the page!'"
          [("id", ident d p "greeting");
           ("init", nd d "Literal" p "'hello from the page!'" [])])].

Definition astLet : Root :=
  let d := docLet in
  root_of empty_fragment d
    (Js.slice d 8 (find_in d 0 "</script>"))
    [import_of d "db" "'./lib/server/db'"; aNode d; letNode d; bNode d].

Definition astLetMid : Root :=
  let d := docLetMid in
  root_of empty_fragment d
    (Js.slice d 8 (find_in d 0 "</script>"))
    [import_of d "db" "'./lib/server/db'"; aNode d; letNode d].

Definition astOutLet : Root :=
  let d := outLet in
  root_of empty_fragment d
    (Js.slice d 8 (find_in d 0 "</script>"))
    [aNode d].

Definition astOutLetAgain : Root :=
  let d := outLetAgain in
  root_of empty_fragment d (Js.slice d 8 (find_in d 0 "</script>")) [].

Definition parseLet : string -> Root + string :=
  parse_table [(docLet, astLet); (docLetMid, astLetMid);
               (outLet, astOutLet); (outLetAgain, astOutLetAgain)].

(** *** An import used by the markup only *)

Definition nowFn : string := "async function server_now() { return db.now() }".
Definition markupP : string := "<p>{fmt(2)}</p>".

Definition docImports : string :=
  "<script>" +:+ nl +:+
  tab +:+ import_text "db" "'./db'" +:+ nl +:+
  tab +:+ import_text "fmt" "'./fmt'" +:+ nl +:+
  tab +:+ import_text "log" "'./log'" +:+ nl +:+
  tab +:+ nowFn +:+ nl +:+
  tab +:+ "log('x');" +:+ nl +:+
  "</script>" +:+ nl +:+
  markupP.

(** [docImports] once [server_now] is removed. *)
Definition docImportsMid : string :=
  "<script>" +:+ nl +:+
  tab +:+ import_text "db" "'./db'" +:+ nl +:+
  tab +:+ import_text "fmt" "'./fmt'" +:+ nl +:+
  tab +:+ import_text "log" "'./log'" +:+ nl +:+
  "log('x');" +:+ nl +:+
  "</script>" +:+ nl +:+
  markupP.

Definition markupOf (d : string) : Node :=
  let p := find_in d 0 markupP in
  mkNode "Fragment" 0 0 false None
    [("nodes", nd d "Text" (find_in d 0 "</script>" + 9) nl []);
     ("nodes",
      mkNode "RegularElement" p (p + len markupP) false (Some "p")
        [("fragment",
          mkNode "Fragment" 0 0 false None
            [("nodes",
              nd d "ExpressionTag" p "{fmt(2)}"
                 [("expression",
                   nd d "CallExpression" p "fmt(2)"
                      [("callee", ident d p "fmt");
                       ("arguments", nd d "Literal" p "2" [])])])])])].

Definition logStmt (d : string) : Node :=
  let p := find_in d 0 "log('x');" in
  nd d "ExpressionStatement" 0 "log('x');"
     [("expression",
       nd d "CallExpression" p "log('x')"
          [("callee", ident d p "log");
           ("arguments", nd d "Literal" p "'x'" [])])].

Definition nowNode (d : string) : Node :=
  let p := find_in d 0 nowFn in
  fn d true 0 nowFn
     [("id", ident d p "server_now");
      ("body",
       nd d "BlockStatement" p "{ return db.now() }"
          [("body",
            nd d "ReturnStatement" p "return db.now()"
               [("argument",
                 nd d "CallExpression" p "db.now()"
                    [("callee",
                      nd d "MemberExpression" p "db.now"
                         [("object", ident d p "db");
                          ("property",
                           ident d (find_in d p "db.now" + 3) "now")])])])])].

Definition astImports : Root :=
  let d := docImports in
  root_of (markupOf d) d
    (Js.slice d 8 (find_in d 0 "</script>"))
    [import_of d "db" "'./db'"; import_of d "fmt" "'./fmt'";
     import_of d "log" "'./log'"; nowNode d; logStmt d].

Definition astImportsMid : Root :=
  let d := docImportsMid in
  root_of (markupOf d) d
    (Js.slice d 8 (find_in d 0 "</script>"))
    [import_of d "db" "'./db'"; import_of d "fmt" "'./fmt'";
     import_of d "log" "'./log'"; logStmt d].

Definition parseImports : string -> Root + string :=
  parse_table [(docImports, astImports); (docImportsMid, astImportsMid)].

(** *** A server function declared inside another function *)

Definition pingFn : string := "async function server_ping() { return 1 }".
Definition setupFn : string :=
  "function setup() { " +:+ pingFn +:+ " return server_ping; }".

Definition docInner : string :=
  "<script>" +:+ nl +:+ tab +:+ setupFn +:+ nl +:+ "</script>".

Definition pingNode : Node :=
  let d := docInner in
  let p := find_in d 0 pingFn in
  fn d true 0 pingFn
     [("id", ident d p "server_ping");
      ("body",
       nd d "BlockStatement" p "{ return 1 }"
          [("body",
            nd d "ReturnStatement" p "return 1"
               [("argument", nd d "Literal" p "1" [])])])].

Definition astInner : Root :=
  let d := docInner in
  let q := find_in d 0 "return server_ping;" in
  root_of empty_fragment d (nl +:+ tab +:+ setupFn +:+ nl)
    [fn d false 0 setupFn
       [("id", ident d 0 "setup");
        ("body",
         nd d "BlockStatement" 0
            ("{ " +:+ pingFn +:+ " return server_ping; }")
            [("body", pingNode);
             ("body",
              nd d "ReturnStatement" q "return server_ping;"
                 [("argument", ident d q "server_ping")])])]].

(** *** A document that mentions the marker but declares no server
    function *)

Definition docPlain : string :=
  "<script>" +:+ nl +:+
  tab +:+ "let hint = 'async function server_';" +:+ nl +:+
  "</script>".

Definition astPlain : Root :=
  let d := docPlain in
  root_of empty_fragment d
    (nl +:+ tab +:+ "let hint = 'async function server_';" +:+ nl)
    [nd d "VariableDeclaration" 0 "let hint = 'async function server_';"
        [("declarations",
          nd d "VariableDeclarator" 0 "hint = 'async function server_'"
             [("id", ident d 0 "hint");
              ("init", nd d "Literal" 0 "'async function server_'" [])])]].

Definition parsePlain : string -> Root + string :=
  parse_table [(docPlain, astPlain)].

(** *** One server function, in a project on disk *)

Definition addFn : string :=
  "async function server_add(a, b) { return a + b }".

Definition docAdd : string :=
  "<script>" +:+ nl +:+ tab +:+ addFn +:+ nl +:+ "</script>".

(** The declaration of [server_add]. *)
Definition astAdd_fn : Node :=
  let d := docAdd in
  let p := find_in d 0 addFn in
  let sum := find_in d p "a + b" in
  fn d true 0 addFn
     [("id", ident d p "server_add");
      ("params", ident d (find_in d p "(a, b)") "a");
      ("params", ident d (find_in d p "(a, b)") "b");
      ("body",
       nd d "BlockStatement" p "{ return a + b }"
          [("body",
            nd d "ReturnStatement" p "return a + b"
               [("argument",
                 nd d "BinaryExpression" sum "a + b"
                    [("left", ident d sum "a");
                     ("right", ident d sum "b")])])])].

Definition astAdd : Root :=
  root_of empty_fragment docAdd (nl +:+ tab +:+ addFn +:+ nl) [astAdd_fn].

Definition parseAdd : string -> Root + string :=
  parse_table [(docAdd, astAdd)].

Definition project : World :=
  mkWorld
    (<[ ["app"; "src"; "routes"; "+page.svelte"] := File docAdd ]>
     (<[ ["app"; "src"; "routes"] := Dir ]>
      (<[ ["app"; "src"] := Dir ]>
       (<[ ["app"] := Dir ]> ∅))))
    [] [].

Definition pagePath : fspath := ["app"; "src"; "routes"; "+page.svelte"].

(** The endpoint file of [server_add]. *)
Definition addEndpoint : fspath :=
  ["app"; "src"; "routes"; "api"; "server_add_RCLzz6g7"; "+server.ts"].

(** *** One server function called from the markup *)

Definition sumCall : string := "server_add(1, 2)".
Definition sumP : string := "<p>{" +:+ sumCall +:+ "}</p>".

Definition docSum : string := docAdd +:+ nl +:+ sumP.

Definition astSum : Root :=
  let d := docSum in
  let p := find_in d 0 sumP in
  mkRoot
    (Some
       (mkNode "Fragment" 0 0 false None
          [("nodes", nd d "Text" (find_in d 0 "</script>" + 9) nl []);
           ("nodes",
            mkNode "RegularElement" p (p + len sumP) false (Some "p")
              [("fragment",
                mkNode "Fragment" 0 0 false None
                  [("nodes",
                    nd d "ExpressionTag" p ("{" +:+ sumCall +:+ "}")
                       [("expression",
                         nd d "CallExpression" p sumCall
                            [("callee", ident d p "server_add");
                             ("arguments", nd d "Literal" p "1" []);
                             ("arguments", nd d "Literal" p "2" [])])])])])]))
    (instance astAdd).

(** The fetch call that takes the place of [sumCall]. *)
Definition sumFetch : string :=
  ServerFunctionTransformer.generateFetchCall "server_add_RCLzz6g7" "1, 2".

(** What the transform returns for [docSum]. *)
Definition outSum : string :=
  "<script>" +:+ nl +:+ "</script>" +:+ nl +:+ "<p>{" +:+ sumFetch +:+ "}</p>".

(** [obj.prop] *)
Definition member (d : string) (from : Z) (obj prop : string) : Node :=
  let s := find_in d from (obj +:+ "." +:+ prop) in
  nd d "MemberExpression" from (obj +:+ "." +:+ prop)
     [("object", ident d s obj); ("property", ident d (s + len obj) prop)].

(** [key: value] of an object literal. *)
Definition property (d : string) (from : Z) (key value : Node) : Node :=
  mkNode "Property" (node_start key) (node_end value) false None
         [("key", key); ("value", value)].

Definition astSumOut : Root :=
  let d := outSum in
  let f := find_in d 0 sumFetch in
  let dot := find_in d f ".then" in
  let options := find_in d f "{" in
  let contentType := find_in d f "'Content-Type'" in
  let payload := find_in d f ("{" +:+ dquote) in
  let arrow := find_in d f "response =>" in
  let block := find_in d arrow "{" in
  let test := find_in d f "if (" in
  let throws := find_in d f "throw" in
  let returns := find_in d f "return response.json();" in
  let stringify :=
    "JSON.stringify({" +:+ dquote +:+ "0" +:+ dquote +:+ ": 1,"
    +:+ dquote +:+ "1" +:+ dquote +:+ ": 2})" in
  let keyed (k v : string) :=
    property d payload
      (nd d "Literal" payload (dquote +:+ k +:+ dquote) [])
      (nd d "Literal" (find_in d payload (dquote +:+ k +:+ dquote) + 4) v []) in
  mkRoot
    (Some
       (mkNode "Fragment" 0 0 false None
          [("nodes", nd d "Text" (find_in d 0 "</script>" + 9) nl []);
           ("nodes",
            mkNode "RegularElement" (f - 4) (f + len sumFetch + 5) false
              (Some "p")
              [("fragment",
                mkNode "Fragment" 0 0 false None
                  [("nodes",
                    mkNode "ExpressionTag" (f - 1) (f + len sumFetch + 1)
                      false None
                      [("expression",
                        nd d "CallExpression" f sumFetch
                           [("callee",
                             mkNode "MemberExpression" f (dot + 5) false None
                               [("object",
                                 mkNode "CallExpression" f dot false None
                                   [("callee", ident d f "fetch");
                                    ("arguments",
                                     nd d "Literal" f
                                        "'/api/server_add_RCLzz6g7'" []);
                                    ("arguments",
                                     mkNode "ObjectExpression" options
                                       (dot - 1) false None
                                       [("properties",
                                         property d f (ident d f "method")
                                           (nd d "Literal" f "'POST'" []));
                                        ("properties",
                                         property d f (ident d f "headers")
                                           (nd d "ObjectExpression" f
                                              "{ 'Content-Type': 'application/json' }"
                                              [("properties",
                                                property d f
                                                  (nd d "Literal" f
                                                      "'Content-Type'" [])
                                                  (nd d "Literal" f
                                                      "'application/json'"
                                                      []))]));
                                        ("properties",
                                         property d f (ident d f "body")
                                           (nd d "CallExpression" f stringify
                                              [("callee",
                                                member d f "JSON" "stringify");
                                               ("arguments",
                                                mkNode "ObjectExpression"
                                                  payload
                                                  (find_in d payload "}" + 1)
                                                  false None
                                                  [("properties",
                                                    keyed "0" "1");
                                                   ("properties",
                                                    keyed "1" "2")])]))])]);
                                ("property", ident d dot "then")]);
                            ("arguments",
                             mkNode "ArrowFunctionExpression" arrow
                               (f + len sumFetch - 1) false None
                               [("params", ident d arrow "response");
                                ("body",
                                 mkNode "BlockStatement" block
                                   (f + len sumFetch - 1) false None
                                   [("body",
                                     nd d "IfStatement" test
                                        "if (!response.ok) throw new Error('API call failed: ' + response.statusText);"
                                        [("test",
                                          nd d "UnaryExpression" test
                                             "!response.ok"
                                             [("argument",
                                               member d test "response" "ok")]);
                                         ("consequent",
                                          nd d "ThrowStatement" throws
                                             "throw new Error('API call failed: ' + response.statusText);"
                                             [("argument",
                                               nd d "NewExpression" throws
                                                  "new Error('API call failed: ' + response.statusText)"
                                                  [("callee",
                                                    ident d throws "Error");
                                                   ("arguments",
                                                    nd d "BinaryExpression"
                                                       throws
                                                       "'API call failed: ' + response.statusText"
                                                       [("left",
                                                         nd d "Literal" throws
                                                            "'API call failed: '"
                                                            []);
                                                        ("right",
                                                         member d throws
                                                           "response"
                                                           "statusText")])])])]);
                                    ("body",
                                     nd d "ReturnStatement" returns
                                        "return response.json();"
                                        [("argument",
                                          nd d "CallExpression" returns
                                             "response.json()"
                                             [("callee",
                                               member d returns "response"
                                                 "json")])])])])])])])])]))
    (Some (mkScript (nd d "Program" 0 nl []))).

Definition parseSum : string -> Root + string :=
  parse_table [(docSum, astSum); (outSum, astSumOut)].

(** Every node lies inside the document and inside its parent, and an
    identifier spans its name; fragments carry no span. *)
Fixpoint well_placed (d : string) (lo hi : Z) (n : Node) : bool :=
  let inner :=
    (fix go (lo hi : Z) (ks : list (string * Node)) : bool :=
       match ks with
       | [] => true
       | (_, k) :: ks' => (well_placed d lo hi k && go lo hi ks')%bool
       end) in
  if String.eqb (node_type n) "Fragment" then inner lo hi (node_kids n)
  else ((lo <=? node_start n) && (node_start n <=? node_end n)
        && (node_end n <=? hi)
        && (if String.eqb (node_type n) "Identifier"
            then String.eqb (Js.slice d (node_start n) (node_end n))
                            (default "" (node_name n))
            else true)
        && inner (node_start n) (node_end n) (node_kids n))%bool.

Definition tree_well_placed (d : string) (ast : Root) : bool :=
  (match fragment ast with
   | Some f => well_placed d 0 (len d) f
   | None => true
   end
   && match instance ast with
      | Some inst => well_placed d 0 (len d) (content inst)
      | None => true
      end)%bool.

(** The startup of the preprocessor on a world, and the world it
    leaves. *)
Definition sweep (w : World) : World :=
  snd (serverFunctions parseAdd Sha256.sha256_base64url cwd relative_to_src w).

(** The world a scan leaves. *)
Definition scan (w : World) : World :=
  snd (EndpointManager.scanAndCreateEndpoints parseAdd
         Sha256.sha256_base64url cwd relative_to_src w).

End Fixture.

(** * Properties *)

(** Finds a node below another among concrete trees. *)
Ltac pick_kid := (left; reflexivity) + (right; pick_kid).
Ltac descend :=
  apply desc_self
  + (eapply desc_kid; [apply list_elem_of_In; cbn; pick_kid|]; descend).

(** ** The traversal *)

(** Induction over a node with the hypothesis for each child. *)
Lemma Node_ind' (P : Node -> Prop)
    (step : forall ty s e a nm kids,
        Forall (fun kv => P (snd kv)) kids -> P (mkNode ty s e a nm kids)) :
  forall n, P n.
Proof.
  fix IH 1. intros [ty s e a nm kids]. apply step.
  induction kids as [|[key k] kids IHkids]; constructor.
  - apply IH.
  - apply IHkids.
Qed.

Section Visited.
Variable skips : Node -> option Node -> bool.

Lemma visited_unfold node parent :
  visited skips node parent =
  (node, parent) ::
  (if skips node parent then []
   else flat_map (fun kv => visited skips (snd kv) (Some node))
                 (node_kids node)).
Proof.
  destruct node as [ty s e a nm kids]; simpl.
  destruct (skips _ _); [reflexivity|]. f_equal.
  generalize (Some (mkNode ty s e a nm kids)) as me.
  induction kids as [|[key k] kids IH]; intros me; simpl; [reflexivity|].
  now rewrite IH.
Qed.

Context {S : Type}.
Variable step : Node -> option Node -> S -> S.
Variable enter : Node -> option Node -> S -> S * bool.
Hypothesis enter_spec :
  forall node parent s,
    enter node parent s = (step node parent s, skips node parent).

Lemma visit_fold node : forall parent s,
  visit enter node parent s =
  fold_left (fun s np => step (fst np) (snd np) s)
            (visited skips node parent) s.
Proof.
  induction node as [ty st e a nm kids IH] using Node_ind'.
  intros parent s. rewrite visited_unfold. simpl. rewrite enter_spec.
  destruct (skips _ _); [reflexivity|].
  generalize (step (mkNode ty st e a nm kids) parent s) as s1.
  generalize (Some (mkNode ty st e a nm kids)) as me.
  induction kids as [|[key k] kids IHkids]; intros me s1; simpl; [reflexivity|].
  inversion IH as [|? ? Hk Hkids]; subst.
  rewrite fold_left_app, <- Hk. now apply IHkids.
Qed.
End Visited.

(** A walk that never skips calls [enter] on the descendants, and on
    nothing else. *)
Lemma visited_all_descendant root m : forall parent,
  (exists p, (m, p) ∈ visited (fun _ _ => false) root parent) <-> descendant root m.
Proof.
  induction root as [ty st e a nm kids IH] using Node_ind'. intros parent.
  rewrite visited_unfold. cbn [node_kids]. split.
  - intros [p Hin]. apply elem_of_cons in Hin as [Heq|Hin].
    + injection Heq as -> _. constructor.
    + apply list_elem_of_In, in_flat_map in Hin as [[key k] [Hk Hin]].
      apply list_elem_of_In in Hk, Hin.
      eapply desc_kid; [exact Hk|].
      rewrite Forall_forall in IH. apply (IH _ Hk (Some (mkNode ty st e a nm kids))).
      eauto.
  - intros Hd. inversion Hd as [|? key k ? Hk Hkm]; subst.
    + exists parent. left.
    + cbn [node_kids] in Hk. rewrite Forall_forall in IH.
      apply (IH _ Hk (Some (mkNode ty st e a nm kids))) in Hkm as [p Hin].
      exists p. right. apply list_elem_of_In, in_flat_map.
      exists (key, k). split; apply list_elem_of_In; assumption.
Qed.

Lemma visited_collect_outside root m : forall parent,
  not_import parent ->
  (exists p, (m, p) ∈ visited collect_skips root parent /\ collect_skips m p = false)
  <-> outside_imports root m.
Proof.
  induction root as [ty st e a nm kids IH] using Node_ind'. intros parent Hpar.
  set (me := mkNode ty st e a nm kids) in *.
  assert (Hskip : collect_skips me parent = AstUtils.is_import me).
  { unfold collect_skips. destruct parent as [p|]; simpl in *;
      [rewrite Hpar|]; apply orb_false_r. }
  rewrite visited_unfold, Hskip. rewrite Forall_forall in IH. split.
  - intros [p [Hin Hns]]. apply elem_of_cons in Hin as [Heq|Hin].
    + injection Heq as -> ->. rewrite Hskip in Hns. now constructor.
    + destruct (AstUtils.is_import me) eqn:Himp; [inversion Hin|].
      apply list_elem_of_In, in_flat_map in Hin as [[key k] [Hk Hin]].
      apply list_elem_of_In in Hk, Hin.
      eapply oi_kid; [exact Himp | exact Hk |].
      apply (IH _ Hk (Some me)); [exact Himp | eauto].
  - intros Ho. inversion Ho as [? Himp|? key k ? Himp Hk Hkm]; subst.
    + exists parent. split; [left | now rewrite Hskip].
    + rewrite Himp. fold me in Hk. cbn [node_kids me] in Hk.
      apply (IH _ Hk (Some me) Himp) in Hkm as [p [Hin Hns]].
      exists p. split; [|exact Hns]. right.
      apply list_elem_of_In, in_flat_map.
      exists (key, k). split; apply list_elem_of_In; assumption.
Qed.

(** A visitor that pushes a record for the nodes passing a test, and
    never skips, returns the records of the descendants that pass, in
    traversal order. *)
Section Pushing.
Context {R : Type}.
Variable test : Node -> bool.
Variable record : Node -> R.

Lemma walk_pushing root acc :
  walk (pushing test record) root acc
  = acc ++ map record (List.filter test (all_nodes root)).
Proof.
  unfold walk, all_nodes.
  rewrite (visit_fold (fun _ _ => false)
             (fun n _ acc => if test n then acc ++ [record n] else acc)).
  2:{ intros node parent s. unfold pushing. now destruct (test node). }
  generalize (visited (fun _ _ => false) root None) as l.
  intros l. revert acc.
  induction l as [|[n p] l IH]; intros acc; simpl.
  - now rewrite app_nil_r.
  - rewrite IH. destruct (test n); simpl; [|reflexivity].
    now rewrite <- app_assoc.
Qed.

Lemma elem_of_walk_pushing root r :
  r ∈ walk (pushing test record) root []
  <-> exists node, descendant root node /\ test node = true /\ r = record node.
Proof.
  rewrite walk_pushing, app_nil_l, list_elem_of_fmap. split.
  - intros [node [-> Hin]].
    apply list_elem_of_In, filter_In in Hin as [Hin Ht].
    exists node. split; [|auto].
    apply (visited_all_descendant root node None).
    apply in_map_iff in Hin as [[n p] [Heq Hin]]; simpl in Heq; subst.
    exists p. now apply list_elem_of_In.
  - intros [node [Hd [Ht ->]]]. exists node. split; [reflexivity|].
    apply list_elem_of_In, filter_In. split; [|exact Ht].
    apply (visited_all_descendant root node None) in Hd as [p Hin].
    apply in_map_iff. exists (node, p). split; [reflexivity|].
    now apply list_elem_of_In.
Qed.
End Pushing.

Lemma findServerFunctions_eq ast :
  AstUtils.findServerFunctions ast =
  match instance ast with
  | None => []
  | Some inst =>
      walk (pushing AstUtils.is_server_function server_function_of)
           (content inst) []
  end.
Proof. reflexivity. Qed.

Lemma findFunctionCalls_eq ast functionName :
  AstUtils.findFunctionCalls ast functionName =
  let calls :=
    match fragment ast with
    | Some f =>
        walk (pushing (AstUtils.is_call_to functionName) AstUtils.call_of) f []
    | None => []
    end in
  match instance ast with
  | Some inst =>
      walk (pushing (AstUtils.is_call_to functionName) AstUtils.call_of)
           (content inst) calls
  | None => calls
  end.
Proof. reflexivity. Qed.

Lemma findUnusedImports_eq ast used :
  AstUtils.findUnusedImports ast used =
  match instance ast with
  | None => []
  | Some inst =>
      walk (pushing (fun node => (AstUtils.is_import node
                                  && AstUtils.all_specifiers_unused used node)%bool)
                    import_node_of)
           (content inst) []
  end.
Proof. reflexivity. Qed.

(** ** The tagged-function locator *)

Lemma is_server_function_tagged node :
  AstUtils.is_server_function node = true
  <-> exists name, tagged node name /\ AstUtils.id_name node = name.
Proof.
  unfold AstUtils.is_server_function, AstUtils.id_starts_with_server,
    AstUtils.id_name, tagged.
  rewrite !andb_true_iff, String.eqb_eq. split.
  - intros [[Hty Ha] Hid].
    destruct (node_field1 "id" node) as [i|]; [|discriminate].
    destruct (node_name i) as [nm|] eqn:Hnm; [|discriminate].
    exists nm. repeat split; eauto.
  - intros [name [[Hty [Ha [i [Hi [Hnm Hpre]]]]] _]].
    rewrite Hi, Hnm. auto.
Qed.

(** C5, as the code has it: a declaration is identified as a server
    function exactly when it is a function declaration anywhere in the
    instance script, at any depth, that is asynchronous and whose name
    starts with [server_]; the markup is never consulted, and every other
    node is passed over without an error. *)
Theorem C5_server_functions_any_depth (ast : Root) (sf : ServerFunction) :
  (sf ∈ AstUtils.findServerFunctions ast
   <-> exists inst node name,
         instance ast = Some inst
         /\ descendant (content inst) node
         /\ tagged node name
         /\ sf = mkServerFunction name node (node_start node) (node_end node))
  /\ (forall markup1 markup2,
        AstUtils.findServerFunctions (mkRoot markup1 (instance ast))
        = AstUtils.findServerFunctions (mkRoot markup2 (instance ast))).
Proof.
  split; [|reflexivity].
  rewrite findServerFunctions_eq.
  destruct (instance ast) as [inst|].
  - rewrite elem_of_walk_pushing. split.
    + intros [node [Hd [Ht ->]]].
      apply is_server_function_tagged in Ht as [name [Htag Hname]].
      exists inst, node, name. unfold server_function_of. rewrite Hname. auto.
    + intros [inst' [node [name [Hinst [Hd [Htag ->]]]]]].
      injection Hinst as <-. exists node. split; [exact Hd|].
      assert (Hs : exists n, tagged node n /\ AstUtils.id_name node = n).
      { exists name. split; [exact Htag|].
        destruct Htag as [_ [_ [i [Hi [Hnm _]]]]].
        unfold AstUtils.id_name. now rewrite Hi, Hnm. }
      split; [now apply is_server_function_tagged|].
      destruct Hs as [n [Htag' Hn]]. unfold server_function_of.
      destruct Htag as [_ [_ [i [Hi [Hnm _]]]]].
      unfold AstUtils.id_name. now rewrite Hi, Hnm.
  - split; [intros H; inversion H|].
    intros [inst [_ [_ [H _]]]]. discriminate.
Qed.

(** C5 as stated fails: the declaration of [server_ping] inside
    [setup] is identified although it is not a top-level statement. *)
Lemma C5_nested_declaration_is_identified :
  ~ (server_function_of Fixture.pingNode
       ∈ AstUtils.findServerFunctions Fixture.astInner
     <-> top_level Fixture.astInner Fixture.pingNode
         /\ tagged Fixture.pingNode "server_ping").
Proof.
  intros [Hfound _].
  assert (Hin : server_function_of Fixture.pingNode
                  ∈ AstUtils.findServerFunctions Fixture.astInner).
  { apply list_elem_of_In. vm_compute. left. reflexivity. }
  apply Hfound in Hin as [[inst [Hinst Hbody]] _].
  injection Hinst as <-.
  apply list_elem_of_In in Hbody. vm_compute in Hbody.
  destruct Hbody as [Heq|[]]. discriminate Heq.
Qed.

(** ** The call-site locator *)

Lemma findFunctionCalls_elem ast functionName call :
  call ∈ AstUtils.findFunctionCalls ast functionName
  <-> exists node, in_document ast node
                   /\ AstUtils.is_call_to functionName node = true
                   /\ call = AstUtils.call_of node.
Proof.
  rewrite findFunctionCalls_eq. unfold in_document. cbv zeta.
  destruct (fragment ast) as [f|], (instance ast) as [inst|].
  - rewrite walk_pushing, elem_of_app, <- (app_nil_l (map _ _)),
      <- walk_pushing, !elem_of_walk_pushing.
    split.
    + intros [[node [Hd H]]|[node [Hd H]]]; exists node; split; eauto.
    + intros [node [[[f' [Hf Hd]]|[inst' [Hi Hd]]] H]];
        [injection Hf as <-; left | injection Hi as <-; right]; eauto.
  - rewrite elem_of_walk_pushing. split.
    + intros [node [Hd H]]. exists node. split; eauto.
    + intros [node [[[f' [Hf Hd]]|[inst' [Hi Hd]]] H]];
        [injection Hf as <- | discriminate]; eauto.
  - rewrite elem_of_walk_pushing. split.
    + intros [node [Hd H]]. exists node. split; eauto.
    + intros [node [[[f' [Hf Hd]]|[inst' [Hi Hd]]] H]];
        [discriminate | injection Hi as <-]; eauto.
  - split; [intros H; inversion H|].
    intros [node [[[f' [Hf _]]|[inst' [Hi _]]] _]]; discriminate.
Qed.

Lemma slice_empty_range (s : string) (a : Z) : Js.slice s a a = "".
Proof.
  unfold Js.slice. rewrite Z.sub_diag. simpl.
  generalize (Z.to_nat (if a <? 0
                        then Z.max (Z.of_nat (String.length s) + a) 0
                        else Z.min a (Z.of_nat (String.length s)))) as n.
  induction s as [|c s IH]; intros [|n]; simpl; auto.
Qed.

Lemma includes_app_r (a b sub : string) :
  Js.includes b sub = true -> Js.includes (a +:+ b) sub = true.
Proof.
  intros H. induction a as [|c a IH]; [exact H|].
  simpl. rewrite IH. apply orb_true_r.
Qed.

(** C9: a call of the function with no arguments is located with the
    zero-width argument span [(end - 1, end - 1)], just before the
    closing parenthesis, and rewriting it splices in the fetch call with
    the empty payload [{}]. *)
Theorem C9_no_argument_call (ast : Root) (functionName : string) (node : Node)
    (Hnode : in_document ast node)
    (Hcall : AstUtils.is_call_to functionName node = true)
    (Hnone : node_field "arguments" node = []) :
  let call := AstUtils.call_of node in
  call ∈ AstUtils.findFunctionCalls ast functionName
  /\ call_arguments call = mkSpan (node_end node - 1) (node_end node - 1)
  /\ forall routePath_ content_,
       ServerFunctionTransformer.replace_call routePath_ content_ call
       = Js.slice content_ 0 (node_start node)
         +:+ ServerFunctionTransformer.generateFetchCall routePath_ ""
         +:+ Js.slice_from content_ (node_end node)
       /\ Js.includes (ServerFunctionTransformer.generateFetchCall routePath_ "")
                      "body: JSON.stringify({})" = true.
Proof.
  intros call. split; [|split].
  - apply findFunctionCalls_elem. exists node. auto.
  - unfold call, AstUtils.call_of. now rewrite Hnone.
  - intros routePath_ content_. split.
    + unfold ServerFunctionTransformer.replace_call, call, AstUtils.call_of.
      rewrite Hnone. simpl. now rewrite slice_empty_range.
    + unfold ServerFunctionTransformer.generateFetchCall.
      do 2 apply includes_app_r. reflexivity.
Qed.

Lemma C9_no_argument_call_witness :
  in_document Fixture.astStale Fixture.getCall
  /\ let call := AstUtils.call_of Fixture.getCall in
     call ∈ AstUtils.findFunctionCalls Fixture.astStale "server_get"
     /\ call_arguments call
        = mkSpan (node_end Fixture.getCall - 1) (node_end Fixture.getCall - 1)
     /\ forall routePath_ content_,
          ServerFunctionTransformer.replace_call routePath_ content_ call
          = Js.slice content_ 0 (node_start Fixture.getCall)
            +:+ ServerFunctionTransformer.generateFetchCall routePath_ ""
            +:+ Js.slice_from content_ (node_end Fixture.getCall)
          /\ Js.includes
               (ServerFunctionTransformer.generateFetchCall routePath_ "")
               "body: JSON.stringify({})" = true.
Proof.
  assert (Hin : in_document Fixture.astStale Fixture.getCall).
  { right. eexists. split; [reflexivity|]. cbn. descend. }
  split; [exact Hin|].
  apply (C9_no_argument_call Fixture.astStale "server_get" Fixture.getCall);
    [exact Hin | reflexivity | reflexivity].
Defined.

(** ** Effects of the per-document transform *)

Lemma returns_ret {A} (a : A) : returns (ret a).
Proof. intros w. now exists a, w. Qed.

Lemma returns_bind {A B} (m : M A) (k : A -> M B) :
  returns m -> (forall a, returns (k a)) -> returns (bind m k).
Proof.
  intros Hm Hk w. unfold bind. destruct (Hm w) as [a [w' ->]]. apply Hk.
Qed.

Lemma returns_try_catch {A} (m : M A) (h : string -> M A) :
  (forall e, returns (h e)) -> returns (try_catch m h).
Proof.
  intros Hh w. unfold try_catch.
  destruct (m w) as [[a|e] w']; [now exists a, w' | apply Hh].
Qed.

Lemma returns_warn line : returns (Console.warn line).
Proof. intros w. now eexists _, _. Qed.

Lemma returns_error text e : returns (Console.error text e).
Proof. intros w. now eexists _, _. Qed.

Lemma returns_fold_each {A T} (f : T -> A -> M T) l :
  (forall t x, returns (f t x)) -> forall t, returns (fold_each f l t).
Proof.
  intros Hf. induction l as [|x l IH]; intros t; simpl.
  - apply returns_ret.
  - apply returns_bind; [apply Hf | exact IH].
Qed.

Lemma keeps_ret {A} (a : A) : keeps_files (ret a).
Proof. now intros w. Qed.

Lemma keeps_throw {A} e : keeps_files (@throw A e).
Proof. now intros w. Qed.

Lemma keeps_lift {A} (r : A + string) : keeps_files (lift r).
Proof. destruct r; [apply keeps_ret | apply keeps_throw]. Qed.

Lemma keeps_bind {A B} (m : M A) (k : A -> M B) :
  keeps_files m -> (forall a, keeps_files (k a)) -> keeps_files (bind m k).
Proof.
  intros Hm Hk w. unfold bind. specialize (Hm w).
  destruct (m w) as [[a|e] w']; simpl in *; [|exact Hm].
  destruct (Hk a w') as [-> ->]. exact Hm.
Qed.

Lemma keeps_try_catch {A} (m : M A) (h : string -> M A) :
  keeps_files m -> (forall e, keeps_files (h e)) -> keeps_files (try_catch m h).
Proof.
  intros Hm Hh w. unfold try_catch. specialize (Hm w).
  destruct (m w) as [[a|e] w']; simpl in *; [exact Hm|].
  destruct (Hh e w') as [-> ->]. exact Hm.
Qed.

Lemma keeps_warn line : keeps_files (Console.warn line).
Proof. now intros w. Qed.

Lemma keeps_fold_each {A T} (f : T -> A -> M T) l :
  (forall t x, keeps_files (f t x)) -> forall t, keeps_files (fold_each f l t).
Proof.
  intros Hf. induction l as [|x l IH]; intros t; simpl.
  - apply keeps_ret.
  - apply keeps_bind; [apply Hf | exact IH].
Qed.

Section TransformEffects.
Variable parse : string -> Root + string.
Variable digest : string -> string.
Variable cwd : fspath.
Variable relative_to_src : string -> string.

Local Abbreviation cleanupUnusedImports :=
  (ServerFunctionTransformer.cleanupUnusedImports parse).
Local Abbreviation process :=
  (ServerFunctionTransformer.process parse digest cwd relative_to_src).
Local Abbreviation transform :=
  (transformFile parse digest cwd relative_to_src).

Lemma cleanupUnusedImports_returns this : returns (cleanupUnusedImports this).
Proof.
  apply returns_try_catch. intros e.
  apply returns_bind; [apply returns_warn | intros; apply returns_ret].
Qed.

Lemma cleanupUnusedImports_keeps this : keeps_files (cleanupUnusedImports this).
Proof.
  apply keeps_try_catch.
  - apply keeps_bind; [apply keeps_lift | intros; apply keeps_ret].
  - intros e. apply keeps_bind; [apply keeps_warn | intros; apply keeps_ret].
Qed.

Lemma process_returns this : returns (process this).
Proof.
  unfold ServerFunctionTransformer.process.
  destruct (Nat.eqb _ 0); [apply returns_ret|].
  apply returns_bind; [|intros; apply returns_ret].
  apply returns_fold_each. intros t x. apply cleanupUnusedImports_returns.
Qed.

Lemma process_keeps this : keeps_files (process this).
Proof.
  unfold ServerFunctionTransformer.process.
  destruct (Nat.eqb _ 0); [apply keeps_ret|].
  apply keeps_bind; [|intros; apply keeps_ret].
  apply keeps_fold_each. intros t x. apply cleanupUnusedImports_keeps.
Qed.

Lemma transformFile_returns content_ filename :
  returns (transform content_ filename).
Proof.
  apply returns_try_catch. intros e.
  apply returns_bind; [apply returns_warn | intros; apply returns_ret].
Qed.

Lemma transformFile_keeps content_ filename :
  keeps_files (transform content_ filename).
Proof.
  apply keeps_try_catch.
  - destruct (_ || _)%bool; [apply keeps_ret|].
    apply keeps_bind.
    + apply keeps_bind; [apply keeps_lift | intros; apply keeps_ret].
    + intros t. apply keeps_bind; [apply process_keeps | intros; apply keeps_ret].
  - intros e. apply keeps_bind; [apply keeps_warn | intros; apply keeps_ret].
Qed.

(** C10: the per-document transform leaves the file system alone: it
    performs no write, no mkdir and no removal, whatever the document;
    the hooks [serverFunctions] hands out are this transform and the
    identity on styles, so that the file-system effects of the package
    are those of the startup sweep that runs before the hooks exist. *)
Theorem C10_transform_keeps_files :
  (forall content_ filename, keeps_files (transform content_ filename))
  /\ forall w, exists hooks w',
       serverFunctions parse digest cwd relative_to_src w = (Ret hooks, w')
       /\ (forall c f, keeps_files (markup hooks c f))
       /\ (forall c, keeps_files (style hooks c))
       /\ (forall c f, keeps_files (script hooks c f)).
Proof.
  split; [apply transformFile_keeps|].
  intros w. unfold serverFunctions.
  assert (Hclean : returns (EndpointManager.cleanupEndpoints cwd)).
  { unfold EndpointManager.cleanupEndpoints.
    apply returns_bind; [intros w0; now eexists _, _|].
    intros present. destruct (negb present); [apply returns_ret|].
    apply returns_try_catch. intros e. apply returns_error. }
  assert (Hscan : returns (EndpointManager.scanAndCreateEndpoints
                             parse digest cwd relative_to_src)).
  { apply returns_try_catch. intros e. apply returns_error. }
  unfold bind. destruct (Hclean w) as [u [w1 ->]].
  destruct (Hscan w1) as [v [w2 ->]].
  eexists _, _. split; [reflexivity|]. simpl.
  repeat split; intros; try apply transformFile_keeps; apply keeps_ret.
Qed.

(** A document in which no server function is found comes back
    unchanged, whether it is skipped, fails to parse, or parses to a
    tree without server functions. *)
Theorem no_server_function_no_change (content_ : string)
    (filename : option string)
    (Hnone : forall tree, parse content_ = inl tree ->
                          AstUtils.findServerFunctions tree = []) :
  forall w, fst (transform content_ filename w) = Ret (mkResult content_).
Proof.
  intros w. unfold transformFile, try_catch.
  destruct (_ || _)%bool; [reflexivity|].
  unfold bind at 1. unfold ServerFunctionTransformer.new, bind at 1.
  destruct (parse content_) as [tree|e] eqn:Hparse; simpl; [|reflexivity].
  unfold bind, ServerFunctionTransformer.process. simpl.
  now rewrite (Hnone tree eq_refl).
Qed.

(** C2, as the code has it: the transform never aborts; when the first
    parse fails it returns the original text; when the re-parse made for
    import pruning fails, the pruning alone is given up, with a warning,
    and the text edited so far is kept. *)
Theorem C2_parse_failures (content_ : string) (filename : option string)
    (this : ServerFunctionTransformer.t) (e1 e2 : string) :
  returns (transform content_ filename)
  /\ (parse content_ = inr e1 ->
      forall w, fst (transform content_ filename w)
                = Ret (mkResult content_))
  /\ (parse (ServerFunctionTransformer.content_ this) = inr e2 ->
      forall w, cleanupUnusedImports this w
                = (Ret this,
                   mkWorld (fs w)
                     (console w
                      ++ [Line ("Warning: Error cleaning up imports " +:+ e2)])
                     (trace w))).
Proof.
  split; [apply transformFile_returns|]. split.
  - intros Hparse w. unfold transformFile, try_catch.
    destruct (_ || _)%bool; [reflexivity|].
    unfold bind at 1. unfold ServerFunctionTransformer.new, bind at 1.
    now rewrite Hparse.
  - intros Hparse w.
    unfold ServerFunctionTransformer.cleanupUnusedImports, try_catch, bind.
    now rewrite Hparse.
Qed.
End TransformEffects.

Lemma no_server_function_no_change_witness :
  (forall tree, Fixture.parsePlain Fixture.docPlain = inl tree ->
                AstUtils.findServerFunctions tree = [])
  /\ fst (transformFile Fixture.parsePlain Sha256.sha256_base64url Fixture.cwd
            Fixture.relative_to_src Fixture.docPlain Fixture.page
            Fixture.world0)
     = Ret (mkResult Fixture.docPlain).
Proof.
  assert (Hnone : forall tree, Fixture.parsePlain Fixture.docPlain = inl tree ->
                               AstUtils.findServerFunctions tree = []).
  { intros tree H. vm_compute in H. injection H as <-. reflexivity. }
  split; [exact Hnone|].
  apply (no_server_function_no_change Fixture.parsePlain
           Sha256.sha256_base64url Fixture.cwd Fixture.relative_to_src
           Fixture.docPlain Fixture.page Hnone).
Defined.

(** C7 fails on the code: the transform of an already transformed
    document is not the identity.  For [docLet] the transform removes
    [server_b], prunes the import of [db], and then cuts at the span
    [server_a] had in the tree of the original text, where the [let]
    statement lies by now.  The text returned has lost that statement
    and still declares [server_a]; transforming it again removes the
    declaration, so the second result differs from the first. *)
Theorem C7_transformed_document_changes_again :
  Fixture.spans (AstUtils.findServerFunctions Fixture.astLet)
  = [("server_a", 49, 87); ("server_b", 129, 172)]
  /\ Js.slice Fixture.docLet 49 87 = Fixture.aFn
  /\ ServerFunctionTransformer.transformServerFunction Fixture.parseLet
       (ServerFunctionTransformer.mk Fixture.docLet Fixture.page
          Fixture.astLet)
       (server_function_of (Fixture.bNode Fixture.docLet))
       "server_b_wMcpn0Ab" Fixture.world0
     = (Ret (ServerFunctionTransformer.mk Fixture.docLetPruned Fixture.page
               Fixture.astLet),
        Fixture.world0)
  /\ Js.slice Fixture.docLetPruned 49 87 = Fixture.letStmt
  /\ transformFile Fixture.parseLet Sha256.sha256_base64url Fixture.cwd
       Fixture.relative_to_src Fixture.docLet Fixture.page Fixture.world0
     = (Ret (mkResult Fixture.outLet), Fixture.world0)
  /\ Js.includes Fixture.outLet Fixture.letStmt = false
  /\ Fixture.spans (AstUtils.findServerFunctions Fixture.astOutLet)
     = [("server_a", 9, 47)]
  /\ transformFile Fixture.parseLet Sha256.sha256_base64url Fixture.cwd
       Fixture.relative_to_src Fixture.outLet Fixture.page Fixture.world0
     = (Ret (mkResult Fixture.outLetAgain), Fixture.world0)
  /\ Fixture.outLetAgain <> Fixture.outLet.
Proof.
  split; [vm_compute; reflexivity|].
  split; [vm_compute; reflexivity|].
  split; [vm_compute; reflexivity|].
  split; [vm_compute; reflexivity|].
  split; [vm_compute; reflexivity|].
  split; [vm_compute; reflexivity|].
  split; [vm_compute; reflexivity|].
  split; [vm_compute; reflexivity|].
  intros H. vm_compute in H. discriminate H.
Qed.

Lemma C2_parse_failures_witness :
  Fixture.parseStale Fixture.outStale = inr "Unexpected token"
  /\ returns (transformFile Fixture.parseStale Sha256.sha256_base64url
                Fixture.cwd Fixture.relative_to_src Fixture.outStale
                Fixture.page)
  /\ fst (transformFile Fixture.parseStale Sha256.sha256_base64url Fixture.cwd
            Fixture.relative_to_src Fixture.outStale Fixture.page
            Fixture.world0)
     = Ret (mkResult Fixture.outStale)
  /\ ServerFunctionTransformer.cleanupUnusedImports Fixture.parseStale
       (ServerFunctionTransformer.mk Fixture.outStale Fixture.page
          Fixture.astStale)
       Fixture.world0
     = (Ret (ServerFunctionTransformer.mk Fixture.outStale Fixture.page
               Fixture.astStale),
        mkWorld ∅ [Line "Warning: Error cleaning up imports Unexpected token"]
          []).
Proof.
  assert (Hfail : Fixture.parseStale Fixture.outStale = inr "Unexpected token")
    by (vm_compute; reflexivity).
  destruct (C2_parse_failures Fixture.parseStale Sha256.sha256_base64url
              Fixture.cwd Fixture.relative_to_src Fixture.outStale Fixture.page
              (ServerFunctionTransformer.mk Fixture.outStale Fixture.page
                 Fixture.astStale)
              "Unexpected token" "Unexpected token") as [H0 [H1 H2]].
  split; [exact Hfail|]. split; [exact H0|]. split.
  - exact (H1 Hfail Fixture.world0).
  - exact (H2 Hfail Fixture.world0).
Defined.

(** C2 as stated fails: for [docStale] the first parse succeeds, the
    re-parse made for import pruning fails (the warning is on the
    console), and the text returned is the edited one, not the
    original. *)
Lemma C2_reparse_failure_keeps_the_edits :
  transformFile Fixture.parseStale Sha256.sha256_base64url Fixture.cwd
    Fixture.relative_to_src Fixture.docStale Fixture.page Fixture.world0
  = (Ret (mkResult Fixture.outStale),
     mkWorld ∅ [Line "Warning: Error cleaning up imports Unexpected token"]
          [])
  /\ Fixture.outStale <> Fixture.docStale.
Proof.
  split; [vm_compute; reflexivity|].
  intros H. vm_compute in H. discriminate H.
Qed.

(** ** Order of the edits *)

Section Descending.
Context {A : Type} (key : A -> Z).

Local Abbreviation by_key_descending := (fun a b : A => key b - key a).

Lemma insert_sorted_permutation (x : A) (l : list A) :
  Js.insert_sorted by_key_descending x l ≡ₚ x :: l.
Proof.
  induction l as [|y l IH]; simpl; [reflexivity|].
  destruct (key y - key x <=? 0); [reflexivity|].
  rewrite IH. apply Permutation_swap.
Qed.


Lemma insert_sorted_descending (x : A) (l : list A) :
  StronglySorted (fun a b => key b <= key a) l ->
  StronglySorted (fun a b => key b <= key a)
                 (Js.insert_sorted by_key_descending x l).
Proof.
  induction 1 as [|y l Hl IH Hy]; simpl.
  - repeat constructor.
  - destruct (key y - key x <=? 0) eqn:Hle.
    + apply Z.leb_le in Hle. constructor; [now constructor|].
      constructor; [lia|].
      eapply Forall_impl; [exact Hy|]. simpl. intros z Hz. lia.
    + apply Z.leb_gt in Hle. constructor; [exact IH|].
      rewrite insert_sorted_permutation. constructor; [lia | exact Hy].
Qed.

(** With the comparator [b.start - a.start], [sort] puts the greatest
    start first. *)
Lemma sort_descending (l : list A) :
  StronglySorted (fun a b => key b <= key a) (Js.sort by_key_descending l).
Proof.
  induction l as [|x l IH]; simpl; [constructor|].
  now apply insert_sorted_descending.
Qed.
End Descending.

(** ** Stale spans *)

(** C1 fails on [docNested], where one call of [server_inc] is an
    argument of another: the locator finds the two call sites, but the
    text returned holds a single fetch call to the route; the inner one
    was cut through when the outer call was replaced with the spans of
    the tree parsed before the first replacement. *)
Theorem C1_nested_call_sites :
  length (AstUtils.findFunctionCalls Fixture.astNested "server_inc") = 2%nat
  /\ exists out w,
       transformFile Fixture.parseNested Sha256.sha256_base64url Fixture.cwd
         Fixture.relative_to_src Fixture.docNested Fixture.page Fixture.world0
       = (Ret (mkResult out), w)
       /\ occurrences out "fetch('/api/server_inc_y_wOoNbZ'" = 1%nat
       /\ Js.includes out "await fetch('/api/s})" = true
       /\ Js.includes out "})rver_inc_y_wOoNbZ', {" = true.
Proof.
  split; [reflexivity|].
  eexists _, _. split; [vm_compute; reflexivity|].
  repeat split; vm_compute; reflexivity.
Qed.

(** C3 fails on [docTwo]: [server_b] is processed first and removed,
    and pruning the import of [db] shifts the text; the object then
    holds the buffer [docTwoPruned] together with the tree of [docTwo],
    and [server_a] is cut out at (38, 76), its span in that tree, while
    it lies at (9, 47) in the buffer being edited. *)
Theorem C3_span_of_an_earlier_tree :
  Fixture.spans (AstUtils.findServerFunctions Fixture.astTwo)
  = [("server_a", 38, 76); ("server_b", 78, 121)]
  /\ (exists b,
        nth_error (AstUtils.findServerFunctions Fixture.astTwo) 1 = Some b
        /\ ServerFunctionTransformer.transformServerFunction Fixture.parseTwo
             (ServerFunctionTransformer.mk Fixture.docTwo Fixture.page
                Fixture.astTwo)
             b "server_b_wMcpn0Ab" Fixture.world0
           = (Ret (ServerFunctionTransformer.mk Fixture.docTwoPruned
                     Fixture.page Fixture.astTwo),
              Fixture.world0))
  /\ Js.slice Fixture.docTwoPruned 9 47 = Fixture.aFn
  /\ transformFile Fixture.parseTwo Sha256.sha256_base64url Fixture.cwd
       Fixture.relative_to_src Fixture.docTwo Fixture.page Fixture.world0
     = (Ret (mkResult Fixture.outTwo),
        mkWorld ∅ [Line "Warning: Error cleaning up imports Unexpected token"]
          []).
Proof.
  split; [reflexivity|]. split; [|split].
  - eexists. split; [reflexivity|]. vm_compute. reflexivity.
  - reflexivity.
  - vm_compute. reflexivity.
Qed.

(** ** Import pruning *)

Lemma elem_of_add_name (nm nm' : string) (set : list string) :
  nm' ∈ AstUtils.add_name nm set <-> nm' = nm \/ nm' ∈ set.
Proof.
  unfold AstUtils.add_name. case_bool_decide as Hin.
  - split; [auto|]. intros [->|H]; assumption.
  - rewrite elem_of_app, list_elem_of_singleton. tauto.
Qed.

Lemma collect_enter_spec node parent s :
  AstUtils.collect_enter node parent s
  = (collect_step node parent s, collect_skips node parent).
Proof.
  unfold AstUtils.collect_enter, collect_step, collect_skips.
  destruct (_ || _)%bool; [reflexivity|].
  now destruct (String.eqb _ _).
Qed.

Lemma elem_of_collect_fold (l : list (Node * option Node)) (nm : string) :
  forall acc,
    nm ∈ fold_left (fun s np => collect_step (fst np) (snd np) s) l acc
    <-> nm ∈ acc
        \/ exists n p, (n, p) ∈ l /\ collect_skips n p = false
                       /\ node_type n = "Identifier"
                       /\ default "" (node_name n) = nm.
Proof.
  induction l as [|[n p] l IH]; intros acc; simpl.
  - split; [auto|]. intros [H|[n [p [H _]]]]; [exact H | inversion H].
  - rewrite IH. unfold collect_step at 1. split.
    + intros [Hacc|[n' [p' [Hin H]]]].
      * destruct (collect_skips n p) eqn:Hs; [auto|].
        destruct (String.eqb (node_type n) "Identifier") eqn:Hty; [|auto].
        apply elem_of_add_name in Hacc as [->|Hacc]; [|auto].
        right. exists n, p. apply String.eqb_eq in Hty.
        repeat split; auto. left.
      * right. exists n', p'. split; [now right | exact H].
    + intros [Hacc|[n' [p' [Hin [Hs [Hty Hnm]]]]]].
      * left. destruct (collect_skips n p); [exact Hacc|].
        destruct (String.eqb _ _); [|exact Hacc].
        apply elem_of_add_name. auto.
      * apply elem_of_cons in Hin as [Heq|Hin].
        -- injection Heq as -> ->. left. rewrite Hs.
           apply String.eqb_eq in Hty. rewrite Hty.
           apply elem_of_add_name. auto.
        -- right. exists n', p'. auto.
Qed.

(** The set [collectUsedIdentifiers] returns holds the names of the
    identifiers of the instance script outside import declarations. *)
Lemma collectUsedIdentifiers_spec (ast : Root) (nm : string) :
  nm ∈ AstUtils.collectUsedIdentifiers ast <-> used_in_script ast nm.
Proof.
  unfold AstUtils.collectUsedIdentifiers, used_in_script.
  destruct (instance ast) as [inst|].
  - unfold walk.
    rewrite (visit_fold collect_skips collect_step _ collect_enter_spec).
    rewrite elem_of_collect_fold. split.
    + intros [H|[n [p [Hin [Hs [Hty Hnm]]]]]]; [inversion H|].
      exists inst, n. repeat split; auto.
      apply (visited_collect_outside (content inst) n None I). eauto.
    + intros [inst' [m [Hinst [Ho [Hty Hnm]]]]]. injection Hinst as <-.
      right. apply (visited_collect_outside (content inst) m None I) in Ho
        as [p [Hin Hs]].
      exists m, p. auto.
  - split; [intros H; inversion H|].
    intros [inst [m [H _]]]. discriminate.
Qed.

Lemma findUnusedImports_spec (ast : Root) (imp : ImportNode) :
  imp ∈ AstUtils.findUnusedImports ast (AstUtils.collectUsedIdentifiers ast)
  <-> exists node, prunable ast node /\ imp = import_node_of node.
Proof.
  rewrite findUnusedImports_eq. unfold prunable.
  assert (Hunused : forall node,
             AstUtils.all_specifiers_unused
               (AstUtils.collectUsedIdentifiers ast) node = true
             <-> forall specifier,
                   specifier ∈ node_field "specifiers" node ->
                   ~ used_in_script ast (AstUtils.local_name specifier)).
  { intros node. unfold AstUtils.all_specifiers_unused.
    rewrite forallb_forall. split.
    - intros H specifier Hin Hused.
      apply list_elem_of_In, H, negb_true_iff, bool_decide_eq_false in Hin.
      apply Hin, collectUsedIdentifiers_spec, Hused.
    - intros H specifier Hin.
      apply negb_true_iff, bool_decide_eq_false. intros Hused.
      apply (H specifier); [now apply list_elem_of_In|].
      now apply collectUsedIdentifiers_spec. }
  destruct (instance ast) as [inst|].
  - rewrite elem_of_walk_pushing. split.
    + intros [node [Hd [Ht ->]]]. apply andb_true_iff in Ht as [Hi Hu].
      exists node. split; [|reflexivity]. split; [eauto|].
      split; [now apply String.eqb_eq|]. now apply Hunused.
    + intros [node [[[inst' [Hinst Hd]] [Hty Hu]] ->]].
      injection Hinst as <-. exists node. split; [exact Hd|].
      split; [|reflexivity]. apply andb_true_iff.
      split; [now apply String.eqb_eq | now apply Hunused].
  - split; [intros H; inversion H|].
    intros [node [[[inst [H _]] _] _]]. discriminate.
Qed.

Lemma elem_of_insert_sorted {A} (cmp : A -> A -> Z) (x y : A) (l : list A) :
  y ∈ Js.insert_sorted cmp x l <-> y = x \/ y ∈ l.
Proof.
  induction l as [|z l IH]; simpl.
  - rewrite list_elem_of_singleton. split; [auto|].
    intros [H|H]; [exact H | inversion H].
  - destruct (cmp x z <=? 0).
    + now rewrite elem_of_cons.
    + rewrite !elem_of_cons, IH. tauto.
Qed.

Lemma elem_of_sort {A} (cmp : A -> A -> Z) (y : A) (l : list A) :
  y ∈ Js.sort cmp l <-> y ∈ l.
Proof.
  induction l as [|x l IH]; simpl; [reflexivity|].
  now rewrite elem_of_insert_sorted, elem_of_cons, IH.
Qed.

Lemma fold_set_content {A} (f : string -> A -> string) (l : list A) :
  forall this,
    fold_left (fun this x =>
                 ServerFunctionTransformer.set_content this
                   (f (ServerFunctionTransformer.content_ this) x))
              l this
    = ServerFunctionTransformer.set_content this
        (fold_left f l (ServerFunctionTransformer.content_ this)).
Proof.
  induction l as [|x l IH]; intros this; simpl.
  - now destruct this.
  - now rewrite IH.
Qed.

(** C4 fails on the code: in [docImports] the markup calls [fmt], and
    the removed function [server_now] never used it, yet the import of
    [fmt] is gone from the text returned, while the call in the markup
    is still there: only the identifiers of the instance script are
    taken as uses. *)
Lemma C4_import_used_by_the_markup_is_pruned :
  (exists f node,
      fragment Fixture.astImports = Some f /\ descendant f node
      /\ node_type node = "Identifier" /\ node_name node = Some "fmt")
  /\ Js.includes Fixture.docImports (Fixture.import_text "fmt" "'./fmt'") = true
  /\ (exists out w,
        transformFile Fixture.parseImports Sha256.sha256_base64url Fixture.cwd
          Fixture.relative_to_src Fixture.docImports Fixture.page Fixture.world0
        = (Ret (mkResult out), w)
        /\ Js.includes out (Fixture.import_text "fmt" "'./fmt'") = false
        /\ Js.includes out "<p>{fmt(2)}</p>" = true)
  /\ AstUtils.findServerFunctions Fixture.astImports
     = [server_function_of (Fixture.nowNode Fixture.docImports)]
  /\ "fmt" ∉ AstUtils.function_identifiers
               (server_function_of (Fixture.nowNode Fixture.docImports)).
Proof.
  split; [|split; [|split; [|split]]].
  - eexists _, (Fixture.ident Fixture.docImports
                  (Fixture.find_in Fixture.docImports 0 Fixture.markupP) "fmt").
    split; [reflexivity|]. split; [cbn; descend|]. split; reflexivity.
  - reflexivity.
  - eexists _, _. split; [vm_compute; reflexivity|].
    split; vm_compute; reflexivity.
  - vm_compute. reflexivity.
  - apply (proj1 (bool_decide_eq_false _)). vm_compute. reflexivity.
Qed.

(** When the edited buffer parses, the pruning step cuts spans out of
    it, the one that starts last first, and the spans cut are those of
    the import declarations of the instance script none of whose local
    names is the name of an identifier of the instance script outside
    import declarations, and no other. *)
Theorem pruning_cuts_the_prunable_imports (parse : string -> Root + string)
    (this : ServerFunctionTransformer.t) (tree : Root)
    (Hparse : parse (ServerFunctionTransformer.content_ this) = inl tree) :
  exists cuts,
    (forall w,
       ServerFunctionTransformer.cleanupUnusedImports parse this w
       = (Ret (ServerFunctionTransformer.set_content this
                 (fold_left
                    (fun c importNode =>
                       ServerFunctionTransformer.cut c (imp_start importNode)
                                                     (imp_end importNode))
                    cuts (ServerFunctionTransformer.content_ this))),
          w))
    /\ StronglySorted (fun a b => imp_start b <= imp_start a) cuts
    /\ forall imp,
         imp ∈ cuts
         <-> exists node, prunable tree node /\ imp = import_node_of node.
Proof.
  exists (Js.sort (fun a b => imp_start b - imp_start a)
            (AstUtils.findUnusedImports tree
               (AstUtils.collectUsedIdentifiers tree))).
  split; [|split].
  - intros w.
    unfold ServerFunctionTransformer.cleanupUnusedImports, try_catch, bind.
    rewrite Hparse. simpl. unfold ret. do 2 f_equal.
    apply (fold_set_content
             (fun c importNode =>
                ServerFunctionTransformer.cut c (imp_start importNode)
                                              (imp_end importNode))).
  - apply (sort_descending imp_start).
  - intros imp. rewrite elem_of_sort. apply findUnusedImports_spec.
Qed.

Lemma pruning_cuts_the_prunable_imports_witness :
  Fixture.parseImports Fixture.docImportsMid = inl Fixture.astImportsMid
  /\ exists cuts,
       (forall w,
          ServerFunctionTransformer.cleanupUnusedImports Fixture.parseImports
            (ServerFunctionTransformer.mk Fixture.docImportsMid Fixture.page
               Fixture.astImports) w
          = (Ret (ServerFunctionTransformer.set_content
                    (ServerFunctionTransformer.mk Fixture.docImportsMid
                       Fixture.page Fixture.astImports)
                    (fold_left
                       (fun c importNode =>
                          ServerFunctionTransformer.cut c
                            (imp_start importNode) (imp_end importNode))
                       cuts Fixture.docImportsMid)),
             w))
       /\ StronglySorted (fun a b => imp_start b <= imp_start a) cuts
       /\ forall imp,
            imp ∈ cuts
            <-> exists node,
                  prunable Fixture.astImportsMid node
                  /\ imp = import_node_of node.
Proof.
  assert (Hparse : Fixture.parseImports Fixture.docImportsMid
                   = inl Fixture.astImportsMid) by reflexivity.
  split; [exact Hparse|].
  exact (pruning_cuts_the_prunable_imports Fixture.parseImports
           (ServerFunctionTransformer.mk Fixture.docImportsMid Fixture.page
              Fixture.astImports)
           Fixture.astImportsMid Hparse).
Defined.

(** ** Stable ids *)

(** The digest agrees with the published test vectors of SHA-256. *)
Example sha256_empty :
  Sha256.sha256_base64url "" = "47DEQpj8HBSa-_TImW-5JCeuQeRkm5NMpJWZG3hSuFU".
Proof. vm_compute. reflexivity. Qed.

Example sha256_abc :
  Sha256.sha256_base64url "abc"
  = "ungWv48Bz-pBQUDeXa4iI7ADYaOWF3qctBD_YfIAFa0".
Proof. vm_compute. reflexivity. Qed.

Example sha256_two_blocks :
  Sha256.sha256_base64url
    "abcdbcdecdefdefgefghfghighijhijkijkljklmklmnlmnomnopnopq"
  = "JI1qYdIGOLjlwCaTDD5gOaM85Flk_yFn9uzt1BnbBsE".
Proof. vm_compute. reflexivity. Qed.

Lemma append_nil (b : string) : "" +:+ b = b.
Proof. reflexivity. Qed.

Lemma append_cons (c : ascii) (a b : string) :
  String c a +:+ b = String c (a +:+ b).
Proof. reflexivity. Qed.

Lemma length_append (a b : string) :
  String.length (a +:+ b) = (String.length a + String.length b)%nat.
Proof.
  induction a as [|c a IH]; [reflexivity|].
  rewrite append_cons. simpl. now rewrite IH.
Qed.

Lemma length_substring (s : string) : forall n m,
  String.length (String.substring n m s) = Nat.min m (String.length s - n).
Proof.
  induction s as [|c s IH]; intros [|n] [|m];
    cbn [String.substring String.length]; rewrite ?IH; lia.
Qed.

Lemma length_slice_8 (s : string) :
  (8 <= String.length s)%nat -> String.length (Js.slice s 0 8) = 8%nat.
Proof.
  intros H. unfold Js.slice. rewrite length_substring.
  change (0 <? 0) with false. change (8 <? 0) with false. cbv iota.
  rewrite Z.min_l by lia. rewrite Z.min_l by lia. simpl Z.to_nat. lia.
Qed.

Lemma append_inj_suffix (a1 a2 b1 b2 : string) :
  String.length b1 = String.length b2 ->
  a1 +:+ b1 = a2 +:+ b2 -> a1 = a2 /\ b1 = b2.
Proof.
  intros Hlen. revert a2.
  induction a1 as [|c a1 IH]; intros [|c2 a2] H;
    rewrite ?append_nil, ?append_cons in H.
  - auto.
  - exfalso. apply (f_equal String.length) in H. simpl in H.
    rewrite length_append in H. lia.
  - exfalso. apply (f_equal String.length) in H. simpl in H.
    rewrite length_append in H. lia.
  - injection H as -> H. destruct (IH a2 H) as [-> ->]. auto.
Qed.

Lemma append_inj_prefix (a b1 b2 : string) : a +:+ b1 = a +:+ b2 -> b1 = b2.
Proof.
  induction a as [|c a IH]; rewrite ?append_nil, ?append_cons; intros H;
    [exact H|].
  injection H. auto.
Qed.

(** C6, as the code has it: the paths generated depend on the file name
    through the project-relative path alone; another function name gives
    another id; another path gives another id exactly when the first
    eight characters of the two digests differ. *)
Theorem C6_stable_id (digest : string -> string) (cwd : fspath)
    (relative_to_src : string -> string)
    (rp1 rp2 n1 n2 : string) (f1 f2 : option string)
    (Hlen1 : (8 <= String.length (digest (rp1 +:+ ":" +:+ n1)))%nat)
    (Hlen2 : (8 <= String.length (digest (rp2 +:+ ":" +:+ n2)))%nat) :
  (PathUtils.relativePath relative_to_src f1
   = PathUtils.relativePath relative_to_src f2 ->
   PathUtils.generatePaths digest cwd relative_to_src n1 f1
   = PathUtils.generatePaths digest cwd relative_to_src n1 f2)
  /\ (n1 <> n2 ->
      PathUtils.uniquePath digest rp1 n1 <> PathUtils.uniquePath digest rp2 n2)
  /\ (PathUtils.uniquePath digest rp1 n1 = PathUtils.uniquePath digest rp2 n1
      <-> Js.slice (digest (rp1 +:+ ":" +:+ n1)) 0 8
          = Js.slice (digest (rp2 +:+ ":" +:+ n1)) 0 8).
Proof.
  split; [|split].
  - intros H. unfold PathUtils.generatePaths. now rewrite H.
  - intros Hne Heq. unfold PathUtils.uniquePath in Heq. cbv zeta in Heq.
    assert (Hcat : forall n h, n +:+ "_" +:+ h = (n +:+ "_") +:+ h).
    { intros n h. induction n as [|c n IH]; [reflexivity|].
      change (String c (n +:+ "_" +:+ h) = String c ((n +:+ "_") +:+ h)).
      now rewrite IH. }
    rewrite !Hcat in Heq.
    apply append_inj_suffix in Heq as [Heq _].
    + apply (append_inj_suffix n1 n2 "_" "_" eq_refl) in Heq as [Heq _]. auto.
    + now rewrite !length_slice_8.
  - unfold PathUtils.uniquePath. cbv zeta. split.
    + intros H. now apply append_inj_prefix, append_inj_prefix in H.
    + intros H. now rewrite H.
Qed.

Lemma C6_stable_id_witness :
  let digest := Sha256.sha256_base64url in
  let rel := Fixture.relative_to_src in
  (PathUtils.relativePath rel (Some "/app/src/routes/+page.svelte")
   = PathUtils.relativePath rel (Some "/app/src/routes\+page.svelte") ->
   PathUtils.generatePaths digest Fixture.cwd rel "server_add"
     (Some "/app/src/routes/+page.svelte")
   = PathUtils.generatePaths digest Fixture.cwd rel "server_add"
       (Some "/app/src/routes\+page.svelte"))
  /\ ("server_add" <> "server_sub" ->
      PathUtils.uniquePath digest "routes/+page.svelte" "server_add"
      <> PathUtils.uniquePath digest "routes/+page.svelte" "server_sub")
  /\ (PathUtils.uniquePath digest "routes/+page.svelte" "server_add"
      = PathUtils.uniquePath digest "routes/+page.svelte" "server_add"
      <-> Js.slice (digest ("routes/+page.svelte" +:+ ":" +:+ "server_add")) 0 8
          = Js.slice (digest ("routes/+page.svelte" +:+ ":" +:+ "server_add")) 0 8).
Proof.
  intros digest rel.
  apply (C6_stable_id digest Fixture.cwd rel
           "routes/+page.svelte" "routes/+page.svelte"
           "server_add" "server_sub"
           (Some "/app/src/routes/+page.svelte")
           (Some "/app/src/routes\+page.svelte")).
  - vm_compute. lia.
  - vm_compute. lia.
Defined.

(** C6 as stated fails: two different project-relative paths, the same
    function name, one id. *)
Lemma C6_two_paths_one_id :
  "routes/p4169544/+page.svelte" <> "routes/p6827817/+page.svelte"
  /\ routePath (PathUtils.generatePaths Sha256.sha256_base64url Fixture.cwd
                  Fixture.relative_to_src "server_load"
                  (Some "/app/src/routes/p4169544/+page.svelte"))
     = "server_load_3Y-v0e0f"
  /\ routePath (PathUtils.generatePaths Sha256.sha256_base64url Fixture.cwd
                  Fixture.relative_to_src "server_load"
                  (Some "/app/src/routes/p6827817/+page.svelte"))
     = "server_load_3Y-v0e0f".
Proof.
  split; [discriminate|]. split; vm_compute; reflexivity.
Qed.

(** ** Endpoint emission *)

Section MkdirP.
Implicit Types (m : gmap fspath entry) (pre rest p : fspath).

Lemma apart_cons pre x rest p :
  apart pre (x :: rest) p -> p <> pre ++ [x] /\ apart (pre ++ [x]) rest p.
Proof.
  intros H. split.
  - apply H; [discriminate|]. now exists rest.
  - intros r Hr [k ->]. rewrite <- app_assoc. simpl.
    apply H; [discriminate|]. now exists k.
Qed.

Lemma mkdir_p_other pre rest : forall m m' p,
  Fs.mkdir_p pre rest m = Some m' -> apart pre rest p -> m' !! p = m !! p.
Proof.
  revert pre. induction rest as [|x rest IH]; intros pre m m' p H Hp; simpl in H.
  - now injection H as <-.
  - apply apart_cons in Hp as [Hne Hp].
    assert (Hgo : Fs.mkdir_p (pre ++ [x]) rest (<[pre ++ [x] := Dir]> m) = Some m').
    { destruct (m !! (pre ++ [x])) as [[d|]|]; [discriminate | exact H | exact H]. }
    rewrite (IH _ _ _ p Hgo Hp). now apply lookup_insert_ne.
Qed.

Lemma mkdir_p_here pre x rest m m' :
  Fs.mkdir_p (pre ++ [x]) rest (<[pre ++ [x] := Dir]> m) = Some m' ->
  m' !! (pre ++ [x]) = Some Dir.
Proof.
  intros H. rewrite (mkdir_p_other _ _ _ _ (pre ++ [x]) H).
  - apply lookup_insert_eq.
  - intros r Hr _ Heq. apply (f_equal length) in Heq.
    rewrite !length_app in Heq. destruct r; [congruence | simpl in Heq; lia].
Qed.

Lemma mkdir_p_idem pre rest : forall m m',
  Fs.mkdir_p pre rest m = Some m' -> Fs.mkdir_p pre rest m' = Some m'.
Proof.
  revert pre. induction rest as [|x rest IH]; intros pre m m' H; simpl in *.
  - reflexivity.
  - assert (Hgo : Fs.mkdir_p (pre ++ [x]) rest (<[pre ++ [x] := Dir]> m) = Some m').
    { destruct (m !! (pre ++ [x])) as [[d|]|]; [discriminate | exact H | exact H]. }
    rewrite (mkdir_p_here _ _ _ _ _ Hgo).
    rewrite insert_id by exact (mkdir_p_here _ _ _ _ _ Hgo).
    exact (IH _ _ _ Hgo).
Qed.

Lemma mkdir_p_made pre rest : forall m m',
  Fs.mkdir_p pre rest m = Some m' -> rest <> [] -> m' !! (pre ++ rest) = Some Dir.
Proof.
  revert pre. induction rest as [|x rest IH]; intros pre m m' H Hne; [congruence|].
  simpl in H.
  assert (Hgo : Fs.mkdir_p (pre ++ [x]) rest (<[pre ++ [x] := Dir]> m) = Some m').
  { destruct (m !! (pre ++ [x])) as [[d|]|]; [discriminate | exact H | exact H]. }
  destruct rest as [|y rest].
  - exact (mkdir_p_here _ _ _ _ _ Hgo).
  - replace (pre ++ x :: y :: rest) with ((pre ++ [x]) ++ y :: rest)
      by (now rewrite <- app_assoc).
    apply (IH _ _ _ Hgo). discriminate.
Qed.

Lemma mkdir_p_insert pre rest : forall m p e,
  apart pre rest p ->
  Fs.mkdir_p pre rest (<[p := e]> m) = (insert p e) <$> Fs.mkdir_p pre rest m.
Proof.
  revert pre. induction rest as [|x rest IH]; intros pre m p e Hp; simpl.
  - reflexivity.
  - apply apart_cons in Hp as [Hne Hp].
    rewrite lookup_insert_ne by congruence.
    rewrite (insert_insert_ne m) by congruence.
    destruct (m !! (pre ++ [x])) as [[d|]|]; [reflexivity | |]; now apply IH.
Qed.

(** A file is not overwritten by the directories made. *)
Lemma mkdir_p_file pre rest : forall m m' q d,
  Fs.mkdir_p pre rest m = Some m' ->
  (m' !! q = Some (File d) <-> m !! q = Some (File d)).
Proof.
  revert pre. induction rest as [|x rest IH]; intros pre m m' q d H; simpl in H.
  - now injection H as <-.
  - assert (Hgo : Fs.mkdir_p (pre ++ [x]) rest (<[pre ++ [x] := Dir]> m) = Some m'
                  /\ forall d', m !! (pre ++ [x]) <> Some (File d')).
    { destruct (m !! (pre ++ [x])) as [[d'|]|]; [discriminate | |];
        (split; [exact H | congruence]). }
    destruct Hgo as [Hgo Hnf]. rewrite (IH _ _ _ q d Hgo).
    destruct (decide (pre ++ [x] = q)) as [<-|Hne].
    + rewrite lookup_insert_eq. split; [discriminate|]. intros Hf.
      now apply Hnf in Hf.
    + now rewrite lookup_insert_ne.
Qed.
End MkdirP.

Lemma dirname_apart (p : fspath) : apart [] (Fs.dirname p) p.
Proof.
  intros r Hne [k Hk] ->. simpl in Hk. unfold Fs.dirname in Hk.
  apply (f_equal length) in Hk. rewrite length_app in Hk.
  assert (length (removelast r) < length r)%nat; [|lia].
  destruct r as [|x r _] using rev_ind; [congruence|].
  rewrite removelast_last, length_app. simpl. lia.
Qed.

Lemma dirname_made (p : fspath) m m' :
  Fs.mkdir_p [] (Fs.dirname p) m = Some m' ->
  Fs.lookup_entry m' (Fs.dirname p) = Some Dir.
Proof.
  intros H. unfold Fs.lookup_entry.
  destruct (Fs.dirname p) as [|x d] eqn:Hd; [reflexivity|].
  rewrite <- Hd in *. apply (mkdir_p_made [] _ _ _ H). rewrite Hd. discriminate.
Qed.

Section Emission.
Variable parse : string -> Root + string.
Variable digest : string -> string.
Variable cwd : fspath.
Variable relative_to_src : string -> string.

Local Abbreviation createEndpoint := (EndpointManager.createEndpoint parse).

Lemma writeFileSync_ok (p : fspath) (data : string) (w : World) :
  p <> [] ->
  Fs.lookup_entry (fs w) (Fs.dirname p) = Some Dir ->
  fs w !! p <> Some Dir ->
  Fs.writeFileSync p data w
  = (Ret tt, mkWorld (<[p := File data]> (fs w)) (console w)
                     (trace w ++ [OpWrite p data])).
Proof.
  intros Hp Hdir Hnd. unfold Fs.writeFileSync.
  destruct p as [|x p]; [congruence|]. rewrite Hdir.
  destruct (fs w !! (x :: p)) as [[d|]|]; [reflexivity | congruence | reflexivity].
Qed.

Lemma createEndpoint_run (p : fspath) (c : string) (f : ServerFunction)
    (w : World) :
  exists console',
    createEndpoint p c f w
    = (Ret tt,
       match AstUtils.extractFunctionDetails parse c f with
       | inr e => mkWorld (fs w) console' (trace w)
       | inl details =>
           mkWorld (fst (emit (fs w) p (rendered details f))) console'
                   (trace w ++ snd (emit (fs w) p (rendered details f)))
       end).
Proof.
  unfold EndpointManager.createEndpoint, try_catch, bind.
  destruct (AstUtils.extractFunctionDetails parse c f) as [details|e];
    [|eexists; reflexivity].
  simpl lift. unfold ret at 1. fold (rendered details f).
  unfold Fs.mkdirSync, emit.
  destruct (Fs.mkdir_p [] (Fs.dirname p) (fs w)) as [m'|] eqn:Hmk;
    [|eexists; unfold Console.error; cbn [fst snd]; now rewrite app_nil_r].
  unfold Fs.existsSync. cbn [fs console trace].
  destruct (Fs.lookup_entry m' p) as [[existing|]|] eqn:Hp.
  - rewrite bool_decide_eq_true_2 by eauto. cbn [negb].
    unfold Fs.readFileSync. cbn [fs]. rewrite Hp.
    destruct (String.eqb existing (rendered details f)) eqn:Heq; cbn [negb].
    + eexists. reflexivity.
    + rewrite writeFileSync_ok; cbn [fs console trace fst snd].
      * eexists. now rewrite <- app_assoc.
      * intros ->. discriminate.
      * exact (dirname_made _ _ _ Hmk).
      * destruct p; [discriminate|]. simpl in Hp. congruence.
  - rewrite bool_decide_eq_true_2 by eauto. cbn [negb].
    unfold Fs.readFileSync. cbn [fs]. rewrite Hp.
    eexists. reflexivity.
  - rewrite bool_decide_eq_false_2 by (intros [? ?]; congruence). cbn [negb].
    rewrite writeFileSync_ok; cbn [fs console trace fst snd].
    + eexists. now rewrite <- app_assoc.
    + intros ->. discriminate.
    + exact (dirname_made _ _ _ Hmk).
    + destruct p; [discriminate|]. simpl in Hp. congruence.
Qed.

(** Emitting again what was just emitted makes the directory again and
    writes nothing. *)
Lemma emit_again (m : gmap fspath entry) (p : fspath) (apiContent : string) :
  let m1 := fst (emit m p apiContent) in
  fst (emit m1 p apiContent) = m1
  /\ write_paths (snd (emit m1 p apiContent)) = [].
Proof.
  unfold emit.
  destruct (Fs.mkdir_p [] (Fs.dirname p) m) as [m'|] eqn:Hmk; cbn [fst].
  - assert (Hidem := mkdir_p_idem _ _ _ _ Hmk).
    assert (Hwritten :
      forall m2, m2 = <[p := File apiContent]> m' -> p <> [] ->
        match Fs.mkdir_p [] (Fs.dirname p) m2 with
        | Some m3 =>
            match Fs.lookup_entry m3 p with
            | Some Dir => (m3, [OpMkdir (Fs.dirname p)])
            | Some (File existing) =>
                if String.eqb existing apiContent
                then (m3, [OpMkdir (Fs.dirname p)])
                else (<[p := File apiContent]> m3,
                      [OpMkdir (Fs.dirname p); OpWrite p apiContent])
            | None =>
                (<[p := File apiContent]> m3,
                 [OpMkdir (Fs.dirname p); OpWrite p apiContent])
            end
        | None => (m2, [])
        end = (m2, [OpMkdir (Fs.dirname p)])).
    { intros m2 -> Hp.
      rewrite mkdir_p_insert by apply dirname_apart. rewrite Hidem. cbn [fmap option_fmap option_map].
      destruct p as [|x p]; [congruence|]. cbn [Fs.lookup_entry].
      rewrite lookup_insert_eq, String.eqb_refl. reflexivity. }
    destruct (Fs.lookup_entry m' p) as [[existing|]|] eqn:Hp.
    + destruct (String.eqb existing apiContent) eqn:Heq; cbn [fst].
      * rewrite Hidem, Hp, Heq. split; reflexivity.
      * rewrite Hwritten; [split; reflexivity | reflexivity |].
        intros ->. discriminate.
    + cbn [fst]. rewrite Hidem, Hp. split; reflexivity.
    + cbn [fst]. rewrite Hwritten; [split; reflexivity | reflexivity |].
      intros ->. discriminate.
  - rewrite Hmk. split; reflexivity.
Qed.

(** Nothing is written when the file is in place with the content. *)
Lemma emit_in_place (m : gmap fspath entry) (p : fspath) (apiContent : string) :
  m !! p = Some (File apiContent) ->
  write_paths (snd (emit m p apiContent)) = []
  /\ forall q d, fst (emit m p apiContent) !! q = Some (File d)
                 <-> m !! q = Some (File d).
Proof.
  intros Hfile. unfold emit.
  destruct (Fs.mkdir_p [] (Fs.dirname p) m) as [m'|] eqn:Hmk;
    [|split; [reflexivity | tauto]].
  assert (Hfiles := fun q d => mkdir_p_file [] _ _ _ q d Hmk).
  destruct p as [|x p]; [split; [reflexivity | exact Hfiles]|].
  cbn [Fs.lookup_entry]. rewrite (proj2 (Hfiles _ _) Hfile), String.eqb_refl.
  split; [reflexivity | exact Hfiles].
Qed.

Lemma silent_ret m0 : silent m0 (ret tt).
Proof.
  intros w Hw. exists w, []. rewrite app_nil_r. auto.
Qed.

Lemma write_paths_app ops1 ops2 :
  write_paths (ops1 ++ ops2) = write_paths ops1 ++ write_paths ops2.
Proof. unfold write_paths. apply omap_app. Qed.

Lemma silent_for_each {A} m0 (f : A -> M unit) (l : list A) :
  (forall x, x ∈ l -> silent m0 (f x)) -> silent m0 (for_each f l).
Proof.
  induction l as [|x l IH]; intros Hf; simpl.
  - apply silent_ret.
  - intros w Hw. unfold bind.
    destruct (Hf x (list_elem_of_here _ _) w Hw)
      as [w1 [ops1 [-> [Hw1 [Ht1 Hq1]]]]].
    destruct (IH (fun y Hy => Hf y (list_elem_of_further _ _ _ Hy)) w1 Hw1)
      as [w2 [ops2 [-> [Hw2 [Ht2 Hq2]]]]].
    exists w2, (ops1 ++ ops2). repeat split; try apply Hw2.
    + now rewrite Ht2, Ht1, app_assoc.
    + now rewrite write_paths_app, Hq1, Hq2.
Qed.

Lemma silent_warn m0 line : silent m0 (Console.warn line).
Proof.
  intros w Hw. eexists _, []. split; [reflexivity|].
  cbn [fs trace]. rewrite app_nil_r. auto.
Qed.

Lemma silent_createEndpoint m0 (p : fspath) (c : string) (f : ServerFunction) :
  (forall details,
     AstUtils.extractFunctionDetails parse c f = inl details ->
     m0 !! p = Some (File (rendered details f))) ->
  silent m0 (createEndpoint p c f).
Proof.
  intros Hplace w Hw.
  destruct (createEndpoint_run p c f w) as [console' ->].
  destruct (AstUtils.extractFunctionDetails parse c f) as [details|e].
  - assert (Hfile : fs w !! p = Some (File (rendered details f)))
      by (apply Hw; eauto).
    destruct (emit_in_place _ _ _ Hfile) as [Hq Hfiles].
    eexists _, _. split; [reflexivity|]. cbn [fs trace].
    repeat split; try exact Hq.
    + intros H. apply Hw, Hfiles, H.
    + intros H. apply Hfiles, Hw, H.
  - eexists _, []. split; [reflexivity|]. cbn [fs trace].
    rewrite app_nil_r. auto.
Qed.

Local Abbreviation processFile :=
  (EndpointManager.processFile parse digest cwd relative_to_src).
Local Abbreviation scanAndCreateEndpoints :=
  (EndpointManager.scanAndCreateEndpoints parse digest cwd relative_to_src).

Lemma silent_processFile m0 (q : fspath) :
  Forall (fun job => m0 !! fst job = Some (File (snd job)))
         (jobs parse digest cwd relative_to_src m0 q) ->
  silent m0 (processFile q).
Proof.
  intros Hjobs w Hw.
  unfold EndpointManager.processFile, try_catch, bind at 1, Fs.readFileSync.
  destruct (Fs.lookup_entry (fs w) q) as [[c|]|] eqn:Hq;
    try (apply silent_warn; exact Hw).
  assert (Hq0 : Fs.lookup_entry m0 q = Some (File c)).
  { destruct q; [discriminate|]. simpl in *. now apply Hw. }
  unfold jobs in Hjobs. rewrite Hq0 in Hjobs.
  destruct (Js.includes c "async function server_"); cbn [negb];
    [|apply silent_ret; exact Hw].
  unfold bind at 1.
  destruct (parse c) as [tree|e]; simpl lift;
    [|apply silent_warn; exact Hw].
  unfold ret at 1.
  assert (Hall : silent m0
            (for_each
               (fun func =>
                  createEndpoint
                    (apiPath (PathUtils.generatePaths digest cwd
                                relative_to_src (sf_name func)
                                (Some (Fs.render q))))
                    c func)
               (AstUtils.findServerFunctions tree))).
  { apply silent_for_each. intros func Hfunc.
    apply silent_createEndpoint. intros details Hdetails.
    rewrite Forall_forall in Hjobs.
    apply (Hjobs (apiPath (PathUtils.generatePaths digest cwd relative_to_src
                             (sf_name func) (Some (Fs.render q))),
                  rendered details func)).
    apply list_elem_of_omap. exists func.
    split; [exact Hfunc | now rewrite Hdetails]. }
  destruct (Hall w Hw) as [w' [ops [-> H]]]. eauto.
Qed.

Lemma writes_since_app (w w' : World) ops :
  trace w' = trace w ++ ops -> writes_since w w' = write_paths ops.
Proof.
  intros H. unfold writes_since. rewrite H.
  now rewrite drop_app_length.
Qed.

Lemma scan_in_place (w : World) :
  endpoints_in_place parse digest cwd relative_to_src w ->
  exists w' ops,
    scanAndCreateEndpoints w = (Ret tt, w')
    /\ trace w' = trace w ++ ops /\ write_paths ops = [].
Proof.
  intros Hplace.
  unfold endpoints_in_place, documents in Hplace.
  unfold EndpointManager.scanAndCreateEndpoints, try_catch, bind.
  unfold Fs.readdirSync_recursive in *.
  destruct (Fs.lookup_entry (fs w) (EndpointManager.srcDir cwd)) as [[d|]|];
    try (eexists _, []; split; [reflexivity|]; cbn [trace];
         now rewrite app_nil_r).
  set (files := omap _ _) in *.
  assert (Hall : silent (fs w)
            (for_each
               (fun file =>
                  if Js.endsWith (Js.join "/" file) ".svelte"
                  then processFile (EndpointManager.srcDir cwd ++ file)
                  else ret tt)
               files)).
  { apply silent_for_each. intros file Hfile.
    destruct (Js.endsWith (Js.join "/" file) ".svelte") eqn:Hends;
      [|apply silent_ret].
    apply silent_processFile, Hplace, list_elem_of_fmap.
    exists file. split; [reflexivity|].
    apply list_elem_of_In, filter_In.
    split; [now apply list_elem_of_In | exact Hends]. }
  destruct (Hall w) as [w' [ops [-> [_ [Ht Hq]]]]]; [now intros q0 d0|].
  eauto.
Qed.

(** C8, as the code has it: [createEndpoint] writes the endpoint file
    only when it is missing or its content differs from the rendered
    one; emitting an endpoint a second time writes nothing and leaves the
    disk as it is; and a scan over a project whose endpoint files are in
    place with the rendered content writes no file. *)
Theorem C8_written_only_on_difference (p : fspath) (c : string)
    (f : ServerFunction) (w : World) :
  (forall details,
     AstUtils.extractFunctionDetails parse c f = inl details ->
     fs w !! p = Some (File (rendered details f)) ->
     writes_since w (snd (createEndpoint p c f w)) = [])
  /\ (let w1 := snd (createEndpoint p c f w) in
      let w2 := snd (createEndpoint p c f w1) in
      writes_since w1 w2 = [] /\ fs w2 = fs w1)
  /\ (endpoints_in_place parse digest cwd relative_to_src w ->
      writes_since w (snd (scanAndCreateEndpoints w)) = []).
Proof.
  split; [|split].
  - intros details Hdetails Hfile.
    destruct (createEndpoint_run p c f w) as [console' ->].
    rewrite Hdetails. cbn [snd].
    rewrite (writes_since_app _ _ (snd (emit (fs w) p (rendered details f))))
      by reflexivity.
    now apply emit_in_place.
  - cbv zeta.
    destruct (createEndpoint_run p c f w) as [console1 ->]. cbn [snd].
    set (w1 := match AstUtils.extractFunctionDetails parse c f with
               | inl _ => _ | inr _ => _ end).
    destruct (createEndpoint_run p c f w1) as [console2 ->]. cbn [snd].
    subst w1.
    destruct (AstUtils.extractFunctionDetails parse c f) as [details|e];
      cbn [fs trace].
    + destruct (emit_again (fs w) p (rendered details f)) as [Hfs Hq].
      split; [|exact Hfs].
      now rewrite (writes_since_app _ _ (snd (emit (fst (emit (fs w) p (rendered details f))) p (rendered details f)))).
    + split; [|reflexivity].
      rewrite (writes_since_app _ _ []); [reflexivity|].
      cbn [trace]. now rewrite app_nil_r.
  - intros Hplace.
    destruct (scan_in_place w Hplace) as [w' [ops [-> [Ht Hq]]]]. cbn [snd].
    now rewrite (writes_since_app _ _ ops).
Qed.
End Emission.

Lemma scanned_project_in_place :
  endpoints_in_place Fixture.parseAdd Sha256.sha256_base64url Fixture.cwd
    Fixture.relative_to_src (Fixture.scan Fixture.project).
Proof.
  intros q Hq.
  assert (Hdocs : documents Fixture.cwd (Fixture.scan Fixture.project)
                  = [Fixture.pagePath])
    by (vm_compute; reflexivity).
  rewrite Hdocs in Hq. apply list_elem_of_singleton in Hq as ->.
  assert (Hjobs : exists ac,
             jobs Fixture.parseAdd Sha256.sha256_base64url Fixture.cwd
               Fixture.relative_to_src (fs (Fixture.scan Fixture.project))
               Fixture.pagePath
             = [(Fixture.addEndpoint, ac)]
             /\ fs (Fixture.scan Fixture.project) !! Fixture.addEndpoint
                = Some (File ac))
    by (eexists; split; vm_compute; reflexivity).
  destruct Hjobs as [ac [Hjobs Hfile]]. rewrite Hjobs.
  constructor; [exact Hfile | constructor].
Qed.

Lemma C8_written_only_on_difference_witness :
  endpoints_in_place Fixture.parseAdd Sha256.sha256_base64url Fixture.cwd
    Fixture.relative_to_src (Fixture.scan Fixture.project)
  /\ (forall details,
        AstUtils.extractFunctionDetails Fixture.parseAdd Fixture.docAdd
          (server_function_of Fixture.astAdd_fn) = inl details ->
        fs (Fixture.scan Fixture.project) !! Fixture.addEndpoint
        = Some (File (rendered details (server_function_of Fixture.astAdd_fn))) ->
        writes_since (Fixture.scan Fixture.project)
          (snd (EndpointManager.createEndpoint Fixture.parseAdd
                  Fixture.addEndpoint Fixture.docAdd
                  (server_function_of Fixture.astAdd_fn)
                  (Fixture.scan Fixture.project))) = [])
  /\ (let w1 :=
        snd (EndpointManager.createEndpoint Fixture.parseAdd
               Fixture.addEndpoint Fixture.docAdd
               (server_function_of Fixture.astAdd_fn)
               (Fixture.scan Fixture.project)) in
      let w2 :=
        snd (EndpointManager.createEndpoint Fixture.parseAdd
               Fixture.addEndpoint Fixture.docAdd
               (server_function_of Fixture.astAdd_fn) w1) in
      writes_since w1 w2 = [] /\ fs w2 = fs w1)
  /\ writes_since (Fixture.scan Fixture.project)
       (snd (EndpointManager.scanAndCreateEndpoints Fixture.parseAdd
               Sha256.sha256_base64url Fixture.cwd Fixture.relative_to_src
               (Fixture.scan Fixture.project))) = [].
Proof.
  split; [exact scanned_project_in_place|].
  destruct (C8_written_only_on_difference Fixture.parseAdd
              Sha256.sha256_base64url Fixture.cwd Fixture.relative_to_src
              Fixture.addEndpoint Fixture.docAdd
              (server_function_of Fixture.astAdd_fn)
              (Fixture.scan Fixture.project)) as [H1 [H2 H3]].
  split; [exact H1|]. split; [exact H2|].
  exact (H3 scanned_project_in_place).
Defined.

(** C8 as stated fails: the startup sweep begins with the cleanup, which
    removes the endpoint directory the first sweep made, so the second
    sweep over the unchanged project writes the endpoint file again; the
    scan alone would not. *)
Lemma C8_second_sweep_writes_again :
  let w1 := Fixture.sweep Fixture.project in
  let w2 := Fixture.sweep w1 in
  fs w1 !! Fixture.pagePath = fs Fixture.project !! Fixture.pagePath
  /\ writes_since Fixture.project w1 = [Fixture.addEndpoint]
  /\ writes_since w1 w2 = [Fixture.addEndpoint]
  /\ writes_since w1 (Fixture.scan w1) = [].
Proof.
  split; [|split; [|split]]; vm_compute; reflexivity.
Qed.

(** ** The fixtures *)

(** The trees of the fixtures are placed consistently in their
    documents. *)
Example fixtures_well_placed :
  forallb (fun da => Fixture.tree_well_placed (fst da) (snd da))
    [(Fixture.docStale, Fixture.astStale);
     (Fixture.docNested, Fixture.astNested);
     (Fixture.docTwo, Fixture.astTwo);
     (Fixture.docTwoMid, Fixture.astTwoMid);
     (Fixture.docImports, Fixture.astImports);
     (Fixture.docImportsMid, Fixture.astImportsMid);
     (Fixture.docInner, Fixture.astInner);
     (Fixture.docPlain, Fixture.astPlain);
     (Fixture.docAdd, Fixture.astAdd);
     (Fixture.docSum, Fixture.astSum);
     (Fixture.outSum, Fixture.astSumOut)] = true.
Proof. vm_compute. reflexivity. Qed.

Example more_fixtures_well_placed :
  forallb (fun da => Fixture.tree_well_placed (fst da) (snd da))
    [(Fixture.docLet, Fixture.astLet);
     (Fixture.docLetMid, Fixture.astLetMid);
     (Fixture.outLet, Fixture.astOutLet);
     (Fixture.outLetAgain, Fixture.astOutLetAgain)] = true.
Proof. vm_compute. reflexivity. Qed.

(** Scenario A of the specification: the call in the markup becomes a
    fetch call to the route of [server_add] with the two arguments keyed
    by position, the declaration is removed, and nothing is logged. *)
Example scenario_A :
  transformFile Fixture.parseSum Sha256.sha256_base64url Fixture.cwd
    Fixture.relative_to_src Fixture.docSum Fixture.page Fixture.world0
  = (Ret (mkResult Fixture.outSum), Fixture.world0)
  /\ Js.includes Fixture.sumFetch
       ("body: JSON.stringify({" +:+ dquote +:+ "0" +:+ dquote +:+ ": 1,"
        +:+ dquote +:+ "1" +:+ dquote +:+ ": 2})") = true
  /\ occurrences Fixture.outSum "fetch('/api/server_add_RCLzz6g7'" = 1%nat
  /\ Js.includes Fixture.outSum "server_add(" = false.
Proof. split; [|split; [|split]]; vm_compute; reflexivity. Qed.

(** * Further properties of the code *)

(** ** Strings as lists of code units *)

Lemma chars_append (a b : string) : chars (a +:+ b) = chars a ++ chars b.
Proof.
  induction a as [|c a IH]; [reflexivity|].
  rewrite append_cons. simpl. now rewrite <- IH.
Qed.

Lemma chars_inj (a b : string) : chars a = chars b -> a = b.
Proof.
  intros H. rewrite <- (string_of_list_ascii_of_string a),
    <- (string_of_list_ascii_of_string b). unfold chars in H. now rewrite H.
Qed.

Lemma length_chars (s : string) : length (chars s) = String.length s.
Proof. induction s as [|c s IH]; simpl; [reflexivity | now rewrite IH]. Qed.

Lemma chars_substring (s : string) : forall n m,
  chars (String.substring n m s) = take m (drop n (chars s)).
Proof.
  induction s as [|c s IH]; intros [|n] [|m]; simpl; rewrite ?IH;
    reflexivity.
Qed.

(** [slice] between offsets inside the string. *)
Lemma chars_slice (s : string) (a b : Z) :
  0 <= a -> a <= b -> b <= Z.of_nat (String.length s) ->
  chars (Js.slice s a b)
  = take (Z.to_nat b - Z.to_nat a) (drop (Z.to_nat a) (chars s)).
Proof.
  intros Ha Hab Hb. unfold Js.slice.
  destruct (a <? 0) eqn:Ea; [apply Z.ltb_lt in Ea; lia|].
  destruct (b <? 0) eqn:Eb; [apply Z.ltb_lt in Eb; lia|].
  rewrite chars_substring, !Z.min_l by lia.
  now rewrite Z2Nat.inj_sub by lia.
Qed.

Lemma chars_slice_from (s : string) (a : Z) :
  0 <= a -> a <= Z.of_nat (String.length s) ->
  chars (Js.slice_from s a) = drop (Z.to_nat a) (chars s).
Proof.
  intros Ha Hb. unfold Js.slice_from. rewrite chars_slice by lia.
  rewrite Nat2Z.id. apply take_ge. rewrite length_drop, length_chars. lia.
Qed.

(** ** White space at the ends *)

Lemma trimStart_spec (s : string) :
  exists ws, all_space ws = true /\ s = ws +:+ Js.trimStart s
             /\ starts_with_space (Js.trimStart s) = false.
Proof.
  induction s as [|c s [ws [Hws [Hs Hst]]]].
  - exists "". auto.
  - simpl. destruct (Js.is_space c) eqn:Hc.
    + exists (String c ws). rewrite append_cons, <- Hs.
      unfold all_space in *. simpl. rewrite Hc. auto.
    + exists "". simpl. rewrite Hc. auto.
Qed.

Lemma ends_with_space_cons (c d : ascii) (s : string) :
  ends_with_space (String c (String d s)) = ends_with_space (String d s).
Proof. reflexivity. Qed.

Lemma trimEnd_spec (s : string) :
  exists ws, all_space ws = true /\ s = Js.trimEnd s +:+ ws
             /\ ends_with_space (Js.trimEnd s) = false.
Proof.
  induction s as [|c s [ws [Hws [Hs Hend]]]].
  - exists "". auto.
  - simpl. destruct (Js.trimEnd s) as [|d t] eqn:Ht.
    + rewrite append_nil in Hs. subst ws.
      destruct (Js.is_space c) eqn:Hc.
      * exists (String c s). unfold all_space in *. simpl. rewrite Hc. auto.
      * exists s. unfold ends_with_space. simpl. rewrite Hc. auto.
    + exists ws. rewrite append_cons, <- Hs, ends_with_space_cons. auto.
Qed.

(** Trimming an already trimmed string changes nothing. *)
Lemma trimStart_fixed (s : string) :
  starts_with_space s = false -> Js.trimStart s = s.
Proof. destruct s as [|c s]; simpl; [reflexivity | now intros ->]. Qed.

Lemma all_space_append (a b : string) :
  all_space (a +:+ b) = (all_space a && all_space b)%bool.
Proof. unfold all_space. now rewrite chars_append, forallb_app. Qed.

(** ** Splicing *)

Lemma substring_glue (s : string) (k : nat) :
  (k <= String.length s)%nat ->
  String.substring 0 k s +:+ String.substring k (String.length s - k) s = s.
Proof.
  intros Hk. apply chars_inj.
  rewrite chars_append, !chars_substring. simpl drop.
  rewrite (take_ge (drop k (chars s)))
    by (rewrite length_drop, length_chars; lia).
  apply take_drop.
Qed.

(** Cutting a text at any offset, negative or past the end, and gluing
    the two slices gives the text back. *)
Lemma slice_glue (s : string) (a : Z) : Js.slice s 0 a +:+ Js.slice_from s a = s.
Proof.
  unfold Js.slice_from, Js.slice.
  change (0 <? 0) with false. cbv iota.
  destruct (Z.of_nat (String.length s) <? 0) eqn:El;
    [apply Z.ltb_lt in El; lia|].
  rewrite Z.min_id, (Z.min_l 0) by lia. rewrite Z.sub_0_r.
  set (k := if a <? 0 then Z.max (Z.of_nat (String.length s) + a) 0
            else Z.min a (Z.of_nat (String.length s))).
  assert (Hk : 0 <= k <= Z.of_nat (String.length s)).
  { subst k. destruct (a <? 0) eqn:Ea;
      [apply Z.ltb_lt in Ea | apply Z.ltb_ge in Ea]; lia. }
  change (Z.to_nat 0) with O.
  replace (Z.to_nat (Z.of_nat (String.length s) - k))
    with (String.length s - Z.to_nat k)%nat by lia.
  apply substring_glue. lia.
Qed.

Lemma zlen_chars (s : string) : Z.of_nat (length (chars s)) = zlen s.
Proof. unfold zlen. now rewrite length_chars. Qed.

Lemma zlen_append (a b : string) : zlen (a +:+ b) = zlen a + zlen b.
Proof. unfold zlen. rewrite length_append. lia. Qed.

Lemma zlen_slice (s : string) (a b : Z) :
  0 <= a -> a <= b -> b <= zlen s -> zlen (Js.slice s a b) = b - a.
Proof.
  intros Ha Hab Hb. rewrite <- zlen_chars, chars_slice by assumption.
  rewrite length_take, length_drop, length_chars. unfold zlen in Hb. lia.
Qed.

(** A slice that ends inside the first part of a concatenation is a
    slice of that part. *)
Lemma slice_append_l (p q : string) (x y : Z) :
  0 <= x -> x <= y -> y <= zlen p -> Js.slice (p +:+ q) x y = Js.slice p x y.
Proof.
  intros Hx Hxy Hy. apply chars_inj. unfold zlen in *.
  rewrite !chars_slice by (rewrite ?length_append; lia).
  rewrite chars_append, drop_app_le by (rewrite length_chars; lia).
  apply take_app_le. rewrite length_drop, length_chars. lia.
Qed.

Lemma slice_slice_prefix (s : string) (a x y : Z) :
  0 <= x -> x <= y -> y <= a -> a <= zlen s ->
  Js.slice (Js.slice s 0 a) x y = Js.slice s x y.
Proof.
  intros Hx Hxy Hy Ha. apply chars_inj.
  rewrite (chars_slice (Js.slice s 0 a))
    by (fold (zlen (Js.slice s 0 a)); rewrite ?zlen_slice; lia).
  rewrite !chars_slice by (unfold zlen in *; lia).
  rewrite !take_drop_commute, take_take. change (Z.to_nat 0) with O.
  rewrite Nat.min_l by lia. reflexivity.
Qed.

Lemma slice_from_append (p q : string) : Js.slice_from (p +:+ q) (zlen p) = q.
Proof.
  apply chars_inj. unfold zlen.
  rewrite chars_slice_from by (rewrite ?length_append; lia).
  rewrite chars_append, Nat2Z.id, <- length_chars. apply drop_app_length.
Qed.

(** Replacing a call at a span inside the text keeps the text before the
    call where it was, so that a span ending at or before the call's
    start still reads the same; the text after the call follows the
    fetch call; the length changes by the difference between the fetch
    call and the call. *)
Theorem replace_call_keeps_the_rest (routePath_ c : string)
    (call : FunctionCall)
    (Hstart : 0 <= call_start call)
    (Hspan : call_start call <= call_end call)
    (Hend : call_end call <= zlen c) :
  let result := ServerFunctionTransformer.replace_call routePath_ c call in
  let fetchCall :=
    ServerFunctionTransformer.generateFetchCall routePath_
      (Js.slice c (span_start (call_arguments call))
                  (span_end (call_arguments call))) in
  (forall x y, 0 <= x -> x <= y -> y <= call_start call ->
               Js.slice result x y = Js.slice c x y)
  /\ Js.slice_from result (call_start call + zlen fetchCall)
     = Js.slice_from c (call_end call)
  /\ zlen result
     = zlen c - (call_end call - call_start call) + zlen fetchCall.
Proof.
  intros result fetchCall.
  assert (Hres : result
                 = Js.slice c 0 (call_start call)
                   +:+ fetchCall +:+ Js.slice_from c (call_end call))
    by reflexivity.
  assert (Hpre : zlen (Js.slice c 0 (call_start call)) = call_start call)
    by (rewrite zlen_slice; lia).
  split; [|split].
  - intros x y Hx Hxy Hy. rewrite Hres.
    rewrite slice_append_l by lia. apply slice_slice_prefix; lia.
  - rewrite Hres.
    assert (Hassoc : forall a b d : string, a +:+ b +:+ d = (a +:+ b) +:+ d).
    { intros a b d. apply chars_inj. rewrite !chars_append. apply app_assoc. }
    rewrite Hassoc.
    replace (call_start call + zlen fetchCall)
      with (zlen (Js.slice c 0 (call_start call) +:+ fetchCall))
      by (rewrite zlen_append; lia).
    apply slice_from_append.
  - rewrite Hres, !zlen_append, Hpre.
    unfold Js.slice_from. fold (zlen c). rewrite zlen_slice; lia.
Qed.

(** Removing a span keeps the text on both sides of it but for the white
    space that touches the span, and puts one line break in its place;
    the text that is kept before the span stays where it was. *)
Theorem cut_loses_only_white_space (c : string) (start end_ : Z) :
  exists before after ws1 ws2,
    ServerFunctionTransformer.cut c start end_ = before +:+ nl +:+ after
    /\ Js.slice c 0 start = before +:+ ws1
    /\ Js.slice_from c end_ = ws2 +:+ after
    /\ all_space ws1 = true /\ all_space ws2 = true
    /\ ends_with_space before = false /\ starts_with_space after = false
    /\ forall x y, 0 <= x -> x <= y -> y <= zlen before ->
         Js.slice (ServerFunctionTransformer.cut c start end_) x y
         = Js.slice (Js.slice c 0 start) x y.
Proof.
  destruct (trimEnd_spec (Js.slice c 0 start)) as [ws1 [Hws1 [Hs1 He1]]].
  destruct (trimStart_spec (Js.slice_from c end_)) as [ws2 [Hws2 [Hs2 He2]]].
  exists (Js.trimEnd (Js.slice c 0 start)),
         (Js.trimStart (Js.slice_from c end_)), ws1, ws2.
  repeat split; auto.
  intros x y Hx Hxy Hy. unfold ServerFunctionTransformer.cut.
  rewrite slice_append_l by lia.
  rewrite Hs1 at 2. now rewrite slice_append_l by lia.
Qed.

(** ** The payload of a fetch call *)

Lemma split_nonempty (c : ascii) (s : string) : Js.split c s <> [].
Proof.
  destruct s as [|x r]; simpl; [discriminate|].
  destruct (Ascii.eqb x c); [discriminate|].
  destruct (Js.split c r); discriminate.
Qed.

Lemma length_split (c : ascii) (s : string) :
  length (Js.split c s) = S (count_char c s).
Proof.
  induction s as [|x r IH]; simpl; [reflexivity|].
  destruct (Ascii.eqb x c); simpl; [now rewrite IH|].
  destruct (Js.split c r) as [|h t] eqn:Hs; [now apply split_nonempty in Hs|].
  simpl in *. exact IH.
Qed.

(** Joining the pieces with the separator gives the text back. *)
Lemma join_split (c : ascii) (s : string) :
  Js.join (String c EmptyString) (Js.split c s) = s.
Proof.
  unfold Js.join. induction s as [|x r IH]; simpl; [reflexivity|].
  destruct (Ascii.eqb_spec x c) as [->|Hne].
  - destruct (Js.split c r) as [|h t] eqn:Hs; [now apply split_nonempty in Hs|].
    simpl in *. now rewrite IH.
  - destruct (Js.split c r) as [|h t] eqn:Hs; [now apply split_nonempty in Hs|].
    simpl in *. destruct t; simpl in *; now rewrite <- IH.
Qed.

Lemma imap_lookup_entry {A B} (f : nat -> A -> B) (l : list A) (i : nat) (x : A) :
  l !! i = Some x -> imap f l !! i = Some (f i x).
Proof. intros H. now rewrite list_lookup_imap, H. Qed.

Lemma append_assoc (a b d : string) : (a +:+ b) +:+ d = a +:+ b +:+ d.
Proof.
  apply chars_inj. rewrite !chars_append. symmetry. apply app_assoc.
Qed.

Lemma payload_regrouped (J T : string) :
  "        body: JSON.stringify(" +:+ ("{" +:+ J +:+ "}") +:+ ")" +:+ T
  = "        body: " +:+ "JSON.stringify({" +:+ J +:+ "})" +:+ T.
Proof.
  apply chars_inj. rewrite !chars_append. simpl.
  rewrite <- !app_assoc. reflexivity.
Qed.

(** The payload of a fetch call is built from the argument text by
    splitting it at every comma: text with [k] commas gives [k + 1]
    entries, the [i]-th being the trimmed [i]-th piece under the key
    ["i"], whatever brackets or quotes the commas stand in; blank
    argument text gives the payload of a call without arguments. *)
Theorem fetch_payload_entries (routePath_ params : string) :
  (Js.trim params <> "" ->
   exists entries head tail,
     ServerFunctionTransformer.generateFetchCall routePath_ params
     = head +:+ "JSON.stringify({" +:+ Js.join "," entries +:+ "})" +:+ tail
     /\ length entries = S (count_char "," params)
     /\ forall i piece,
          Js.split "," params !! i = Some piece ->
          entries !! i
          = Some (dquote +:+ Js.of_nat i +:+ dquote +:+ ": " +:+ Js.trim piece))
  /\ (Js.trim params = "" ->
      ServerFunctionTransformer.generateFetchCall routePath_ params
      = ServerFunctionTransformer.generateFetchCall routePath_ "").
Proof.
  split.
  - intros Hargs.
    exists (imap (fun i p => dquote +:+ Js.of_nat i +:+ dquote +:+ ": "
                             +:+ Js.trim p) (Js.split "," params)).
    exists ("fetch('/api/" +:+ routePath_ +:+ "', {" +:+ nl
            +:+ "        method: 'POST'," +:+ nl
            +:+ "        headers: { 'Content-Type': 'application/json' },"
            +:+ nl +:+ "        body: ").
    eexists. split; [|split].
    + unfold ServerFunctionTransformer.generateFetchCall.
      destruct (String.eqb_spec (Js.trim params) "") as [H|_]; [congruence|].
      cbn [negb]. rewrite payload_regrouped, !append_assoc. reflexivity.
    + now rewrite length_imap, length_split.
    + intros i piece Hi.
      now apply (imap_lookup_entry
                   (fun i p => dquote +:+ Js.of_nat i +:+ dquote +:+ ": "
                               +:+ Js.trim p)).
  - intros Hblank. unfold ServerFunctionTransformer.generateFetchCall.
    now rewrite Hblank.
Qed.

Lemma fetch_payload_entries_witness :
  Js.trim "[1,2], 3" <> ""
  /\ exists entries head tail,
       ServerFunctionTransformer.generateFetchCall "server_add_RCLzz6g7"
         "[1,2], 3"
       = head +:+ "JSON.stringify({" +:+ Js.join "," entries +:+ "})" +:+ tail
       /\ length entries = S (count_char "," "[1,2], 3")
       /\ forall i piece,
            Js.split "," "[1,2], 3" !! i = Some piece ->
            entries !! i
            = Some (dquote +:+ Js.of_nat i +:+ dquote +:+ ": "
                    +:+ Js.trim piece).
Proof.
  assert (Hargs : Js.trim "[1,2], 3" <> "") by discriminate.
  split; [exact Hargs|].
  exact (proj1 (fetch_payload_entries "server_add_RCLzz6g7" "[1,2], 3") Hargs).
Defined.

(** Scenario B of the specification: the comma inside the array literal
    splits the first argument in two. *)
Example scenario_B :
  Js.includes
    (ServerFunctionTransformer.generateFetchCall "server_add_RCLzz6g7"
       "[1,2], 3")
    ("JSON.stringify({" +:+ dquote +:+ "0" +:+ dquote +:+ ": [1,"
     +:+ dquote +:+ "1" +:+ dquote +:+ ": 2],"
     +:+ dquote +:+ "2" +:+ dquote +:+ ": 3})") = true.
Proof. vm_compute. reflexivity. Qed.

(** ** The fast path of the transform *)

(** A document without a file name, with a name that does not end in
    [.svelte], with a name that mentions [.svelte-kit] or
    [node_modules], or a text without the marker [async function
    server_] is returned as it is: nothing is logged, and [parse] is not
    consulted, since the result is the same whatever [parse] is. *)
Theorem transformFile_skips (parse : string -> Root + string)
    (digest : string -> string) (cwd : fspath)
    (relative_to_src : string -> string)
    (content_ : string) (filename : option string) (w : World)
    (Hskip : filename = None
             \/ (exists f, filename = Some f
                           /\ (Js.endsWith f ".svelte" = false
                               \/ Js.includes f ".svelte-kit" = true
                               \/ Js.includes f "node_modules" = true))
             \/ Js.includes content_ "async function server_" = false) :
  transformFile parse digest cwd relative_to_src content_ filename w
  = (Ret (mkResult content_), w).
Proof.
  unfold transformFile, try_catch.
  assert (Hcond : (isSkippableFile filename
                   || negb (Js.includes content_ "async function server_"))%bool
                  = true).
  { destruct Hskip as [->|[[f [-> Hf]]|Hmark]].
    - reflexivity.
    - apply orb_true_iff. left. unfold isSkippableFile.
      destruct Hf as [Hends|[Hkit|Hmod]].
      + rewrite Hends. simpl. now rewrite orb_true_r.
      + destruct (_ || _)%bool; [reflexivity|]. simpl. now rewrite Hkit.
      + destruct (_ || _)%bool; [reflexivity|]. simpl. rewrite Hmod.
        now rewrite orb_true_r.
    - rewrite Hmark. apply orb_true_r. }
  now rewrite Hcond.
Qed.

Lemma transformFile_skips_witness :
  (Some "/app/node_modules/ui/Button.svelte" = None
   \/ (exists f, Some "/app/node_modules/ui/Button.svelte" = Some f
                 /\ (Js.endsWith f ".svelte" = false
                     \/ Js.includes f ".svelte-kit" = true
                     \/ Js.includes f "node_modules" = true))
   \/ Js.includes Fixture.docAdd "async function server_" = false)
  /\ transformFile Fixture.parseAdd Sha256.sha256_base64url Fixture.cwd
       Fixture.relative_to_src Fixture.docAdd
       (Some "/app/node_modules/ui/Button.svelte") Fixture.world0
     = (Ret (mkResult Fixture.docAdd), Fixture.world0).
Proof.
  assert (Hskip :
    Some "/app/node_modules/ui/Button.svelte" = None
    \/ (exists f, Some "/app/node_modules/ui/Button.svelte" = Some f
                  /\ (Js.endsWith f ".svelte" = false
                      \/ Js.includes f ".svelte-kit" = true
                      \/ Js.includes f "node_modules" = true))
    \/ Js.includes Fixture.docAdd "async function server_" = false).
  { right. left. eexists. split; [reflexivity|]. right. right. reflexivity. }
  split; [exact Hskip|].
  exact (transformFile_skips Fixture.parseAdd Sha256.sha256_base64url
           Fixture.cwd Fixture.relative_to_src Fixture.docAdd
           (Some "/app/node_modules/ui/Button.svelte") Fixture.world0 Hskip).
Defined.

(** ** The shape of the generated paths *)

Lemma prefix_append (p a b : string) :
  String.prefix p a = true -> String.prefix p (a +:+ b) = true.
Proof.
  revert a. induction p as [|c p IH]; intros a H; [now destruct (a +:+ b)|].
  destruct a as [|d a]; [discriminate|].
  rewrite append_cons. simpl in *.
  destruct (ascii_dec c d); [now apply IH | discriminate].
Qed.

Lemma prefix_refl (p : string) : String.prefix p p = true.
Proof.
  induction p as [|c p IH]; [reflexivity|]. simpl.
  destruct (ascii_dec c c); [exact IH | congruence].
Qed.

Lemma removelast_two {A} (l : list A) (x y : A) :
  removelast (l ++ [x; y]) = l ++ [x].
Proof.
  change [x; y] with ([x] ++ [y]). rewrite app_assoc.
  apply removelast_last.
Qed.

(** The endpoint of a function is the file [+server.ts] in a directory of
    [src/routes/api] named after the route; the route begins with the
    function name, so it begins with whatever the name begins with, and a
    function named [server_...] gets a directory the cleanup recognises;
    a missing or empty file name stands for the path [unknown]. *)
Theorem generated_paths_shape (digest : string -> string) (cwd : fspath)
    (relative_to_src : string -> string)
    (functionName : string) (filename : option string) :
  let paths :=
    PathUtils.generatePaths digest cwd relative_to_src functionName filename in
  apiPath paths = EndpointManager.apiDir cwd ++ [routePath paths; "+server.ts"]
  /\ Fs.dirname (apiPath paths) = EndpointManager.apiDir cwd ++ [routePath paths]
  /\ (forall p, Js.startsWith functionName p = true ->
                Js.startsWith (routePath paths) p = true)
  /\ (truthy filename = false ->
      paths
      = mkPathResult
          (EndpointManager.apiDir cwd
           ++ [PathUtils.uniquePath digest "unknown" functionName;
               "+server.ts"])
          (PathUtils.uniquePath digest "unknown" functionName)).
Proof.
  intros paths. subst paths.
  unfold PathUtils.generatePaths, EndpointManager.apiDir. cbn [apiPath routePath].
  split; [|split; [|split]].
  - now rewrite <- app_assoc.
  - unfold Fs.dirname.
    replace (cwd ++ ["src"; "routes"; "api";
                     PathUtils.uniquePath digest
                       (PathUtils.relativePath relative_to_src filename)
                       functionName; "+server.ts"])
      with ((cwd ++ ["src"; "routes"; "api"])
            ++ [PathUtils.uniquePath digest
                  (PathUtils.relativePath relative_to_src filename)
                  functionName; "+server.ts"])
      by (now rewrite <- app_assoc).
    apply removelast_two.
  - intros p Hp. unfold Js.startsWith, PathUtils.uniquePath in *. cbv zeta.
    now apply prefix_append.
  - intros Hfalsy. unfold PathUtils.relativePath.
    destruct filename as [f|]; [rewrite Hfalsy|]; now rewrite <- app_assoc.
Qed.

Lemma generated_paths_shape_witness :
  let paths :=
    PathUtils.generatePaths Sha256.sha256_base64url Fixture.cwd
      Fixture.relative_to_src "server_add" (Some "") in
  apiPath paths
  = EndpointManager.apiDir Fixture.cwd ++ [routePath paths; "+server.ts"]
  /\ Fs.dirname (apiPath paths)
     = EndpointManager.apiDir Fixture.cwd ++ [routePath paths]
  /\ (Js.startsWith "server_add" "server_" = true ->
      Js.startsWith (routePath paths) "server_" = true)
  /\ (truthy (Some "") = false ->
      paths
      = mkPathResult
          (EndpointManager.apiDir Fixture.cwd
           ++ [PathUtils.uniquePath Sha256.sha256_base64url "unknown"
                 "server_add"; "+server.ts"])
          (PathUtils.uniquePath Sha256.sha256_base64url "unknown"
             "server_add")).
Proof.
  intros paths.
  destruct (generated_paths_shape Sha256.sha256_base64url Fixture.cwd
              Fixture.relative_to_src "server_add" (Some ""))
    as [H1 [H2 [H3 H4]]].
  split; [exact H1|]. split; [exact H2|]. split; [exact (H3 "server_")|].
  exact H4.
Defined.

(** ** Separators *)

Lemma replace_backslashes_clean (s : string) :
  count_char "\" (Js.replace_backslashes s) = O.
Proof.
  induction s as [|c s IH]; [reflexivity|]. simpl.
  destruct (Ascii.eqb c "\") eqn:Hc; rewrite IH; [reflexivity|].
  now rewrite Hc.
Qed.

(** The path that is hashed never holds a backslash, whatever the file
    name and whatever [path.relative] returns, and a path without
    backslashes is hashed as it is. *)
Theorem relative_path_separators (relative_to_src : string -> string)
    (filename : option string) (s : string) :
  count_char "\" (PathUtils.relativePath relative_to_src filename) = O
  /\ (count_char "\" s = O -> Js.replace_backslashes s = s).
Proof.
  split.
  - unfold PathUtils.relativePath.
    destruct filename as [f|]; [|reflexivity].
    destruct (truthy (Some f)); [apply replace_backslashes_clean | reflexivity].
  - induction s as [|c s IH]; [reflexivity|]. simpl.
    destruct (Ascii.eqb c "\"); [discriminate|].
    intros H. now rewrite IH.
Qed.

Lemma relative_path_separators_witness :
  count_char "\"
    (PathUtils.relativePath Fixture.relative_to_src
       (Some "/app/src/routes\admin\+page.svelte")) = O
  /\ (count_char "\" "routes/+page.svelte" = O ->
      Js.replace_backslashes "routes/+page.svelte" = "routes/+page.svelte").
Proof.
  exact (relative_path_separators Fixture.relative_to_src
           (Some "/app/src/routes\admin\+page.svelte") "routes/+page.svelte").
Defined.

(** ** Sets built by a walk *)

Section Adding.
Variable test : Node -> bool.
Variable text : Node -> string.

Lemma walk_adding_fold root acc :
  walk (adding test text) root acc
  = fold_left (fun acc n => if test n then AstUtils.add_name (text n) acc
                            else acc)
              (all_nodes root) acc.
Proof.
  unfold walk, all_nodes.
  rewrite (visit_fold (fun _ _ => false)
             (fun n _ acc => if test n then AstUtils.add_name (text n) acc
                             else acc)).
  2:{ intros node parent s. unfold adding. now destruct (test node). }
  generalize (visited (fun _ _ => false) root None) as l. intros l.
  revert acc. induction l as [|[n p] l IH]; intros acc; simpl; [reflexivity|].
  apply IH.
Qed.

Lemma elem_of_adding_fold (l : list Node) (x : string) : forall acc,
  x ∈ fold_left (fun acc n => if test n then AstUtils.add_name (text n) acc
                              else acc) l acc
  <-> x ∈ acc \/ exists n, n ∈ l /\ test n = true /\ x = text n.
Proof.
  induction l as [|n l IH]; intros acc; simpl.
  - split; [auto|]. intros [H|[n [H _]]]; [exact H | inversion H].
  - rewrite IH. split.
    + intros [H|[n' [Hin H]]].
      * destruct (test n) eqn:Ht; [|auto].
        apply elem_of_add_name in H as [->|H]; [|auto].
        right. exists n. split; [left | auto].
      * right. exists n'. split; [now right | exact H].
    + intros [H|[n' [Hin [Ht Hx]]]].
      * left. destruct (test n); [|exact H]. apply elem_of_add_name. auto.
      * apply elem_of_cons in Hin as [->|Hin].
        -- left. rewrite Ht. apply elem_of_add_name. auto.
        -- right. exists n'. auto.
Qed.

Lemma NoDup_add_name (nm : string) (set : list string) :
  NoDup set -> NoDup (AstUtils.add_name nm set).
Proof.
  intros H. unfold AstUtils.add_name. case_bool_decide as Hin; [exact H|].
  apply NoDup_app. repeat split; [exact H | | apply NoDup_singleton].
  intros x Hx Hx'. apply list_elem_of_singleton in Hx'. now subst.
Qed.

Lemma NoDup_adding_fold (l : list Node) : forall acc,
  NoDup acc ->
  NoDup (fold_left (fun acc n => if test n then AstUtils.add_name (text n) acc
                                 else acc) l acc).
Proof.
  induction l as [|n l IH]; intros acc H; simpl; [exact H|].
  apply IH. destruct (test n); [now apply NoDup_add_name | exact H].
Qed.

Lemma elem_of_all_nodes root node :
  node ∈ all_nodes root <-> descendant root node.
Proof.
  rewrite <- (visited_all_descendant root node None).
  unfold all_nodes. rewrite list_elem_of_fmap. split.
  - intros [[n p] [-> Hin]]. now exists p.
  - intros [p Hin]. now exists (node, p).
Qed.

Lemma walk_adding_spec root (x : string) :
  x ∈ walk (adding test text) root []
  <-> exists node, descendant root node /\ test node = true /\ x = text node.
Proof.
  rewrite walk_adding_fold, elem_of_adding_fold. split.
  - intros [H|[n [Hin H]]]; [inversion H|].
    exists n. split; [now apply elem_of_all_nodes | exact H].
  - intros [n [Hd H]]. right. exists n.
    split; [now apply elem_of_all_nodes | exact H].
Qed.

Lemma walk_adding_NoDup root : NoDup (walk (adding test text) root []).
Proof. rewrite walk_adding_fold. apply NoDup_adding_fold, NoDup_nil_2. Qed.
End Adding.

(** ** What an endpoint is made of *)

(** [extractFunctionDetails] passes a parse error on; otherwise the
    definition is the text at the function's span, and the imports are
    the texts, each once, of the import declarations of the instance
    script of which some local name is the name of an identifier inside
    the function's node. *)
Theorem extracted_details (parse : string -> Root + string)
    (content_ : string) (serverFunc : ServerFunction) :
  match parse content_ with
  | inr e =>
      AstUtils.extractFunctionDetails parse content_ serverFunc = inr e
  | inl tree =>
      exists details,
        AstUtils.extractFunctionDetails parse content_ serverFunc = inl details
        /\ functionDefinition details
           = Js.slice content_ (sf_start serverFunc) (sf_end serverFunc)
        /\ NoDup (imports details)
        /\ forall text,
             text ∈ imports details
             <-> exists inst node specifier m,
                   instance tree = Some inst
                   /\ descendant (content inst) node
                   /\ node_type node = "ImportDeclaration"
                   /\ specifier ∈ node_field "specifiers" node
                   /\ descendant (sf_node serverFunc) m
                   /\ node_type m = "Identifier"
                   /\ default "" (node_name m) = AstUtils.local_name specifier
                   /\ text = Js.slice content_ (node_start node) (node_end node)
  end.
Proof.
  unfold AstUtils.extractFunctionDetails.
  destruct (parse content_) as [tree|e]; [|reflexivity].
  eexists. split; [reflexivity|]. cbn [functionDefinition imports].
  split; [reflexivity|].
  assert (Hused : forall nm,
             nm ∈ AstUtils.function_identifiers serverFunc
             <-> exists m, descendant (sf_node serverFunc) m
                           /\ node_type m = "Identifier"
                           /\ default "" (node_name m) = nm).
  { intros nm. unfold AstUtils.function_identifiers.
    etransitivity;
      [exact (walk_adding_spec
                (fun n => String.eqb (node_type n) "Identifier")
                (fun n => default "" (node_name n)) (sf_node serverFunc) nm)|].
    split; intros [m [Hd [Hty Hnm]]]; exists m; (split; [exact Hd|]).
    - apply String.eqb_eq in Hty. auto.
    - split; [now apply String.eqb_eq | auto]. }
  destruct (instance tree) as [inst|].
  - set (test := fun node =>
           (AstUtils.is_import node
            && existsb (fun nm => bool_decide
                                    (nm ∈ AstUtils.function_identifiers serverFunc))
                       (map AstUtils.local_name (node_field "specifiers" node)))%bool).
    set (text := fun node => Js.slice content_ (node_start node) (node_end node)).
    split; [apply (walk_adding_NoDup test text)|].
    intros x.
    etransitivity; [exact (walk_adding_spec test text (content inst) x)|].
    subst test text. cbv beta.
    split.
    + intros [node [Hd [Ht ->]]]. apply andb_true_iff in Ht as [Hi Hex].
      apply existsb_exists in Hex as [nm [Hnm Hin]].
      apply in_map_iff in Hnm as [specifier [<- Hspec]].
      apply bool_decide_eq_true, Hused in Hin as [m [Hm [Hty Hname]]].
      exists inst, node, specifier, m. apply String.eqb_eq in Hi.
      repeat split; auto. now apply list_elem_of_In.
    + intros [inst' [node [specifier [m [Hinst [Hd [Hty [Hspec [Hm [Htym [Hname ->]]]]]]]]]]].
      injection Hinst as <-. exists node. split; [exact Hd|].
      split; [|reflexivity]. apply andb_true_iff.
      split; [now apply String.eqb_eq|].
      apply existsb_exists. exists (AstUtils.local_name specifier).
      split; [apply in_map, list_elem_of_In, Hspec|].
      apply bool_decide_eq_true, Hused. eauto.
  - split; [apply NoDup_nil_2|]. intros x. split; [intros H; inversion H|].
    intros [inst [_ [_ [_ [H _]]]]]. discriminate.
Qed.

(** ** Where the records of the locators come from *)

(** The locators return one record for each node that passes their test,
    in traversal order: the calls of the markup before those of the
    instance script, the functions of the instance script alone. *)
Theorem located_in_traversal_order (ast : Root) (functionName : string) :
  AstUtils.findFunctionCalls ast functionName
  = map AstUtils.call_of
        (List.filter (AstUtils.is_call_to functionName) (document_nodes ast))
  /\ AstUtils.findServerFunctions ast
     = map server_function_of
           (List.filter AstUtils.is_server_function
              (match instance ast with
               | Some inst => all_nodes (content inst)
               | None => []
               end)).
Proof.
  split.
  - rewrite findFunctionCalls_eq. unfold document_nodes. cbv zeta.
    destruct (fragment ast) as [f|], (instance ast) as [inst|];
      rewrite ?walk_pushing, ?app_nil_l, ?app_nil_r, ?List.filter_app,
        ?map_app; reflexivity.
  - rewrite findServerFunctions_eq.
    destruct (instance ast) as [inst|]; [|reflexivity].
    now rewrite walk_pushing.
Qed.



(** ** Calls that do not overlap *)

Lemma replace_call_keeps_the_rest_witness :
  (0 <= 8 /\ 8 <= 24 /\ 24 <= zlen "total = server_sum(1, 2);")
  /\ Js.slice_from
       (ServerFunctionTransformer.replace_call "server_sum_x"
          "total = server_sum(1, 2);" (mkFunctionCall 8 24 (mkSpan 19 23)))
       (8 + zlen (ServerFunctionTransformer.generateFetchCall "server_sum_x"
                    "1, 2"))
     = ";".
Proof.
  split; [unfold zlen; simpl; lia|].
  apply (replace_call_keeps_the_rest "server_sum_x"
           "total = server_sum(1, 2);" (mkFunctionCall 8 24 (mkSpan 19 23)));
    unfold zlen; simpl; lia.
Defined.

Lemma replace_call_prefix (routePath_ c : string) (call : FunctionCall)
    (x y : Z) :
  0 <= x -> x <= y -> y <= call_start call -> call_start call <= zlen c ->
  Js.slice (ServerFunctionTransformer.replace_call routePath_ c call) x y
  = Js.slice c x y.
Proof.
  intros Hx Hxy Hy Hc. unfold ServerFunctionTransformer.replace_call.
  cbv zeta. rewrite slice_append_l by (rewrite ?zlen_slice; lia).
  apply slice_slice_prefix; lia.
Qed.

Lemma zlen_slice_le (s : string) (e : Z) :
  0 <= e -> zlen (Js.slice s 0 e) = e -> e <= zlen s.
Proof.
  intros He H. unfold zlen, Js.slice in *.
  rewrite length_substring in H.
  change (0 <? 0) with false in H. cbv iota in H.
  destruct (e <? 0) eqn:E; [apply Z.ltb_lt in E | apply Z.ltb_ge in E]; lia.
Qed.

Lemma slice_agree_shorter (acc c : string) (e e' : Z) :
  0 <= e' -> e' <= e -> e <= zlen c ->
  Js.slice acc 0 e = Js.slice c 0 e ->
  e <= zlen acc
  /\ forall x y, 0 <= x -> x <= y -> y <= e ->
                 Js.slice acc x y = Js.slice c x y.
Proof.
  intros He' Hle Hc Heq.
  assert (Hacc : e <= zlen acc).
  { apply zlen_slice_le; [lia|]. rewrite Heq. rewrite zlen_slice; lia. }
  split; [exact Hacc|]. intros x y Hx Hxy Hy.
  rewrite <- (slice_slice_prefix acc e x y) by lia.
  rewrite Heq. apply slice_slice_prefix; lia.
Qed.

Lemma fold_replace_calls (routePath_ c : string) :
  forall (l : list FunctionCall) (acc : string),
    StronglySorted (fun a b => call_end b <= call_start a) l ->
    Forall (call_within c) l ->
    (forall call, call ∈ l ->
       Js.slice acc 0 (call_end call) = Js.slice c 0 (call_end call)) ->
    fold_left (ServerFunctionTransformer.replace_call routePath_) l acc
    = fold_left
        (fun acc call =>
           splice routePath_
             (Js.slice c (span_start (call_arguments call))
                         (span_end (call_arguments call))) acc call)
        l acc
    /\ forall x y, 0 <= x -> x <= y ->
         (forall call, call ∈ l -> y <= call_start call) ->
         Js.slice
           (fold_left (ServerFunctionTransformer.replace_call routePath_) l acc)
           x y
         = Js.slice acc x y.
Proof.
  induction l as [|h t IH]; intros acc Hsorted Hwithin Hagree;
    [split; reflexivity|].
  apply StronglySorted_inv in Hsorted as [Hsorted Hbefore].
  apply Forall_cons in Hwithin as [Hh Hwithin].
  destruct Hh as [H0 [H1 [H2 [H3 H4]]]].
  destruct (slice_agree_shorter acc c (call_end h) 0) as [Hacc Hsame];
    [lia | lia | exact H4 | apply Hagree; left |].
  assert (Hstep : ServerFunctionTransformer.replace_call routePath_ acc h
                  = splice routePath_
                      (Js.slice c (span_start (call_arguments h))
                                  (span_end (call_arguments h))) acc h).
  { unfold ServerFunctionTransformer.replace_call, splice. cbv zeta.
    now rewrite (Hsame (span_start (call_arguments h))
                       (span_end (call_arguments h))) by lia. }
  assert (Hkept : forall x y, 0 <= x -> x <= y -> y <= call_start h ->
            Js.slice (ServerFunctionTransformer.replace_call routePath_ acc h)
              x y
            = Js.slice acc x y).
  { intros x y Hx Hxy Hy.
    apply (replace_call_prefix routePath_ acc h); lia. }
  destruct (IH (ServerFunctionTransformer.replace_call routePath_ acc h))
    as [IHeq IHkept]; [exact Hsorted | exact Hwithin | |].
  { intros call Hcall.
    assert (Hle : call_end call <= call_start h).
    { rewrite Forall_forall in Hbefore. now apply Hbefore. }
    rewrite Forall_forall in Hwithin.
    destruct (Hwithin call Hcall) as [G0 [G1 [G2 [G3 G4]]]].
    rewrite Hkept by lia. apply Hsame; lia. }
  cbn [fold_left]. split.
  - rewrite IHeq. now rewrite Hstep.
  - intros x y Hx Hxy Hy. rewrite IHkept; [|lia|lia|].
    + apply Hkept; [lia | lia | apply Hy; left].
    + intros call Hcall. apply Hy. now right.
Qed.

(** Calls that lie in the text one after the other without overlapping,
    handled from the last one to the first: each is replaced by the fetch
    call of its own argument text as the original document has it, and
    the text before the first call stays where it was. *)
Theorem disjoint_calls_take_their_arguments (routePath_ c : string)
    (calls : list FunctionCall)
    (Hsorted : StronglySorted (fun a b => call_end b <= call_start a) calls)
    (Hwithin : Forall (call_within c) calls) :
  fold_left (ServerFunctionTransformer.replace_call routePath_) calls c
  = fold_left
      (fun acc call =>
         splice routePath_
           (Js.slice c (span_start (call_arguments call))
                       (span_end (call_arguments call))) acc call)
      calls c
  /\ forall x y, 0 <= x -> x <= y ->
       (forall call, call ∈ calls -> y <= call_start call) ->
       Js.slice
         (fold_left (ServerFunctionTransformer.replace_call routePath_) calls c)
         x y
       = Js.slice c x y.
Proof. apply fold_replace_calls; auto. Qed.

Lemma disjoint_calls_take_their_arguments_witness :
  let c := "f(1) + f(20)" in
  let calls := [mkFunctionCall 7 12 (mkSpan 9 11);
                mkFunctionCall 0 4 (mkSpan 2 3)] in
  (StronglySorted (fun a b => call_end b <= call_start a) calls
   /\ Forall (call_within c) calls)
  /\ fold_left (ServerFunctionTransformer.replace_call "f_x") calls c
     = fold_left
         (fun acc call =>
            splice "f_x"
              (Js.slice c (span_start (call_arguments call))
                          (span_end (call_arguments call))) acc call)
         calls c.
Proof.
  intros c calls.
  assert (Hsorted : StronglySorted (fun a b => call_end b <= call_start a)
                      calls).
  { repeat constructor; simpl; lia. }
  assert (Hwithin : Forall (call_within c) calls).
  { repeat constructor; unfold zlen; simpl; lia. }
  split; [split; assumption|].
  apply (disjoint_calls_take_their_arguments "f_x" c calls Hsorted Hwithin).
Defined.

(** ** What the scan does to the disk *)

Section Bounded.
Variable P : FsOp -> Prop.
Variable R : gmap fspath entry -> gmap fspath entry -> Prop.
Hypothesis R_refl : forall m, R m m.
Hypothesis R_trans : forall a b c, R a b -> R b c -> R a c.

Lemma bounded_same {A} (m : M A) :
  (forall w, fs (snd (m w)) = fs w /\ trace (snd (m w)) = trace w) ->
  bounded P R m.
Proof.
  intros H w. exists []. destruct (H w) as [-> ->].
  rewrite app_nil_r. auto.
Qed.

Lemma bounded_ret {A} (a : A) : bounded P R (ret a).
Proof. apply bounded_same. now intros w. Qed.

Lemma bounded_lift {A} (r : A + string) : bounded P R (lift r).
Proof. apply bounded_same. intros w. now destruct r. Qed.

Lemma bounded_log (text e : string) : bounded P R (Console.error text e).
Proof. apply bounded_same. now intros w. Qed.

Lemma bounded_warn (line : string) : bounded P R (Console.warn line).
Proof. apply bounded_same. now intros w. Qed.

Lemma bounded_bind {A B} (m : M A) (k : A -> M B) :
  bounded P R m -> (forall a, bounded P R (k a)) -> bounded P R (bind m k).
Proof.
  intros Hm Hk w. unfold bind. destruct (Hm w) as [ops1 [Ht1 [Hp1 Hr1]]].
  destruct (m w) as [[a|e] w1]; cbn [snd] in *; [|eauto].
  destruct (Hk a w1) as [ops2 [Ht2 [Hp2 Hr2]]].
  exists (ops1 ++ ops2). rewrite Ht2, Ht1, app_assoc.
  split; [reflexivity|]. split; [now apply Forall_app | eauto].
Qed.

Lemma bounded_try_catch {A} (m : M A) (h : string -> M A) :
  bounded P R m -> (forall e, bounded P R (h e)) -> bounded P R (try_catch m h).
Proof.
  intros Hm Hh w. unfold try_catch. destruct (Hm w) as [ops1 [Ht1 [Hp1 Hr1]]].
  destruct (m w) as [[a|e] w1]; cbn [snd] in *; [eauto|].
  destruct (Hh e w1) as [ops2 [Ht2 [Hp2 Hr2]]].
  exists (ops1 ++ ops2). rewrite Ht2, Ht1, app_assoc.
  split; [reflexivity|]. split; [now apply Forall_app | eauto].
Qed.

Lemma bounded_for_each {A} (f : A -> M unit) (l : list A) :
  (forall x, x ∈ l -> bounded P R (f x)) -> bounded P R (for_each f l).
Proof.
  induction l as [|x l IH]; intros H; [apply bounded_ret|].
  cbn [for_each]. apply bounded_bind; [apply H; left|].
  intros _. apply IH. intros y Hy. apply H. now right.
Qed.
End Bounded.

Lemma returns_for_each {A} (f : A -> M unit) (l : list A) :
  (forall x, returns (f x)) -> returns (for_each f l).
Proof.
  intros H. induction l as [|x l IH]; [apply returns_ret|].
  cbn [for_each]. apply returns_bind; [apply H | intros _; exact IH].
Qed.

(** What [emit] performs, and the files it leaves alone. *)
Lemma emit_spec (m : gmap fspath entry) (p : fspath) (apiContent : string) :
  Forall (fun op => op = OpMkdir (Fs.dirname p) \/ op = OpWrite p apiContent)
         (snd (emit m p apiContent))
  /\ forall q d, q <> p ->
       (fst (emit m p apiContent) !! q = Some (File d)
        <-> m !! q = Some (File d)).
Proof.
  unfold emit.
  destruct (Fs.mkdir_p [] (Fs.dirname p) m) as [m'|] eqn:Hmk;
    [|split; [constructor | tauto]].
  assert (Hfiles := fun q d => mkdir_p_file [] _ _ _ q d Hmk).
  assert (Hins : forall q d, q <> p ->
            (<[p := File apiContent]> m' !! q = Some (File d)
             <-> m !! q = Some (File d))).
  { intros q d Hq. rewrite lookup_insert_ne by congruence. apply Hfiles. }
  destruct (Fs.lookup_entry m' p) as [[existing|]|];
    [destruct (String.eqb existing apiContent)| |]; cbn [fst snd];
    (split; [repeat (apply List.Forall_cons; [solve [auto]|]);
             apply List.Forall_nil
            | first [exact Hins | intros q d _; apply Hfiles]]).
Qed.

Lemma findServerFunctions_named (tree : Root) (func : ServerFunction) :
  func ∈ AstUtils.findServerFunctions tree ->
  Js.startsWith (sf_name func) "server_" = true.
Proof.
  rewrite findServerFunctions_eq.
  destruct (instance tree) as [inst|]; [|intros H; inversion H].
  intros H. apply elem_of_walk_pushing in H as [node [_ [Ht ->]]].
  unfold AstUtils.is_server_function, AstUtils.id_starts_with_server in Ht.
  apply andb_true_iff in Ht as [_ Ht].
  unfold server_function_of, AstUtils.id_name. cbn [sf_name].
  destruct (node_field1 "id" node) as [i|]; [|discriminate].
  destruct (node_name i) as [nm|]; [exact Ht | discriminate].
Qed.

Section ScanEffects.
Variable parse : string -> Root + string.
Variable digest : string -> string.
Variable cwd : fspath.
Variable relative_to_src : string -> string.

Local Abbreviation inside_api :=
  (fun q : fspath => EndpointManager.apiDir cwd `prefix_of` q).

Lemma files_kept_refl (m : gmap fspath entry) :
  files_kept_outside inside_api m m.
Proof. now intros q d _. Qed.

Lemma files_kept_trans (a b c : gmap fspath entry) :
  files_kept_outside inside_api a b -> files_kept_outside inside_api b c ->
  files_kept_outside inside_api a c.
Proof. intros H1 H2 q d Hq. rewrite (H2 q d Hq). now apply H1. Qed.

Lemma bounded_createEndpoint (u c : string) (f : ServerFunction) :
  Js.startsWith u "server_" = true ->
  bounded (endpoint_op cwd) (files_kept_outside inside_api)
    (EndpointManager.createEndpoint parse
       (EndpointManager.apiDir cwd ++ [u; "+server.ts"]) c f).
Proof.
  intros Hu w.
  destruct (createEndpoint_run parse
              (EndpointManager.apiDir cwd ++ [u; "+server.ts"]) c f w)
    as [console' ->]. cbn [snd].
  destruct (AstUtils.extractFunctionDetails parse c f) as [details|e].
  - destruct (emit_spec (fs w)
                (EndpointManager.apiDir cwd ++ [u; "+server.ts"])
                (rendered details f)) as [Hops Hframe].
    eexists. cbn [trace fs]. split; [reflexivity|]. split.
    + eapply Forall_impl; [exact Hops|]. intros op Hop. exists u.
      split; [exact Hu|]. rewrite <- (removelast_two _ u "+server.ts").
      destruct Hop as [->| ->]; [now left | right; eauto].
    + intros q d Hq. apply Hframe. intros ->. apply Hq.
      now apply prefix_app_r.
  - exists []. cbn [trace fs]. rewrite app_nil_r.
    split; [reflexivity|]. split; [constructor | apply files_kept_refl].
Qed.

Lemma bounded_processFile (q : fspath) :
  bounded (endpoint_op cwd) (files_kept_outside inside_api)
    (EndpointManager.processFile parse digest cwd relative_to_src q).
Proof.
  unfold EndpointManager.processFile.
  apply bounded_try_catch;
    [apply files_kept_trans | | intros e; apply bounded_warn, files_kept_refl].
  apply bounded_bind; [apply files_kept_trans | |].
  { apply bounded_same; [apply files_kept_refl|]. intros w.
    unfold Fs.readFileSync.
    now destruct (Fs.lookup_entry (fs w) q) as [[d|]|]. }
  intros c.
  destruct (negb (Js.includes c "async function server_"));
    [apply bounded_ret, files_kept_refl|].
  apply bounded_bind;
    [apply files_kept_trans | apply bounded_lift, files_kept_refl |].
  intros tree.
  apply bounded_for_each; [apply files_kept_refl | apply files_kept_trans|].
  intros func Hfunc. unfold PathUtils.generatePaths. cbn [apiPath].
  change (cwd ++ ["src"; "routes"; "api";
                  PathUtils.uniquePath digest
                    (PathUtils.relativePath relative_to_src
                       (Some (Fs.render q)))
                    (sf_name func); "+server.ts"])
    with (cwd ++ ["src"; "routes"; "api"]
              ++ [PathUtils.uniquePath digest
                    (PathUtils.relativePath relative_to_src
                       (Some (Fs.render q)))
                    (sf_name func); "+server.ts"]).
  rewrite app_assoc. apply bounded_createEndpoint.
  unfold PathUtils.uniquePath, Js.startsWith.
  apply prefix_append. now apply findServerFunctions_named in Hfunc.
Qed.

Lemma bounded_scan :
  bounded (endpoint_op cwd) (files_kept_outside inside_api)
    (EndpointManager.scanAndCreateEndpoints parse digest cwd relative_to_src).
Proof.
  unfold EndpointManager.scanAndCreateEndpoints.
  apply bounded_try_catch;
    [apply files_kept_trans | | intros e; apply bounded_log, files_kept_refl].
  apply bounded_bind; [apply files_kept_trans | |].
  { apply bounded_same; [apply files_kept_refl|]. intros w.
    unfold Fs.readdirSync_recursive.
    now destruct (Fs.lookup_entry (fs w) (EndpointManager.srcDir cwd))
      as [[d|]|]. }
  intros files.
  apply bounded_for_each; [apply files_kept_refl | apply files_kept_trans|].
  intros file _.
  destruct (Js.endsWith (Js.join "/" file) ".svelte");
    [apply bounded_processFile | apply bounded_ret, files_kept_refl].
Qed.

Lemma returns_processFile (q : fspath) :
  returns (EndpointManager.processFile parse digest cwd relative_to_src q).
Proof. apply returns_try_catch. intros e. apply returns_warn. Qed.

Lemma returns_scan :
  returns (EndpointManager.scanAndCreateEndpoints parse digest cwd
             relative_to_src).
Proof. apply returns_try_catch. intros e. apply returns_error. Qed.
End ScanEffects.

(** The scan always ends normally.  All it does to the disk is to make
    endpoint directories and to write endpoint files, each named after a
    function [server_...] and placed in the API directory; it removes
    nothing, and every file outside the API directory is there afterwards
    with the content it had. *)
Theorem scan_touches_endpoints_only (parse : string -> Root + string)
    (digest : string -> string) (cwd : fspath)
    (relative_to_src : string -> string) (w : World) :
  exists w' ops,
    EndpointManager.scanAndCreateEndpoints parse digest cwd relative_to_src w
    = (Ret tt, w')
    /\ trace w' = trace w ++ ops
    /\ Forall (endpoint_op cwd) ops
    /\ forall q d,
         ~ EndpointManager.apiDir cwd `prefix_of` q ->
         (fs w' !! q = Some (File d) <-> fs w !! q = Some (File d)).
Proof.
  destruct (returns_scan parse digest cwd relative_to_src w) as [[] [w' Hw]].
  destruct (bounded_scan parse digest cwd relative_to_src w)
    as [ops [Ht [Hops Hfiles]]].
  rewrite Hw in Ht, Hfiles. cbn [snd] in *. exists w', ops. auto.
Qed.

(** A single document is handled in the same way, whatever it holds and
    whether or not it can be read or parsed. *)
Theorem processFile_touches_endpoints_only (parse : string -> Root + string)
    (digest : string -> string) (cwd : fspath)
    (relative_to_src : string -> string) (filePath : fspath) (w : World) :
  exists w' ops,
    EndpointManager.processFile parse digest cwd relative_to_src filePath w
    = (Ret tt, w')
    /\ trace w' = trace w ++ ops
    /\ Forall (endpoint_op cwd) ops
    /\ forall q d,
         ~ EndpointManager.apiDir cwd `prefix_of` q ->
         (fs w' !! q = Some (File d) <-> fs w !! q = Some (File d)).
Proof.
  destruct (returns_processFile parse digest cwd relative_to_src filePath w)
    as [[] [w' Hw]].
  destruct (bounded_processFile parse digest cwd relative_to_src filePath w)
    as [ops [Ht [Hops Hfiles]]].
  rewrite Hw in Ht, Hfiles. cbn [snd] in *. exists w', ops. auto.
Qed.

(** ** What creating an endpoint leaves *)

(** When the details are extracted, the directory can be made and no
    directory sits at the path, the endpoint file is there afterwards
    with the rendered content, and nothing else differs from the disk
    with the directory made. *)
Theorem created_endpoint_on_disk (parse : string -> Root + string)
    (p : fspath) (c : string) (f : ServerFunction) (w : World)
    (details : FunctionDetails) (m' : gmap fspath entry)
    (Hdetails : AstUtils.extractFunctionDetails parse c f = inl details)
    (Hmk : Fs.mkdir_p [] (Fs.dirname p) (fs w) = Some m')
    (Hfree : Fs.lookup_entry m' p <> Some Dir) :
  exists w',
    EndpointManager.createEndpoint parse p c f w = (Ret tt, w')
    /\ fs w' !! p = Some (File (rendered details f))
    /\ forall q, q <> p -> fs w' !! q = m' !! q.
Proof.
  destruct (createEndpoint_run parse p c f w) as [console' Hrun].
  rewrite Hdetails in Hrun. eexists. split; [exact Hrun|]. cbn [fs].
  unfold emit. rewrite Hmk.
  assert (Hp : Fs.lookup_entry m' p = m' !! p).
  { destruct p; [now contradict Hfree | reflexivity]. }
  destruct (Fs.lookup_entry m' p) as [[existing|]|] eqn:Hl.
  - destruct (String.eqb existing (rendered details f)) eqn:Heq; cbn [fst].
    + apply String.eqb_eq in Heq as <-. split; [now symmetry | reflexivity].
    + rewrite lookup_insert_eq. split; [reflexivity|].
      intros q Hq. now rewrite lookup_insert_ne by congruence.
  - congruence.
  - cbn [fst]. rewrite lookup_insert_eq. split; [reflexivity|].
    intros q Hq. now rewrite lookup_insert_ne by congruence.
Qed.

Lemma project_details :
  AstUtils.extractFunctionDetails Fixture.parseAdd Fixture.docAdd
    (server_function_of Fixture.astAdd_fn)
  = inl (mkFunctionDetails [] Fixture.addFn).
Proof. vm_compute. reflexivity. Qed.

Lemma project_directory :
  Fs.mkdir_p [] (Fs.dirname Fixture.addEndpoint) (fs Fixture.project)
  = Some (default ∅ (Fs.mkdir_p [] (Fs.dirname Fixture.addEndpoint)
                       (fs Fixture.project))).
Proof.
  assert (H : match Fs.mkdir_p [] (Fs.dirname Fixture.addEndpoint)
                      (fs Fixture.project) with
              | Some _ => true
              | None => false
              end = true)
    by (vm_compute; reflexivity).
  destruct (Fs.mkdir_p [] (Fs.dirname Fixture.addEndpoint)
              (fs Fixture.project)); [reflexivity | discriminate H].
Qed.

Lemma project_path_free :
  Fs.lookup_entry
    (default ∅ (Fs.mkdir_p [] (Fs.dirname Fixture.addEndpoint)
                  (fs Fixture.project))) Fixture.addEndpoint <> Some Dir.
Proof. vm_compute. discriminate. Qed.

Lemma created_endpoint_on_disk_witness :
  exists w',
    EndpointManager.createEndpoint Fixture.parseAdd Fixture.addEndpoint
      Fixture.docAdd (server_function_of Fixture.astAdd_fn) Fixture.project
    = (Ret tt, w')
    /\ fs w' !! Fixture.addEndpoint
       = Some (File (rendered (mkFunctionDetails [] Fixture.addFn)
                       (server_function_of Fixture.astAdd_fn))).
Proof.
  destruct (created_endpoint_on_disk Fixture.parseAdd Fixture.addEndpoint
              Fixture.docAdd (server_function_of Fixture.astAdd_fn)
              Fixture.project _ _ project_details project_directory
              project_path_free) as [w' [Hrun [Hp _]]].
  exists w'. split; [exact Hrun | exact Hp].
Defined.

(** When the details cannot be extracted, when a file is in the way of
    the directory, or when a directory sits at the path, the call ends
    normally all the same: [console.error] is called once, with the
    text that names the function and with the error caught, no file is
    written and the files on disk are the same.  When it is the
    extraction that fails, the error is the one [parse] has thrown. *)
Theorem endpoint_failure_is_logged (parse : string -> Root + string)
    (p : fspath) (c : string) (f : ServerFunction) (w : World)
    (Hfail :
       (exists e, AstUtils.extractFunctionDetails parse c f = inr e)
       \/ (exists details,
             AstUtils.extractFunctionDetails parse c f = inl details
             /\ (Fs.mkdir_p [] (Fs.dirname p) (fs w) = None
                 \/ exists m',
                      Fs.mkdir_p [] (Fs.dirname p) (fs w) = Some m'
                      /\ Fs.lookup_entry m' p = Some Dir))) :
  exists w' error,
    EndpointManager.createEndpoint parse p c f w = (Ret tt, w')
    /\ console w'
       = console w
         ++ [LineWithError
               ("Error creating endpoint for " +:+ sf_name f +:+ ":") error]
    /\ (forall e, AstUtils.extractFunctionDetails parse c f = inr e ->
                  error = e)
    /\ writes_since w w' = []
    /\ same_files (fs w) (fs w').
Proof.
  unfold EndpointManager.createEndpoint, try_catch, bind.
  destruct Hfail as [[e He]|[details [Hd [Hmk|[m' [Hmk Hdir]]]]]].
  - rewrite He. cbn [lift throw]. unfold Console.error. eexists _, e.
    split; [reflexivity|]. cbn [console fs trace]. split; [reflexivity|].
    split; [congruence|]. split; [|now intros q d].
    unfold writes_since. cbn [trace]. now rewrite drop_all.
  - rewrite Hd. cbn [lift]. unfold ret at 1. unfold Fs.mkdirSync.
    rewrite Hmk. unfold Console.error. eexists _, _.
    split; [reflexivity|]. cbn [console fs trace]. split; [reflexivity|].
    split; [congruence|]. split; [|now intros q d].
    unfold writes_since. cbn [trace]. now rewrite drop_all.
  - rewrite Hd. cbn [lift]. unfold ret at 1. unfold Fs.mkdirSync.
    rewrite Hmk. unfold Fs.existsSync. cbn [fs]. rewrite Hdir.
    rewrite bool_decide_eq_true_2 by eauto. cbn [negb].
    unfold Fs.readFileSync. cbn [fs]. rewrite Hdir.
    unfold Console.error. eexists _, _.
    split; [reflexivity|]. cbn [console fs trace]. split; [reflexivity|].
    split; [congruence|].
    split; [|intros q d; apply (mkdir_p_file [] _ _ _ q d Hmk)].
    unfold writes_since. cbn [trace]. now rewrite drop_app_length.
Qed.

Lemma endpoint_failure_is_logged_witness :
  AstUtils.extractFunctionDetails Fixture.parseStale Fixture.outStale
    (server_function_of Fixture.astAdd_fn) = inr "Unexpected token"
  /\ exists w',
       EndpointManager.createEndpoint Fixture.parseStale Fixture.addEndpoint
         Fixture.outStale (server_function_of Fixture.astAdd_fn)
         Fixture.project
       = (Ret tt, w')
       /\ console w'
          = console Fixture.project
            ++ [LineWithError "Error creating endpoint for server_add:"
                  "Unexpected token"]
       /\ writes_since Fixture.project w' = []
       /\ same_files (fs Fixture.project) (fs w').
Proof.
  assert (He : AstUtils.extractFunctionDetails Fixture.parseStale
                 Fixture.outStale (server_function_of Fixture.astAdd_fn)
               = inr "Unexpected token") by (vm_compute; reflexivity).
  split; [exact He|].
  destruct (endpoint_failure_is_logged Fixture.parseStale Fixture.addEndpoint
              Fixture.outStale (server_function_of Fixture.astAdd_fn)
              Fixture.project (or_introl (ex_intro _ _ He)))
    as [w' [error [Hrun [Hlog [Herr [Hw Hf]]]]]].
  exists w'. rewrite (Herr _ He) in Hlog.
  split; [exact Hrun|]. split; [exact Hlog|]. split; [exact Hw | exact Hf].
Defined.

(** ** What the cleanup removes *)

Lemma below_Some (p : fspath) : forall q r,
  Fs.below p q = Some r <-> q = p ++ r /\ r <> [].
Proof.
  induction p as [|x p IH]; intros q r.
  - destruct q as [|y q]; simpl.
    + split; [discriminate | intros [<- H]; congruence].
    + split; [intros [= <-]; split; [reflexivity | discriminate]
             | intros [<- _]; reflexivity].
  - destruct q as [|y q]; simpl.
    + split; [discriminate | intros [H _]; discriminate].
    + destruct (String.eqb x y) eqn:E.
      * apply String.eqb_eq in E as ->. rewrite IH.
        split; intros [H1 H2]; (split; [congruence | exact H2]).
      * apply String.eqb_neq in E.
        split; [discriminate | intros [H _]; congruence].
Qed.

Lemma lookup_entry_app (m : gmap fspath entry) (d : fspath) (x : string)
    (l : fspath) :
  Fs.lookup_entry m (d ++ x :: l) = m !! (d ++ x :: l).
Proof. now destruct d. Qed.

Lemma rmSync_removes (p q : fspath) (w : World) :
  p `prefix_of` q -> fs (snd (Fs.rmSync p w)) !! q = None.
Proof.
  intros [r ->]. cbn [Fs.rmSync snd fs]. apply map_lookup_filter_None.
  right. intros e _ [Hne Hb]. cbn [fst] in *.
  destruct r as [|x r]; [now rewrite app_nil_r in Hne|].
  assert (H : Fs.below p (p ++ x :: r) = Some (x :: r))
    by (apply below_Some; split; [reflexivity | discriminate]).
  congruence.
Qed.

Lemma rmSync_keeps (p q : fspath) (w : World) :
  ~ p `prefix_of` q -> fs (snd (Fs.rmSync p w)) !! q = fs w !! q.
Proof.
  intros H. cbn [Fs.rmSync snd fs].
  destruct (fs w !! q) as [e|] eqn:E.
  - apply map_lookup_filter_Some. split; [exact E|]. cbn [fst]. split.
    + intros ->. now apply H.
    + destruct (Fs.below p q) as [r|] eqn:B; [|reflexivity].
      apply below_Some in B as [-> _]. exfalso. apply H. now exists r.
  - apply map_lookup_filter_None. now left.
Qed.

Lemma rmSync_only_removes (p q : fspath) (w : World) (e : entry) :
  fs (snd (Fs.rmSync p w)) !! q = Some e -> fs w !! q = Some e.
Proof.
  cbn [Fs.rmSync snd fs]. intros H.
  now apply map_lookup_filter_Some in H as [H _].
Qed.

Lemma NoDup_omap_fst {B} (g : fspath * entry -> option B)
    (l : list (fspath * entry)) :
  NoDup l.*1 ->
  (forall a b n, g a = Some n -> g b = Some n -> a.1 = b.1) ->
  NoDup (omap g l).
Proof.
  intros Hnd Hinj. induction l as [|a l IH]; [apply NoDup_nil_2|].
  cbn [fmap list_fmap] in Hnd. apply NoDup_cons in Hnd as [Ha Hnd].
  cbn [omap list_omap]. destruct (g a) as [n|] eqn:Hg; [|now apply IH].
  apply NoDup_cons. split; [|now apply IH].
  intros Hin. apply list_elem_of_omap in Hin as [b [Hb Hgb]].
  apply Ha. rewrite (Hinj a b n Hg Hgb). apply list_elem_of_fmap. eauto.
Qed.

Lemma NoDup_List_filter {A} (f : A -> bool) (l : list A) :
  NoDup l -> NoDup (List.filter f l).
Proof.
  induction l as [|x l IH]; intros H; [exact H|].
  apply NoDup_cons in H as [Hx H]. cbn [List.filter].
  destruct (f x); [|now apply IH].
  apply NoDup_cons. split; [|now apply IH].
  intros Hin. apply Hx.
  now apply list_elem_of_In, filter_In in Hin as [Hin%list_elem_of_In _].
Qed.

Lemma bind_run {A B} (m : M A) (k : A -> M B) (w w1 : World) (a : A) :
  m w = (Ret a, w1) -> bind m k w = k a w1.
Proof. intros H. unfold bind. now rewrite H. Qed.

Section Cleanup.
Variable cwd : fspath.

Local Abbreviation apiDir := (EndpointManager.apiDir cwd).

Local Abbreviation rm_endpoint :=
  (fun endpoint : string =>
     bind (Fs.statSync_isDirectory (apiDir ++ [endpoint]))
          (fun isDirectory : bool =>
             if isDirectory then Fs.rmSync (apiDir ++ [endpoint])
             else ret tt)).

Local Abbreviation names m :=
  (omap (fun kv : fspath * entry =>
           match Fs.below apiDir (fst kv) with
           | Some [name] => Some name
           | _ => None
           end) (map_to_list m)).

Lemma names_elem (m : gmap fspath entry) (name : string) :
  name ∈ names m <-> is_Some (m !! (apiDir ++ [name])).
Proof.
  rewrite list_elem_of_omap. split.
  - intros [[k e] [Hin Hg]]. apply elem_of_map_to_list in Hin.
    cbn [fst] in Hg.
    destruct (Fs.below apiDir k) as [[|x [|? ?]]|] eqn:B; try discriminate.
    injection Hg as ->. apply below_Some in B as [-> _]. eauto.
  - intros [e He]. exists (apiDir ++ [name], e).
    split; [now apply elem_of_map_to_list|]. cbn [fst].
    assert (H : Fs.below apiDir (apiDir ++ [name]) = Some [name])
      by (apply below_Some; split; [reflexivity | discriminate]).
    now rewrite H.
Qed.

Lemma names_NoDup (m : gmap fspath entry) : NoDup (names m).
Proof.
  apply NoDup_omap_fst; [apply NoDup_fst_map_to_list|].
  intros [k1 e1] [k2 e2] n. cbn [fst].
  destruct (Fs.below apiDir k1) as [[|x1 [|? ?]]|] eqn:B1; try discriminate.
  destruct (Fs.below apiDir k2) as [[|x2 [|? ?]]|] eqn:B2; try discriminate.
  intros [= ->] [= ->].
  apply below_Some in B1 as [-> _]. now apply below_Some in B2 as [-> _].
Qed.

Lemma shrunk_refl (m : gmap fspath entry) : shrunk cwd m m.
Proof. split; auto. Qed.

Lemma shrunk_trans (a b c : gmap fspath entry) :
  shrunk cwd a b -> shrunk cwd b c -> shrunk cwd a c.
Proof.
  intros [H1 H2] [H3 H4]. split; [auto|].
  intros q Hq. now rewrite H4, H2.
Qed.

Lemma bounded_rmSync (name : string) :
  Js.startsWith name "server_" = true ->
  bounded (removal_op cwd) (shrunk cwd) (Fs.rmSync (apiDir ++ [name])).
Proof.
  intros Hname w. exists [OpRm (apiDir ++ [name])].
  split; [reflexivity|]. split.
  - apply List.Forall_cons; [|apply List.Forall_nil]. now exists name.
  - split; [intros q e; apply rmSync_only_removes|].
    intros q Hq. apply rmSync_keeps. intros [r ->].
    apply (Hq name r Hname). now rewrite <- app_assoc.
Qed.

Lemma bounded_cleanup :
  bounded (removal_op cwd) (shrunk cwd) (EndpointManager.cleanupEndpoints cwd).
Proof.
  unfold EndpointManager.cleanupEndpoints.
  apply bounded_bind; [apply shrunk_trans | |].
  { apply bounded_same; [apply shrunk_refl | now intros w]. }
  intros present. destruct (negb present); [apply bounded_ret, shrunk_refl|].
  apply bounded_try_catch;
    [apply shrunk_trans | | intros e; apply bounded_log, shrunk_refl].
  apply bounded_bind; [apply shrunk_trans | |].
  { apply bounded_same; [apply shrunk_refl|]. intros w.
    unfold Fs.readdirSync.
    now destruct (Fs.lookup_entry (fs w) apiDir) as [[d|]|]. }
  intros entries.
  apply bounded_for_each; [apply shrunk_refl | apply shrunk_trans|].
  intros endpoint Hin. apply list_elem_of_In, filter_In in Hin as [_ Hname].
  apply bounded_bind; [apply shrunk_trans | |].
  { apply bounded_same; [apply shrunk_refl|]. intros w.
    unfold Fs.statSync_isDirectory.
    now destruct (Fs.lookup_entry (fs w) (apiDir ++ [endpoint])) as [[d|]|]. }
  intros [|]; [now apply bounded_rmSync | apply bounded_ret, shrunk_refl].
Qed.

Lemma returns_cleanup : returns (EndpointManager.cleanupEndpoints cwd).
Proof.
  unfold EndpointManager.cleanupEndpoints.
  apply returns_bind; [intros w; now eexists _, _|].
  intros present. destruct (negb present); [apply returns_ret|].
  apply returns_try_catch. intros e. apply returns_error.
Qed.

Lemma cleanup_loop (l : list string) : forall w,
  NoDup l ->
  (forall name, name ∈ l -> is_Some (fs w !! (apiDir ++ [name]))) ->
  exists w',
    for_each rm_endpoint l w = (Ret tt, w')
    /\ console w' = console w
    /\ (forall name, name ∈ l -> fs w !! (apiDir ++ [name]) = Some Dir ->
        forall q, (apiDir ++ [name]) `prefix_of` q -> fs w' !! q = None)
    /\ (forall q,
          (forall name, name ∈ l -> fs w !! (apiDir ++ [name]) = Some Dir ->
                        ~ (apiDir ++ [name]) `prefix_of` q) ->
          fs w' !! q = fs w !! q)
    /\ (forall q, fs w !! q = None -> fs w' !! q = None).
Proof.
  induction l as [|n l IH]; intros w Hnd Hsome.
  - exists w. cbn [for_each]. split; [reflexivity|]. split; [reflexivity|].
    split; [intros name H; inversion H|]. split; auto.
  - apply NoDup_cons in Hnd as [Hn Hnd].
    assert (Hstep : exists w1,
              rm_endpoint n w = (Ret tt, w1)
              /\ console w1 = console w
              /\ (fs w !! (apiDir ++ [n]) = Some Dir ->
                  forall q, (apiDir ++ [n]) `prefix_of` q -> fs w1 !! q = None)
              /\ (forall q,
                    (fs w !! (apiDir ++ [n]) = Some Dir ->
                     ~ (apiDir ++ [n]) `prefix_of` q) ->
                    fs w1 !! q = fs w !! q)
              /\ (forall q, fs w !! q = None -> fs w1 !! q = None)).
    { unfold bind, Fs.statSync_isDirectory. rewrite lookup_entry_app.
      destruct (Hsome n) as [e He]; [left|]. rewrite He. destruct e as [d|].
      - exists w. split; [reflexivity|]. split; [reflexivity|].
        split; [discriminate|]. split; auto.
      - exists (snd (Fs.rmSync (apiDir ++ [n]) w)).
        split; [reflexivity|]. split; [reflexivity|].
        split; [intros _ q Hq; now apply rmSync_removes|].
        split; [intros q Hq; apply rmSync_keeps; auto|].
        intros q Hq. destruct (fs (snd (Fs.rmSync (apiDir ++ [n]) w)) !! q)
          as [e|] eqn:E; [|reflexivity].
        apply rmSync_only_removes in E. congruence. }
    destruct Hstep as [w1 [Hrun [Hc [Ha [Hb Hcc]]]]].
    assert (Hsib : forall name, name ∈ l ->
              fs w1 !! (apiDir ++ [name]) = fs w !! (apiDir ++ [name])).
    { intros name Hin. apply Hb. intros _ Hpre.
      apply prefix_length_eq in Hpre; [|rewrite !length_app; simpl; lia].
      apply app_inj_tail in Hpre as [_ ->]. contradiction. }
    destruct (IH w1 Hnd) as [w' [Hrun' [Hc' [Ha' [Hb' Hcc']]]]].
    { intros name Hin. rewrite Hsib by exact Hin. apply Hsome. now right. }
    exists w'. cbn [for_each]. rewrite (bind_run _ _ _ _ _ Hrun).
    split; [exact Hrun'|]. split; [congruence|]. split; [|split].
    + intros name Hin Hdir q Hpre. apply elem_of_cons in Hin as [->|Hin].
      * apply Hcc'. now apply Ha.
      * apply (Ha' name Hin); [now rewrite Hsib | exact Hpre].
    + intros q Hq. rewrite Hb'.
      * apply Hb. intros Hdir. apply (Hq n); [left | exact Hdir].
      * intros name Hin Hdir. apply (Hq name); [now right|].
        now rewrite <- Hsib.
    + intros q Hnone. apply Hcc', Hcc, Hnone.
Qed.

Lemma cleanup_run (w : World) :
  fs w !! apiDir = Some Dir ->
  EndpointManager.cleanupEndpoints cwd w
  = match for_each rm_endpoint
            (List.filter (fun endpoint => Js.startsWith endpoint "server_")
                         (names (fs w))) w with
    | (Ret a, w') => (Ret a, w')
    | (Thrown e, w') =>
        Console.error "Error cleaning up endpoints:" e w'
    end.
Proof.
  intros Hapi.
  unfold EndpointManager.cleanupEndpoints, bind at 1, Fs.existsSync.
  unfold EndpointManager.apiDir in *. rewrite lookup_entry_app, Hapi.
  rewrite bool_decide_eq_true_2 by eauto. cbn [negb].
  unfold try_catch, bind at 1, Fs.readdirSync.
  rewrite lookup_entry_app, Hapi. reflexivity.
Qed.
End Cleanup.

(** The cleanup always ends normally.  All it does to the disk is to
    remove entries [server_...] of the API directory: it adds nothing and
    changes nothing, and whatever is neither such an entry nor below one
    is left as it was. *)
Theorem cleanup_only_removes_endpoints (cwd : fspath) (w : World) :
  exists w' ops,
    EndpointManager.cleanupEndpoints cwd w = (Ret tt, w')
    /\ trace w' = trace w ++ ops
    /\ Forall (removal_op cwd) ops
    /\ (forall q e, fs w' !! q = Some e -> fs w !! q = Some e)
    /\ forall q,
         (forall name rest, Js.startsWith name "server_" = true ->
                            q <> EndpointManager.apiDir cwd ++ name :: rest) ->
         fs w' !! q = fs w !! q.
Proof.
  destruct (returns_cleanup cwd w) as [[] [w' Hw]].
  destruct (bounded_cleanup cwd w) as [ops [Ht [Hops [Hsub Hframe]]]].
  rewrite Hw in Ht, Hsub, Hframe. cbn [snd] in *. exists w', ops. auto.
Qed.

Lemma cleanup_removal (cwd : fspath) (w : World)
    (Hapi : fs w !! EndpointManager.apiDir cwd = Some Dir) :
  exists w',
    EndpointManager.cleanupEndpoints cwd w = (Ret tt, w')
    /\ console w' = console w
    /\ (forall name rest,
          Js.startsWith name "server_" = true ->
          fs w !! (EndpointManager.apiDir cwd ++ [name]) = Some Dir ->
          fs w' !! (EndpointManager.apiDir cwd ++ name :: rest) = None)
    /\ forall name d,
         fs w !! (EndpointManager.apiDir cwd ++ [name]) = Some (File d) ->
         fs w' !! (EndpointManager.apiDir cwd ++ [name]) = Some (File d).
Proof.
  rewrite (cleanup_run cwd w Hapi).
  destruct (cleanup_loop cwd
              (List.filter (fun endpoint => Js.startsWith endpoint "server_")
                 (omap (fun kv : fspath * entry =>
                          match Fs.below (EndpointManager.apiDir cwd) (fst kv)
                          with
                          | Some [name] => Some name
                          | _ => None
                          end) (map_to_list (fs w)))) w)
    as [w' [Hrun [Hc [Ha [Hb _]]]]].
  { apply NoDup_List_filter, names_NoDup. }
  { intros name Hin. apply list_elem_of_In, filter_In in Hin as [Hin _].
    now apply names_elem, list_elem_of_In. }
  rewrite Hrun. exists w'. split; [reflexivity|]. split; [exact Hc|]. split.
  - intros name rest Hname Hdir. apply (Ha name); [|exact Hdir|].
    + apply list_elem_of_In, filter_In. split; [|exact Hname].
      apply list_elem_of_In, names_elem. eauto.
    + exists rest. now rewrite <- app_assoc.
  - intros name d Hfile. rewrite Hb; [exact Hfile|].
    intros other _ Hdir Hpre.
    apply prefix_length_eq in Hpre; [|rewrite !length_app; simpl; lia].
    apply app_inj_tail in Hpre as [_ ->]. congruence.
Qed.


(** When the API directory is there, the cleanup logs nothing and removes
    every directory in it whose name starts with [server_], with all
    that lies below; a file with such a name stays. *)
Theorem cleanup_removes_endpoint_directories (cwd : fspath) (w : World)
    (Hapi : fs w !! EndpointManager.apiDir cwd = Some Dir) :
  exists w',
    EndpointManager.cleanupEndpoints cwd w = (Ret tt, w')
    /\ console w' = console w
    /\ (forall name rest,
          Js.startsWith name "server_" = true ->
          fs w !! (EndpointManager.apiDir cwd ++ [name]) = Some Dir ->
          fs w' !! (EndpointManager.apiDir cwd ++ name :: rest) = None)
    /\ forall name d,
         fs w !! (EndpointManager.apiDir cwd ++ [name]) = Some (File d) ->
         fs w' !! (EndpointManager.apiDir cwd ++ [name]) = Some (File d).
Proof. exact (cleanup_removal cwd w Hapi). Qed.

Lemma cleanup_removes_endpoint_directories_witness :
  fs (Fixture.scan Fixture.project) !! EndpointManager.apiDir Fixture.cwd
  = Some Dir
  /\ fs (Fixture.scan Fixture.project) !! Fixture.addEndpoint
     = Some (File (EndpointManager.generateApiContent Fixture.addFn
                     "server_add" []))
  /\ exists w',
       EndpointManager.cleanupEndpoints Fixture.cwd
         (Fixture.scan Fixture.project) = (Ret tt, w')
       /\ fs w' !! Fixture.addEndpoint = None.
Proof.
  assert (Hapi : fs (Fixture.scan Fixture.project)
                 !! EndpointManager.apiDir Fixture.cwd = Some Dir)
    by (vm_compute; reflexivity).
  split; [exact Hapi|]. split; [vm_compute; reflexivity|].
  destruct (cleanup_removes_endpoint_directories Fixture.cwd
              (Fixture.scan Fixture.project) Hapi) as [w' [Hrun [_ [Hrm _]]]].
  exists w'. split; [exact Hrun|].
  apply (Hrm "server_add_RCLzz6g7" ["+server.ts"]); vm_compute; reflexivity.
Defined.

(** ** Imports that bind no name *)

(** An import declaration of the instance script without specifiers, an
    import for its effects, is found unused whatever the script uses. *)
Theorem import_for_effect_is_unused (ast : Root) (inst : Script) (node : Node)
    (used : list string)
    (Hinst : instance ast = Some inst)
    (Hnode : descendant (content inst) node)
    (Htype : node_type node = "ImportDeclaration")
    (Hbare : node_field "specifiers" node = []) :
  import_node_of node ∈ AstUtils.findUnusedImports ast used.
Proof.
  rewrite findUnusedImports_eq, Hinst. apply elem_of_walk_pushing.
  exists node. split; [exact Hnode|]. split; [|reflexivity].
  unfold AstUtils.is_import, AstUtils.all_specifiers_unused.
  rewrite Htype, Hbare. reflexivity.
Qed.

Lemma import_for_effect_is_unused_witness :
  mkImportNode 9 28
  ∈ AstUtils.findUnusedImports
      (mkRoot None
         (Some (mkScript
                  (mkNode "Program" 9 29 false None
                     [("body",
                       mkNode "ImportDeclaration" 9 28 false None
                         [("source",
                           mkNode "Literal" 16 27 false None [])])]))))
      ["onMount"].
Proof.
  apply (import_for_effect_is_unused
           (mkRoot None
              (Some (mkScript
                       (mkNode "Program" 9 29 false None
                          [("body",
                            mkNode "ImportDeclaration" 9 28 false None
                              [("source",
                                mkNode "Literal" 16 27 false None [])])]))))
           (mkScript
              (mkNode "Program" 9 29 false None
                 [("body",
                   mkNode "ImportDeclaration" 9 28 false None
                     [("source", mkNode "Literal" 16 27 false None [])])]))
           (mkNode "ImportDeclaration" 9 28 false None
              [("source", mkNode "Literal" 16 27 false None [])])
           ["onMount"]);
    try reflexivity.
  eapply desc_kid; [left | apply desc_self].
Defined.

(** ** The startup *)

(** The startup always hands the hooks over.  It removes endpoint
    directories, then makes endpoint directories and writes endpoint
    files, and does nothing else to the disk: every file outside the API
    directory is there afterwards with the content it had. *)
Theorem startup_spares_the_sources (parse : string -> Root + string)
    (digest : string -> string) (cwd : fspath)
    (relative_to_src : string -> string) (w : World) :
  exists hooks w' removed made,
    serverFunctions parse digest cwd relative_to_src w = (Ret hooks, w')
    /\ trace w' = trace w ++ removed ++ made
    /\ Forall (removal_op cwd) removed
    /\ Forall (endpoint_op cwd) made
    /\ forall q d,
         ~ EndpointManager.apiDir cwd `prefix_of` q ->
         (fs w' !! q = Some (File d) <-> fs w !! q = Some (File d)).
Proof.
  unfold serverFunctions, bind.
  destruct (returns_cleanup cwd w) as [[] [w1 Hw1]].
  destruct (bounded_cleanup cwd w) as [removed [Ht1 [Hops1 [_ Hframe1]]]].
  rewrite Hw1 in Ht1, Hframe1 |- *. cbn [snd] in *.
  destruct (returns_scan parse digest cwd relative_to_src w1) as [[] [w2 Hw2]].
  destruct (bounded_scan parse digest cwd relative_to_src w1)
    as [made [Ht2 [Hops2 Hframe2]]].
  rewrite Hw2 in Ht2, Hframe2 |- *. cbn [snd] in *.
  eexists _, w2, removed, made. split; [reflexivity|].
  split; [now rewrite Ht2, Ht1, app_assoc|]. split; [exact Hops1|].
  split; [exact Hops2|].
  intros q d Hq. rewrite (Hframe2 q d Hq), Hframe1; [reflexivity|].
  intros name rest _ ->. apply Hq. now exists (name :: rest).
Qed.

(** ** The cleanup after a scan *)

Lemma mkdir_p_dirs (pre rest : fspath) : forall (m m' : gmap fspath entry),
  Fs.mkdir_p pre rest m = Some m' -> dirs_kept m m'.
Proof.
  revert pre. induction rest as [|x rest IH]; intros pre m m' H q Hq;
    simpl in H.
  - now injection H as <-.
  - assert (Hgo : Fs.mkdir_p (pre ++ [x]) rest (<[pre ++ [x] := Dir]> m)
                  = Some m').
    { destruct (m !! (pre ++ [x])) as [[d|]|]; [discriminate | exact H | exact H]. }
    apply (IH _ _ _ Hgo).
    destruct (decide (pre ++ [x] = q)) as [<-|Hne].
    + apply lookup_insert_eq.
    + now rewrite lookup_insert_ne.
Qed.

Lemma mkdir_p_prefixes (pre rest : fspath) :
  forall (m m' : gmap fspath entry) (r : fspath),
    Fs.mkdir_p pre rest m = Some m' -> r <> [] -> r `prefix_of` rest ->
    m' !! (pre ++ r) = Some Dir.
Proof.
  revert pre. induction rest as [|x rest IH]; intros pre m m' r H Hr Hpre.
  - apply prefix_nil_inv in Hpre. congruence.
  - destruct r as [|y r]; [congruence|].
    destruct Hpre as [k Hk]. injection Hk as <- Hk. simpl in H.
    assert (Hgo : Fs.mkdir_p (pre ++ [x]) rest (<[pre ++ [x] := Dir]> m)
                  = Some m').
    { destruct (m !! (pre ++ [x])) as [[d|]|]; [discriminate | exact H | exact H]. }
    destruct r as [|z r]; [exact (mkdir_p_here _ _ _ _ _ Hgo)|].
    replace (pre ++ x :: z :: r) with ((pre ++ [x]) ++ z :: r)
      by (now rewrite <- app_assoc).
    apply (IH _ _ _ _ Hgo); [discriminate | now exists k].
Qed.

Section Settled.
Variable cwd : fspath.

Lemma dirs_kept_refl (m : gmap fspath entry) : dirs_kept m m.
Proof. now intros q. Qed.

Lemma housed_kept (m m' : gmap fspath entry) (p : fspath) :
  dirs_kept m m' -> housed cwd m p -> housed cwd m' p.
Proof.
  intros H [u [Hu [Hp [H1 H2]]]]. exists u. repeat split; auto.
Qed.

Lemma settled_same {A} (m : M A) :
  (forall w, fs (snd (m w)) = fs w /\ trace (snd (m w)) = trace w) ->
  settled cwd m.
Proof.
  intros H w. exists []. destruct (H w) as [-> ->]. rewrite app_nil_r.
  split; [reflexivity|]. split; [apply dirs_kept_refl | constructor].
Qed.

Lemma settled_ret {A} (a : A) : settled cwd (ret a).
Proof. apply settled_same. now intros w. Qed.

Lemma settled_seq {A B} (m : M A) (k : outcome A -> M B) :
  settled cwd m -> (forall o, settled cwd (k o)) ->
  settled cwd (fun w => k (fst (m w)) (snd (m w))).
Proof.
  intros Hm Hk w. destruct (Hm w) as [ops1 [Ht1 [Hd1 Hh1]]].
  destruct (Hk (fst (m w)) (snd (m w))) as [ops2 [Ht2 [Hd2 Hh2]]].
  exists (ops1 ++ ops2). rewrite Ht2, Ht1, app_assoc.
  split; [reflexivity|]. split; [intros q Hq; auto|].
  rewrite write_paths_app. apply Forall_app. split; [|exact Hh2].
  eapply Forall_impl; [exact Hh1|]. intros p. now apply housed_kept.
Qed.

Lemma settled_bind {A B} (m : M A) (k : A -> M B) :
  settled cwd m -> (forall a, settled cwd (k a)) -> settled cwd (bind m k).
Proof.
  intros Hm Hk w.
  destruct (settled_seq m
              (fun o => match o with
                        | Ret a => k a
                        | Thrown e => throw e
                        end) Hm) with (w := w) as [ops H].
  { intros [a|e]; [apply Hk | apply settled_same; now intros w0]. }
  exists ops. unfold bind. now destruct (m w) as [[a|e] w1].
Qed.

Lemma settled_try_catch {A} (m : M A) (h : string -> M A) :
  settled cwd m -> (forall e, settled cwd (h e)) -> settled cwd (try_catch m h).
Proof.
  intros Hm Hh w.
  destruct (settled_seq m
              (fun o => match o with
                        | Ret a => ret a
                        | Thrown e => h e
                        end) Hm) with (w := w) as [ops H].
  { intros [a|e]; [apply settled_ret | apply Hh]. }
  exists ops. unfold try_catch. now destruct (m w) as [[a|e] w1].
Qed.

Lemma settled_for_each {A} (f : A -> M unit) (l : list A) :
  (forall x, x ∈ l -> settled cwd (f x)) -> settled cwd (for_each f l).
Proof.
  induction l as [|x l IH]; intros H; [apply settled_ret|].
  cbn [for_each]. apply settled_bind; [apply H; left|].
  intros _. apply IH. intros y Hy. apply H. now right.
Qed.

Lemma emit_settled (m : gmap fspath entry) (u apiContent : string) :
  Js.startsWith u "server_" = true ->
  dirs_kept m
    (fst (emit m (EndpointManager.apiDir cwd ++ [u; "+server.ts"]) apiContent))
  /\ Forall
       (housed cwd
          (fst (emit m (EndpointManager.apiDir cwd ++ [u; "+server.ts"])
                  apiContent)))
       (write_paths
          (snd (emit m (EndpointManager.apiDir cwd ++ [u; "+server.ts"])
                  apiContent))).
Proof.
  intros Hu. unfold emit, Fs.dirname. rewrite removelast_two.
  destruct (Fs.mkdir_p [] (EndpointManager.apiDir cwd ++ [u]) m)
    as [m'|] eqn:Hmk; [|split; [apply dirs_kept_refl | constructor]].
  assert (Hdirs := mkdir_p_dirs _ _ _ _ Hmk).
  assert (Hapi : m' !! EndpointManager.apiDir cwd = Some Dir).
  { apply (mkdir_p_prefixes [] _ _ _ (EndpointManager.apiDir cwd) Hmk).
    - unfold EndpointManager.apiDir. now destruct cwd.
    - now exists [u]. }
  assert (Hdir : m' !! (EndpointManager.apiDir cwd ++ [u]) = Some Dir).
  { apply (mkdir_p_made [] _ _ _ Hmk). now destruct (EndpointManager.apiDir cwd). }
  assert (Hwrite : forall e,
            m' !! (EndpointManager.apiDir cwd ++ [u; "+server.ts"]) <> Some Dir ->
            dirs_kept m
              (<[EndpointManager.apiDir cwd ++ [u; "+server.ts"] := e]> m')
            /\ housed cwd
                 (<[EndpointManager.apiDir cwd ++ [u; "+server.ts"] := e]> m')
                 (EndpointManager.apiDir cwd ++ [u; "+server.ts"])).
  { intros e Hnd. split.
    - intros q Hq. apply Hdirs in Hq. rewrite lookup_insert_ne; [exact Hq|].
      intros <-. contradiction.
    - exists u. split; [exact Hu|]. split; [reflexivity|].
      rewrite !lookup_insert_ne; [auto | |];
        intros Heq; apply (f_equal length) in Heq;
        rewrite ?length_app in Heq; simpl in Heq; lia. }
  rewrite lookup_entry_app.
  destruct (m' !! (EndpointManager.apiDir cwd ++ [u; "+server.ts"]))
    as [[existing|]|] eqn:Hp.
  - destruct (String.eqb existing apiContent); cbn [fst snd write_paths omap list_omap].
    + split; [exact Hdirs | constructor].
    + destruct (Hwrite (File apiContent)) as [H1 H2]; [discriminate|].
      split; [exact H1 | repeat constructor; exact H2].
  - cbn [fst snd write_paths omap list_omap]. split; [exact Hdirs | constructor].
  - destruct (Hwrite (File apiContent)) as [H1 H2]; [discriminate|].
    cbn [fst snd write_paths omap list_omap].
    split; [exact H1 | repeat constructor; exact H2].
Qed.

Section WithCollaborators.
Variable parse : string -> Root + string.
Variable digest : string -> string.
Variable relative_to_src : string -> string.

Lemma settled_createEndpoint (u c : string) (f : ServerFunction) :
  Js.startsWith u "server_" = true ->
  settled cwd
    (EndpointManager.createEndpoint parse
       (EndpointManager.apiDir cwd ++ [u; "+server.ts"]) c f).
Proof.
  intros Hu w.
  destruct (createEndpoint_run parse
              (EndpointManager.apiDir cwd ++ [u; "+server.ts"]) c f w)
    as [console' ->]. cbn [snd].
  destruct (AstUtils.extractFunctionDetails parse c f) as [details|e].
  - destruct (emit_settled (fs w) u (rendered details f) Hu) as [H1 H2].
    eexists. cbn [trace fs]. split; [reflexivity|]. split; assumption.
  - exists []. cbn [trace fs]. rewrite app_nil_r.
    split; [reflexivity|]. split; [apply dirs_kept_refl | constructor].
Qed.

Lemma settled_processFile (q : fspath) :
  settled cwd (EndpointManager.processFile parse digest cwd relative_to_src q).
Proof.
  unfold EndpointManager.processFile.
  apply settled_try_catch;
    [|intros e; apply settled_same; now intros w].
  apply settled_bind.
  { apply settled_same. intros w. unfold Fs.readFileSync.
    now destruct (Fs.lookup_entry (fs w) q) as [[d|]|]. }
  intros c.
  destruct (negb (Js.includes c "async function server_"));
    [apply settled_ret|].
  apply settled_bind;
    [apply settled_same; intros w; now destruct (parse c)|].
  intros tree. apply settled_for_each.
  intros func Hfunc. unfold PathUtils.generatePaths. cbn [apiPath].
  change (cwd ++ ["src"; "routes"; "api";
                  PathUtils.uniquePath digest
                    (PathUtils.relativePath relative_to_src
                       (Some (Fs.render q)))
                    (sf_name func); "+server.ts"])
    with (cwd ++ ["src"; "routes"; "api"]
              ++ [PathUtils.uniquePath digest
                    (PathUtils.relativePath relative_to_src
                       (Some (Fs.render q)))
                    (sf_name func); "+server.ts"]).
  rewrite app_assoc. apply settled_createEndpoint.
  unfold PathUtils.uniquePath, Js.startsWith.
  apply prefix_append. now apply findServerFunctions_named in Hfunc.
Qed.

Lemma settled_scan :
  settled cwd
    (EndpointManager.scanAndCreateEndpoints parse digest cwd relative_to_src).
Proof.
  unfold EndpointManager.scanAndCreateEndpoints.
  apply settled_try_catch;
    [|intros e; apply settled_same; now intros w].
  apply settled_bind.
  { apply settled_same. intros w. unfold Fs.readdirSync_recursive.
    now destruct (Fs.lookup_entry (fs w) (EndpointManager.srcDir cwd))
      as [[d|]|]. }
  intros files. apply settled_for_each. intros file _.
  destruct (Js.endsWith (Js.join "/" file) ".svelte");
    [apply settled_processFile | apply settled_ret].
Qed.
End WithCollaborators.
End Settled.

(** Every endpoint file a scan writes is gone after the cleanup that
    follows it: the cleanup removes the directory the scan has made for
    it. *)
Theorem cleanup_undoes_the_scan (parse : string -> Root + string)
    (digest : string -> string) (cwd : fspath)
    (relative_to_src : string -> string) (w : World) (p : fspath) :
  let w1 :=
    snd (EndpointManager.scanAndCreateEndpoints parse digest cwd
           relative_to_src w) in
  let w2 := snd (EndpointManager.cleanupEndpoints cwd w1) in
  p ∈ writes_since w w1 -> fs w2 !! p = None.
Proof.
  intros w1 w2 Hp.
  destruct (settled_scan cwd parse digest relative_to_src w)
    as [ops [Ht [_ Hhoused]]].
  fold w1 in Ht, Hhoused.
  rewrite (writes_since_app w w1 ops Ht) in Hp.
  rewrite Forall_forall in Hhoused.
  destruct (Hhoused p Hp) as [u [Hu [-> [Hapi Hdir]]]].
  destruct (cleanup_removal cwd w1 Hapi) as [w' [Hrun [_ [Hrm _]]]].
  subst w2. rewrite Hrun. cbn [snd].
  now apply (Hrm u ["+server.ts"]).
Qed.

Lemma cleanup_undoes_the_scan_witness :
  Fixture.addEndpoint
  ∈ writes_since Fixture.project (Fixture.scan Fixture.project)
  /\ fs (snd (EndpointManager.cleanupEndpoints Fixture.cwd
                (Fixture.scan Fixture.project))) !! Fixture.addEndpoint
     = None.
Proof.
  assert (H : Fixture.addEndpoint
              ∈ writes_since Fixture.project (Fixture.scan Fixture.project)).
  { replace (writes_since Fixture.project (Fixture.scan Fixture.project))
      with [Fixture.addEndpoint] by (vm_compute; reflexivity).
    left. }
  split; [exact H|].
  exact (cleanup_undoes_the_scan Fixture.parseAdd Sha256.sha256_base64url
           Fixture.cwd Fixture.relative_to_src Fixture.project
           Fixture.addEndpoint H).
Defined.

(** ** The tree the transformer holds *)

(** Transforming a function always ends normally and changes nothing of
    the transformer but its content: the tree parsed by the constructor
    and the file name stay, whatever the edits and whether or not the
    content parses again; the disk is not touched. *)
Theorem transformer_keeps_its_tree (parse : string -> Root + string)
    (this : ServerFunctionTransformer.t) (serverFunc : ServerFunction)
    (routePath_ : string) (w : World) :
  exists c' w',
    ServerFunctionTransformer.transformServerFunction parse this serverFunc
      routePath_ w
    = (Ret (ServerFunctionTransformer.set_content this c'), w')
    /\ fs w' = fs w /\ trace w' = trace w.
Proof.
  unfold ServerFunctionTransformer.transformServerFunction. cbv zeta.
  rewrite (fold_set_content
             (ServerFunctionTransformer.replace_call routePath_)).
  set (edited := ServerFunctionTransformer.cut _ _ _).
  change (ServerFunctionTransformer.set_content
            (ServerFunctionTransformer.set_content this _) edited)
    with (ServerFunctionTransformer.set_content this edited).
  unfold ServerFunctionTransformer.cleanupUnusedImports, try_catch, bind.
  destruct (parse _) as [tree|e]; cbn [lift ret throw].
  - rewrite (fold_set_content
               (fun c importNode =>
                  ServerFunctionTransformer.cut c (imp_start importNode)
                    (imp_end importNode))).
    eexists _, w. split; [reflexivity | split; reflexivity].
  - eexists edited, _. split; [reflexivity | split; reflexivity].
Qed.
